(** * redmed: posting media submissions to reddit

    A shallow embedding of the Go package [redmed] and the properties of
    its upload / submission / completion protocol.

    The package exists in the repository in several revisions, all of
    which are embedded here, each in a module of its own:

    - [Monolith]: [redmed.go], first revision, where the client itself
      carries the token and talks to reddit ([setToken], [uploadMedia],
      [waitForPostSuccess], [PostImage], [PostVideo], [PostGallery]);
    - [RedditOld]: [reddit.go], the revision without a websocket dialer
      ([UploadAsset], [SubmitPost], [SubmitGalleryPost], ...);
    - [Reddit]: [reddit.go], the revision with the dialer, the check of
      the upload's [Location] and the [success] policy of the listener;
    - [Client]: [redmed.go], second revision, a thin client over the
      [reddit] layer.

    Everything outside the package (net/http, net/url, encoding/json,
    encoding/xml, os, gorilla/websocket) is an oracle collected in the
    record [Env]; the theorems hold for every such environment. *)

From Stdlib Require Import Ascii.
From stdpp Require Import base option list strings gmap pretty.

Local Open Scope string_scope.
Local Open Scope Z_scope.
Local Set Warnings "-register-all".
Disable Notation "_ ++ _" : string_scope.

(** ** Go strings *)

(** A Go string is a sequence of bytes, as is a [string] here. *)

Definition slash : ascii := "/"%char.
Definition dot : ascii := "."%char.

(** [strings.Split(s, "/")]: the substrings between the separators; a
    string without a separator (the empty one too) gives a slice of
    length one. *)
Fixpoint Split (s : string) : list string :=
  match s with
  | EmptyString => [EmptyString]
  | String c s' =>
      if Ascii.eqb c slash then EmptyString :: Split s'
      else match Split s' with
           | [] => [String c EmptyString]
           | h :: t => String c h :: t
           end
  end.

(** [os.IsPathSeparator] on Unix. *)
Definition IsPathSeparator (c : ascii) : bool := Ascii.eqb c slash.

Definition bytes (s : string) : list ascii := String.list_ascii_of_string s.
Definition of_bytes (l : list ascii) : string := String.string_of_list_ascii l.

(** The loop of [filepath.Ext]: [i] runs down from the last byte while
    [path[i]] is not a separator, and a dot ends it with [path[i:]].
    [before] is [path[:i+1]] reversed, [after] is [path[i+1:]]. *)
Fixpoint Ext_loop (before after : list ascii) : string :=
  match before with
  | [] => ""
  | c :: before' =>
      if IsPathSeparator c then ""
      else if Ascii.eqb c dot then of_bytes (c :: after)
      else Ext_loop before' (c :: after)
  end.

(** [filepath.Ext]. *)
Definition Ext (path : string) : string := Ext_loop (rev (bytes path)) [].

Fixpoint strip_seps (rpath : list ascii) : list ascii :=
  match rpath with
  | c :: r => if IsPathSeparator c then strip_seps r else rpath
  | [] => []
  end.

Fixpoint last_elem (rpath acc : list ascii) : list ascii :=
  match rpath with
  | c :: r => if IsPathSeparator c then acc else last_elem r (c :: acc)
  | [] => acc
  end.

(** [filepath.Base] on Unix (no volume name): the empty path is ["."],
    trailing slashes are stripped, the last element is kept, and a path
    of slashes only is ["/"]. *)
Definition Base (path : string) : string :=
  match path with
  | EmptyString => "."
  | _ =>
      match last_elem (strip_seps (rev (bytes path))) [] with
      | [] => "/"
      | l => of_bytes l
      end
  end.

(** The package variable [mimeTypes], a Go map. *)
Definition mimeTypes : gmap string string :=
  <[".png" := "image/png"]>
  (<[".mov" := "video/quicktime"]>
  (<[".mp4" := "video/mp4"]>
  (<[".jpg" := "image/jpeg"]>
  (<[".jpeg" := "image/jpeg"]>
  (<[".gif" := "image/gif"]> ∅))))).

Definition tokenURL : string := "https://www.reddit.com/api/v1/access_token".
Definition baseURL : string := "https://oauth.reddit.com".

(** ** Errors and results *)

(** A Go [error], by the way the package builds it. *)
Inductive error : Type :=
| ErrNew (msg : string)
    (** [errors.New(msg)], or [fmt.Errorf] without [%w] *)
| ErrWrap (what : string) (cause : error)
    (** [fmt.Errorf("<what>: %w", cause)] *)
| Canceled
    (** [context.Canceled] *)
| DeadlineExceeded.
    (** [context.DeadlineExceeded] *)

(** [err.Error()]. *)
Fixpoint Error (e : error) : string :=
  match e with
  | ErrNew msg => msg
  | ErrWrap what cause => what +:+ ": " +:+ Error cause
  | Canceled => "context canceled"
  | DeadlineExceeded => "context deadline exceeded"
  end.

(** [errors.Unwrap], iterated: the error at the bottom of the chain. *)
Fixpoint root_cause (e : error) : error :=
  match e with
  | ErrWrap _ cause => root_cause cause
  | _ => e
  end.

(** The errors a cancelled or expired context reports ([ctx.Err()]). *)
Definition is_cancellation (e : error) : bool :=
  match e with
  | Canceled | DeadlineExceeded => true
  | _ => false
  end.

(** What a library call gives back: a value, or an error. *)
Inductive result (A : Type) : Type :=
| Ok (a : A)
| Err (e : error).
Arguments Ok {A} a.
Arguments Err {A} e.

(** How a function of the package ends. *)
Inductive outcome (A : Type) : Type :=
| Ret (a : A)          (** returns [a, nil] *)
| Fail (e : error)     (** returns a non-nil error *)
| Panic                (** run-time panic: index out of range *)
| Blocked.             (** never returns: still blocked when the schedule ends *)
Arguments Ret {A} a.
Arguments Fail {A} e.
Arguments Panic {A}.
Arguments Blocked {A}.


(** ** The outside world *)

(** A JSON document, as [json.Marshal] writes it: the keys of a Go map
    come out sorted. *)
Inductive json : Type :=
| JNull
| JBool (b : bool)
| JStr (s : string)
| JArr (elems : list json)
| JObj (members : list (string * json)).

(** A request body, by the writer that produced it. *)
Inductive body : Type :=
| NoBody
| FormBody (form : list (string * string))
    (** [strings.NewReader(form.Encode())] of a [url.Values] *)
| MultipartBody (fields : list (string * string)) (fileName content : string)
    (** the closed [multipart.Writer]: the form fields in the order they
        were created, then the part ["file"] *)
| JSONBody (payload : json).
    (** [bytes.NewReader(payloadBytes)] of marshalled JSON *)

(** [*http.Request]: [Header] is a Go map. *)
Record request : Type := {
  Method : string;
  URL : string;
  Header : gmap string string;
  Body : body
}.

(** [*http.Response]; reading [Body] to its end may fail. *)
Record response : Type := {
  StatusCode : Z;
  RespBody : result string
}.

(** [*url.URL], as far as the package looks at it. *)
Record url : Type := {
  Scheme : string;
  Host : string;
  String_ : string      (** [u.String()] *)
}.

Record lease_field : Type := { Name : string; Value : string }.

(** [assetLeaseResponse]. *)
Record assetLeaseResponse : Type := {
  Action : string;
  Fields : list lease_field;
  AssedID : string;
  WebsocketURL : string
}.

(** The zero value of [assetLeaseResponse]. *)
Definition zero_lease : assetLeaseResponse :=
  {| Action := ""; Fields := []; AssedID := ""; WebsocketURL := "" |}.

(** [wsResponse]: [Type] and [Payload.Redirect]. *)
Record wsResponse : Type := {
  Type_ : string;
  Redirect : string
}.

(** What [ws.ReadMessage()] yields. *)
Inductive frame : Type :=
| ReadError (e : error)
| Message (message : string).

(** The libraries the package calls. *)
Record Env : Type := {
  httpDo : request → result response;
    (** [c.client.Do(r)] *)
  urlParse : string → result url;
    (** [url.Parse] *)
  urlParseRequestURI : string → result url;
    (** [url.ParseRequestURI] *)
  jsonToken : string → result string;
    (** [json] decoding of [token]: the field [access_token] *)
  jsonLease : string → result assetLeaseResponse;
    (** [json.Unmarshal] into [assetLeaseResponse] *)
  jsonGallery : string → result string;
    (** [json.Unmarshal] into [postGalleryResponse]: [JSON.Data.ID] *)
  jsonWs : string → result wsResponse;
    (** [json.Unmarshal] into [wsResponse] *)
  xmlLocation : string → result string;
    (** [xml.Unmarshal] into [postResponse]: [Location], empty when the
        document has no such element *)
  osOpen : string → result string;
    (** [os.Open] and the read of a file that is not a staged one *)
  osTempDir : string;
    (** [os.TempDir()] *)
  osCreateTemp : string → option error;
    (** whether [os.CreateTemp("", pattern)] fails *)
  wsDial : string → result (list frame)
    (** [Dial(url, nil)]: the messages the peer sends on the connection *)
}.

(** Where in the package a request is sent from. *)
Inductive call_site : Type :=
| AtToken | AtDownload | AtLease | AtUpload | AtSubmit | AtSubmitGallery.

(** What the program does to the world, in order. *)
Inductive event : Type :=
| EvHTTP (site : call_site) (r : request)
| EvDial (addr : string)
| EvClose (addr : string)
| EvCreateTemp (name : string)
| EvRemove (name : string).

(** The [client] (or [reddit]) struct. *)
Record client : Type := {
  clientID : string;
  secret : string;
  username : string;
  password : string;
  userAgent : string;
  accessToken : string
}.

Definition with_token (c : client) (tok : string) : client :=
  {| clientID := clientID c; secret := secret c; username := username c;
     password := password c; userAgent := userAgent c; accessToken := tok |}.

(** The state a call runs in: the struct behind the receiver, the staged
    files with their contents, the number of temporary files created so
    far, and the events so far, latest first. *)
Record world : Type := {
  self : client;
  staged : gmap string string;
  created : nat;
  log : list event
}.

Definition emit (ev : event) (w : world) : world :=
  {| self := self w; staged := staged w; created := created w;
     log := ev :: log w |}.

Definition set_token (tok : string) (w : world) : world :=
  {| self := with_token (self w) tok; staged := staged w;
     created := created w; log := log w |}.

(** A function of the package: from a world to an outcome and a world. *)
Definition M (A : Type) : Type := world → outcome A * world.

Definition ret {A} (a : A) : M A := λ w, (Ret a, w).
Definition fail {A} (e : error) : M A := λ w, (Fail e, w).
Definition panic {A} : M A := λ w, (Panic, w).

Definition bind {A B} (m : M A) (k : A → M B) : M B :=
  λ w, match m w with
       | (Ret a, w') => k a w'
       | (Fail e, w') => (Fail e, w')
       | (Panic, w') => (Panic, w')
       | (Blocked, w') => (Blocked, w')
       end.

Notation "'do' x <- m ; k" := (bind m (λ x, k))
  (at level 10, x pattern, m at level 100, k at level 200).

(** [v, err := f(); if err != nil { return fmt.Errorf("<what>: %w", err) }] *)
Definition wrap {A} (what : string) (m : M A) : M A :=
  λ w, match m w with
       | (Fail e, w') => (Fail (ErrWrap what e), w')
       | r => r
       end.

(** A library result in the package: [if err != nil { return err }]. *)
Definition lift {A} (r : result A) : M A :=
  match r with Ok a => ret a | Err e => fail e end.

(** [defer f()]: [f] runs when the function ends, however it ends. *)
Definition defer {A} (f : world → world) (m : M A) : M A :=
  λ w, let '(r, w') := m w in (r, f w').

Definition get_self : M client := λ w, (Ret (self w), w).

(** [strconv.FormatBool]. *)
Definition FormatBool (b : bool) : string := if b then "true" else "false".

(** ** What all revisions share

    The functions of this section read the same in [redmed.go] (first
    revision) and in both revisions of [reddit.go]. *)

Section Shared.
Context (E : Env).

(** [http.NewRequestWithContext(ctx, method, url, body)]: the method is
    a constant and the context is not nil, so the call fails exactly
    when the address does not parse. *)
Definition NewRequestWithContext (method addr : string) (b : body)
  : M request :=
  match urlParse E addr with
  | Err e => fail e
  | Ok _ => ret {| Method := method; URL := addr; Header := ∅; Body := b |}
  end.

(** [r.Header.Set(key, value)]. *)
Definition Header_Set (key value : string) (r : request) : request :=
  {| Method := Method r; URL := URL r;
     Header := <[key := value]> (Header r); Body := Body r |}.

(** [c.client.Do(r)]. *)
Definition Do (site : call_site) (r : request) : M response :=
  λ w, match httpDo E r with
       | Ok resp => (Ret resp, emit (EvHTTP site r) w)
       | Err e => (Fail e, emit (EvHTTP site r) w)
       end.

(** [doRequest]: [v] is the decoder for the pointer handed in, [None]
    for a nil one. Only 200 and 201 pass. *)
Definition doRequest {T} (site : call_site) (r : request)
    (contentType : string) (v : option (string → result T))
  : M (string * option T) :=
  do c <- get_self;
  let r := Header_Set "User-Agent" (userAgent c) r in
  let cType :=
    if decide (contentType = "") then "application/x-www-form-urlencoded"
    else contentType in
  let r := Header_Set "Content-Type" cType r in
  do resp <- Do site r;
  do respBytes <- lift (RespBody resp);
  if bool_decide (StatusCode resp ≠ 200 ∧ StatusCode resp ≠ 201) then
    fail (ErrNew ("status code " +:+ pretty (StatusCode resp) +:+ ": "
                  +:+ respBytes))
  else
    match v with
    | None => ret (respBytes, None)
    | Some unmarshal =>
        match unmarshal respBytes with
        | Err e =>
            fail (ErrNew ("unmarshalling " +:+ respBytes +:+ ": "
                          +:+ Error e))
        | Ok x => ret (respBytes, Some x)
        end
    end.

(** The name [os.CreateTemp("", "redmed*" + ext)] picks: the [*] of the
    pattern becomes a random string, here the number of the file. *)
Definition temp_name (n : nat) (ext : string) : string :=
  osTempDir E +:+ "/redmed" +:+ pretty n +:+ ext.

Definition CreateTemp (ext : string) : M string :=
  λ w, match osCreateTemp E ("redmed*" +:+ ext) with
       | Some e => (Fail e, w)
       | None =>
           let name := temp_name (created w) ext in
           (Ret name,
            {| self := self w; staged := <[name := ""]> (staged w);
               created := S (created w);
               log := EvCreateTemp name :: log w |})
       end.

(** [io.Copy(file, resp.Body)] into a staged file. *)
Definition Copy_to (name : string) (src : result string) : M unit :=
  match src with
  | Err e => fail e
  | Ok content =>
      λ w, (Ret (),
            {| self := self w; staged := <[name := content]> (staged w);
               created := created w; log := log w |})
  end.

(** [os.Remove(name)]. *)
Definition Remove (name : string) (w : world) : world :=
  {| self := self w; staged := delete name (staged w);
     created := created w; log := EvRemove name :: log w |}.

(** [os.Open(path)] and the read of the file by [io.Copy]. *)
Definition Open (path : string) : M string :=
  λ w, match staged w !! path with
       | Some content => (Ret content, w)
       | None => lift (osOpen E path) w
       end.

(** [downloadLink]. *)
Definition downloadLink (link : string) : M string :=
  do r <- NewRequestWithContext "GET" link NoBody;
  do resp <- Do AtDownload r;
  if bool_decide (StatusCode resp ≠ 200) then
    fail (ErrNew ("expectes status code 200, got "
                  +:+ pretty (StatusCode resp)))
  else
    do file <- CreateTemp (Ext link);
    do _ <- Copy_to file (RespBody resp);
    ret file.

(** [isValidURL]. *)
Definition isValidURL (toTest : string) : bool :=
  match urlParseRequestURI E toTest with
  | Err _ => false
  | Ok _ =>
      match urlParse E toTest with
      | Err _ => false
      | Ok u =>
          if decide (Scheme u = "") then false
          else if decide (Host u = "") then false
          else true
      end
  end.

(** [SetToken] ([setToken] in the first revision). The status of the
    response is not looked at. Basic authentication is written without
    its base64 coding. *)
Definition SetToken : M unit :=
  do c <- get_self;
  let form := [("grant_type", "password"); ("password", password c);
               ("username", username c)] in
  do req <- NewRequestWithContext "POST" tokenURL (FormBody form);
  let req := Header_Set "User-Agent" (userAgent c) req in
  let req := Header_Set "Authorization"
               ("Basic " +:+ clientID c +:+ ":" +:+ secret c) req in
  do resp <- Do AtToken req;
  do raw <- lift (RespBody resp);
  do t <- lift (jsonToken E raw);
  if decide (t = "") then fail (ErrNew "no token in response")
  else λ w, (Ret (), set_token t w).

(** [r.Header.Set("Authorization", fmt.Sprintf("bearer %s", c.accessToken))] *)
Definition authorize (r : request) : M request :=
  do c <- get_self;
  ret (Header_Set "Authorization" ("bearer " +:+ accessToken c) r).

(** The negotiation of the lease in [uploadMedia] and [UploadAsset]:
    from [assetForm := url.Values{...}] to the [doRequest] that fills
    [ar]. *)
Definition request_lease (fileName mimeType : string)
  : M assetLeaseResponse :=
  let assetForm := [("filepath", fileName); ("mimetype", mimeType)] in
  do r <- NewRequestWithContext "POST"
            (baseURL +:+ "/api/media/asset.json") (FormBody assetForm);
  do r <- authorize r;
  do lease <- doRequest AtLease r "" (Some (jsonLease E));
  ret (default zero_lease lease.2).

(** The submission of an image or a video: the request to
    [/api/submit] and its [doRequest]. *)
Definition post_submit (b : body) : M unit :=
  do r <- wrap "creating http request"
            (NewRequestWithContext "POST" (baseURL +:+ "/api/submit") b);
  do r <- authorize r;
  do _ <- wrap "executing submission request"
            (doRequest (T := unit) AtSubmit r "" None);
    ret ().

(** The submission of a gallery: the request to
    [/api/submit_gallery_post.json], its [doRequest] into [pgr], and
    the check of [pgr.JSON.Data.ID]. *)
Definition post_gallery (b : body) : M string :=
  do r <- wrap "creating http request"
            (NewRequestWithContext "POST"
               (baseURL +:+ "/api/submit_gallery_post.json") b);
  do r <- authorize r;
  do resp <- wrap "executing submission request"
               (doRequest AtSubmitGallery r "application/json"
                  (Some (jsonGallery E)));
  let id := default "" resp.2 in
  if decide (id = "") then
    fail (ErrWrap "executing submission request" (ErrNew resp.1))
  else ret id.
End Shared.

(** ** The completion waiter

    [waitForPostSuccess] starts one listener goroutine and then blocks in
    a [select] over [ctx.Done()] and the unbuffered channel [msgCh]. The
    two goroutines and the caller's context are a transition system:
    a schedule, a list of [action]s, says who moves next. *)

(** [struct msg { value string; err error }]. *)
Record msg : Type := { value : string; err : option error }.

(** Why a context is done. *)
Inductive done_reason : Type := ByCancel | ByDeadline.

(** [ctx.Err()] of a context that is done. *)
Definition ctx_error (d : done_reason) : error :=
  match d with ByCancel => Canceled | ByDeadline => DeadlineExceeded end.

(** Where the listener goroutine is. *)
Inductive listener : Type :=
| AtLoopHead
    (** at [for { if ctx.Err() != nil { return } ...] *)
| AtRead
    (** in [ws.ReadMessage()] *)
| AtSend (m : msg) (last : bool)
    (** in [msgCh <- m]; [last] when a [return] follows the send *)
| Returned.
    (** the goroutine has returned; the deferred [close(msgCh)] has run *)

Record waiting : Type := {
  ctxErr : option done_reason;
    (** none while the context is live *)
  incoming : list frame;
    (** what the peer has yet to deliver *)
  conn_open : bool;
    (** false once the deferred [ws.Close()] has run *)
  goroutine : listener;
  returned : option (outcome string)
    (** what [waitForPostSuccess] returned, once it has *)
}.

Inductive action : Type :=
| Cancel (d : done_reason)
    (** the caller cancels the context, or its deadline expires *)
| Listen
    (** the listener runs up to its next blocking operation *)
| SelectDone
    (** the select takes [case <-ctx.Done()] *)
| SelectMsg.
    (** the select takes [case msg := <-msgCh] *)

(** [context.Context] as the waiter sees it: whether it is done when the
    listener is started, and what happens from then on. *)
Record context : Type := {
  done0 : option done_reason;
  schedule : list action
}.

Section Waiter.
Context (E : Env).

(** The test of the listener that makes a decoded message a failure:
    [wr.Type == "failed" || wr.Payload.Redirect == ""] in [redmed.go] and
    the older [reddit.go], [wr.Type != "success" || wr.Payload.Redirect == ""]
    in the newer [reddit.go]. *)
Context (failure : wsResponse → bool).

Definition send_err (what : string) (e : error) : listener :=
  AtSend {| value := ""; err := Some (ErrWrap what e) |} true.

(** The body of the listener's loop after [ws.ReadMessage()] returned. *)
Definition on_frame (f : frame) : listener :=
  match f with
  | ReadError e => send_err "reading websocket message" e
  | Message message =>
      match jsonWs E message with
      | Err e => send_err "unmarshalling websocket message" e
      | Ok wr =>
          if failure wr then
            send_err "waiting for media upload success" (ErrNew message)
          else AtSend {| value := Redirect wr; err := None |} false
      end
  end.

Definition set_goroutine (g : listener) (s : waiting) : waiting :=
  {| ctxErr := ctxErr s; incoming := incoming s; conn_open := conn_open s;
     goroutine := g; returned := returned s |}.

(** The waiter returns [r]: the deferred [ws.Close()] runs. *)
Definition waiter_returns (r : outcome string) (g : listener) (s : waiting)
  : waiting :=
  {| ctxErr := ctxErr s; incoming := incoming s; conn_open := false;
     goroutine := g; returned := Some r |}.

(** [if msg.err != nil { return "", msg.err }; return msg.value, nil] *)
Definition of_msg (m : msg) : outcome string :=
  match err m with Some e => Fail e | None => Ret (value m) end.

(** One move; an action that cannot move leaves the state as it is. *)
Definition step (a : action) (s : waiting) : waiting :=
  match a with
  | Cancel d =>
      match ctxErr s with
      | Some _ => s
      | None =>
          {| ctxErr := Some d; incoming := incoming s;
             conn_open := conn_open s; goroutine := goroutine s;
             returned := returned s |}
      end
  | Listen =>
      match goroutine s with
      | AtLoopHead =>
          match ctxErr s with
          | Some _ => set_goroutine Returned s
          | None => set_goroutine AtRead s
          end
      | AtRead =>
          if conn_open s then
            match incoming s with
            | [] => s
            | f :: rest =>
                {| ctxErr := ctxErr s; incoming := rest;
                   conn_open := conn_open s; goroutine := on_frame f;
                   returned := returned s |}
            end
          else
            set_goroutine
              (send_err "reading websocket message"
                 (ErrNew "use of closed network connection")) s
      | AtSend _ _ | Returned => s
      end
  | SelectDone =>
      match returned s, ctxErr s with
      | None, Some d => waiter_returns (Fail (ctx_error d)) (goroutine s) s
      | _, _ => s
      end
  | SelectMsg =>
      match returned s, goroutine s with
      | None, AtSend m last =>
          waiter_returns (of_msg m) (if last then Returned else AtLoopHead) s
      | None, Returned =>
          (* a receive from the closed channel yields the zero [msg] *)
          waiter_returns (of_msg {| value := ""; err := None |}) Returned s
      | _, _ => s
      end
  end.

Definition run (sched : list action) (s : waiting) : waiting :=
  foldl (λ s a, step a s) s sched.

(** The state right after [go func(...) {...}(ctx, msgCh)]. *)
Definition start (ctx : context) (frames : list frame) : waiting :=
  {| ctxErr := done0 ctx; incoming := frames; conn_open := true;
     goroutine := AtLoopHead; returned := None |}.

(** [waitForPostSuccess(ctx, url)]. *)
Definition waitForPostSuccessWith (ctx : context) (addr : string)
  : M string :=
  if decide (addr = "") then ret ""
  else
    match wsDial E addr with
    | Err e =>
        λ w, (Fail (ErrWrap "dialing websocket connection" e),
              emit (EvDial addr) w)
    | Ok frames =>
        λ w, match returned (run (schedule ctx) (start ctx frames)) with
             | Some r => (r, emit (EvClose addr) (emit (EvDial addr) w))
             | None => (Blocked, emit (EvDial addr) w)
             end
    end.
End Waiter.

(** [wr.Type == "failed" || wr.Payload.Redirect == ""] *)
Definition failed_or_empty (wr : wsResponse) : bool :=
  bool_decide (Type_ wr = "failed") || bool_decide (Redirect wr = "").

(** [wr.Type != "success" || wr.Payload.Redirect == ""] *)
Definition not_success_or_empty (wr : wsResponse) : bool :=
  bool_decide (Type_ wr ≠ "success") || bool_decide (Redirect wr = "").

(** [split[len(split)-3]], with the bounds check of the run time. *)
Definition third_from_last (split : list string) : option string :=
  let i := Z.of_nat (length split) - 3 in
  if bool_decide (0 ≤ i < Z.of_nat (length split)) then split !! Z.to_nat i
  else None.

(** [split := strings.Split(redirect, "/");
     return fmt.Sprintf(<prefix> + "%s", split[len(split)-3]), nil] *)
Definition name_of_redirect (prefix redirect : string) : M string :=
  match third_from_last (Split redirect) with
  | Some id => ret (prefix +:+ id)
  | None => panic
  end.

(** ** errgroup *)

(** [var eg errgroup.Group; for i := ... { eg.Go(...) }; err = eg.Wait()]
    where the closures share nothing but a slice in which each writes
    its own index, as in the second revision of [redmed.go]: goroutine
    [i] runs [go i] on the state [shared] that the closures capture.
    [order] is the order in which the goroutines complete; one that
    fails leaves [shared] as it found it, and [Wait] returns the error
    of the first that failed. *)
Fixpoint Wait {S} (go : nat → S → M S) (order : list nat) (shared : S)
    (first : option error) : M (S * option error) :=
  match order with
  | [] => ret (shared, first)
  | i :: rest =>
      λ w, match go i shared w with
           | (Ret shared', w') => Wait go rest shared' first w'
           | (Fail e, w') =>
               Wait go rest shared
                 (match first with Some e0 => Some e0 | None => Some e end) w'
           | (Panic, w') => (Panic, w')
           | (Blocked, w') => (Blocked, w')
           end
  end.

(** [map[string]string{"caption": "", "outbound_url": "", "media_id": id}] *)
Definition gallery_item (assetID : string) : gmap string string :=
  <["caption" := ""]> (<["outbound_url" := ""]> (<["media_id" := assetID]> ∅)).

(** [json.Marshal] of the items: a nil map is [null]. *)
Definition item_json (it : option (gmap string string)) : json :=
  match it with
  | None => JNull
  | Some m => JObj (prod_map id JStr <$> map_to_list m)
  end.

Definition form_fields (fs : list lease_field) : list (string * string) :=
  (λ f, (Name f, Value f)) <$> fs.

(** ** [redmed.go], first revision *)

Module Monolith.

Record PostImageRequest : Type := {
  img_NSWF : bool;
  img_Path : string;
  img_Resubmit : bool;
  img_SendReplies : bool;
  img_Spoiler : bool;
  img_Subreddit : string;
  img_Title : string
}.

Record PostVideoRequest : Type := {
  vid_Kind : string;
  vid_NSWF : bool;
  vid_Path : string;
  vid_Resubmit : bool;
  vid_SendReplies : bool;
  vid_Spoiler : bool;
  vid_Subreddit : string;
  vid_ThumbnailPath : string;
  vid_Title : string
}.

Record PostGalleryRequest : Type := {
  gal_NSWF : bool;
  gal_Paths : list string;
  gal_SendReplies : bool;
  gal_Spoiler : bool;
  gal_Subreddit : string;
  gal_Title : string
}.

(** What the goroutines of [PostGallery] share, lines 306-343: the
    slice [items]; the variable [err] of [PostGallery], which the
    closures assign in line 322, before the [:=] of line 332 gives them
    an [err] of their own; and the first error that a closure returned,
    which [eg.Wait()] reports. [mediaPath] holds, for the goroutines
    that have run line 322, their local [mediaPath]. *)
Record racing : Type := {
  items : list (option (gmap string string));
  err : option error;
  first : option error;
  mediaPath : gmap nat string
}.

(** One move of the scheduler. [Download i]: goroutine [i] runs up to
    and including the assignment of line 322 and is preempted before
    the test of line 323. [Finish i]: goroutine [i] runs from where it
    is to its end. *)
Inductive move : Type :=
| Download (i : nat)
| Finish (i : nat).

Section Code.
Context (E : Env).

Definition setToken : M unit := SetToken E.

(** [waitForPostSuccess], lines 397-459. *)
Definition waitForPostSuccess : context → string → M string :=
  waitForPostSuccessWith E failed_or_empty.

(** [uploadMedia], lines 461-565: asset id, media URL, websocket URL. *)
Definition uploadMedia (path : string) : M (string * string * string) :=
  let fileName := Base path in
  let ext := Ext fileName in
  match mimeTypes !! ext with
  | None => fail (ErrNew (ext +:+ " not supported"))
  | Some mimeType =>
      do ar <- request_lease E fileName mimeType;
      do uploadURL <- lift (urlParse E ("https:" +:+ Action ar));
      do content <- Open E path;
      do r <- NewRequestWithContext E "POST" (String_ uploadURL)
                (MultipartBody (form_fields (Fields ar)) fileName content);
      do resp <- doRequest (T := unit) E AtUpload r "multipart/form-data" None;
      do location <- lift (xmlLocation E resp.1);
      ret (AssedID ar, location, WebsocketURL ar)
  end.

(** [mediaPath := path; if isValidURL(path) { mediaPath, err =
    c.downloadLink(ctx, path); ...; didDownload = true }] *)
Definition stage (path : string) (blame : string) : M (string * bool) :=
  if isValidURL E path then
    do mediaPath <- wrap ("downloading " +:+ blame) (downloadLink E path);
    ret (mediaPath, true)
  else ret (path, false).

(** [if didDownload { defer os.Remove(mediaPath) }] *)
Definition defer_remove {A} (didDownload : bool) (mediaPath : string)
  (rest : M A) : M A :=
  if didDownload then defer (Remove mediaPath) rest else rest.

(** The submission of an image or a video and what follows it,
    lines 170-188 and 271-289. *)
Definition submit (ctx : context) (form : list (string * string))
    (websocketURL : string) : M string :=
  do _ <- post_submit E (FormBody form);
  do redirect <- wrap "waiting for post success"
                   (waitForPostSuccess ctx websocketURL);
  name_of_redirect "t3" redirect.

(** [PostImage], lines 128-189. *)
Definition PostImage (ctx : context) (req : PostImageRequest) : M string :=
  if decide (img_Path req = "") then
    fail (ErrNew "must proivde a local path or link to image")
  else
    do _ <- wrap "setting oauth token" setToken;
    do staged <- stage (img_Path req) (img_Path req);
    let '(mediaPath, didDownload) := staged in
    defer_remove didDownload mediaPath (
      do up <- wrap ("uploading " +:+ img_Path req) (uploadMedia mediaPath);
      let '(_, mediaURL, websocketURL) := up in
      let form :=
        [("kind", "image");
         ("nsfw", FormatBool (img_NSWF req));
         ("resubmit", FormatBool (img_Resubmit req));
         ("sendreplies", FormatBool (img_SendReplies req));
         ("spoiler", FormatBool (img_Spoiler req));
         ("sr", img_Subreddit req);
         ("title", img_Title req);
         ("url", mediaURL)] in
      submit ctx form websocketURL).

(** [PostVideo], lines 203-290. Both downloads come before the first
    [defer]; a failed download of the thumbnail is reported under
    [req.Path]. *)
Definition PostVideo (ctx : context) (req : PostVideoRequest) : M string :=
  if bool_decide (vid_Kind req ≠ "video" ∧ vid_Kind req ≠ "videogif") then
    fail (ErrNew "kind must be video or videogif")
  else if decide (vid_ThumbnailPath req = "") then
    fail (ErrNew "must provide a local path or link to thumbnail")
  else
    do _ <- wrap "setting oauth token" setToken;
    do staged <- stage (vid_Path req) (vid_Path req);
    let '(mediaPath, didDownload) := staged in
    do stagedThumb <- stage (vid_ThumbnailPath req) (vid_Path req);
    let '(thumbnailPath, didThumbnailDownload) := stagedThumb in
    defer_remove didDownload mediaPath (
    defer_remove didThumbnailDownload thumbnailPath (
      do up <- wrap ("uploading " +:+ vid_Path req) (uploadMedia mediaPath);
      let '(_, mediaURL, websocketURL) := up in
      do upThumb <- wrap ("uploading " +:+ vid_ThumbnailPath req)
                      (uploadMedia thumbnailPath);
      let '(_, thumbnailURL, _) := upThumb in
      let form :=
        [("kind", vid_Kind req);
         ("nsfw", FormatBool (vid_NSWF req));
         ("resubmit", FormatBool (vid_Resubmit req));
         ("sendreplies", FormatBool (vid_SendReplies req));
         ("spoiler", FormatBool (vid_Spoiler req));
         ("sr", vid_Subreddit req);
         ("title", vid_Title req);
         ("url", mediaURL);
         ("video_poster_url", thumbnailURL)] in
      submit ctx form websocketURL)).

(** A goroutine runs [m] and keeps how it ended in what it shares with
    the others. *)
Definition settle {A B} (m : M A) (ok : A → B) (bad : error → B) : M B :=
  λ w, match m w with
       | (Ret a, w') => (Ret (ok a), w')
       | (Fail e, w') => (Ret (bad e), w')
       | (Panic, w') => (Panic, w')
       | (Blocked, w') => (Blocked, w')
       end.

(** [return e] in a closure: the group keeps the first error. *)
Definition returns (e : error) (st : racing) : racing :=
  {| items := items st; err := err st;
     first := match first st with Some e0 => Some e0 | None => Some e end;
     mediaPath := mediaPath st |}.

(** Line 322 in goroutine [i],
    [mediaPath, err = c.downloadLink(ctx, path)]: the error goes to the
    [err] that all share, nil too; [downloadLink] returns the empty
    name with an error. *)
Definition download (path : string) (i : nat) (st : racing) : M racing :=
  settle (downloadLink E path)
    (λ file, {| items := items st; err := None; first := first st;
                mediaPath := <[i := file]> (mediaPath st) |})
    (λ e, {| items := items st; err := Some e; first := first st;
             mediaPath := <[i := ""]> (mediaPath st) |}).

(** Lines 328-343 in goroutine [i]: the deferred removal, the upload and
    the write to [items[index]]. The [err] of line 332 is the closure's
    own. *)
Definition upload (i : nat) (media : string) (didDownload : bool)
    (st : racing) : M racing :=
  settle
    (defer_remove didDownload media
       (wrap ("uploading " +:+ media) (uploadMedia media)))
    (λ up, {| items := <[i := Some (gallery_item up.1.1)]> (items st);
              err := err st; first := first st;
              mediaPath := mediaPath st |})
    (λ e, returns e st).

(** Goroutine [i] at line 322, if it has not run it yet. *)
Definition reach_download (path : string) (i : nat) (st : racing) : M racing :=
  match mediaPath st !! i with
  | None => download path i st
  | Some _ => ret st
  end.

(** One move, lines 318-343. The test of line 323 reads the shared
    [err]: what the goroutine that wrote it last left there. *)
Definition step (paths : list string) (a : move) (st : racing) : M racing :=
  match a with
  | Download i =>
      match paths !! i with
      | None => ret st
      | Some path =>
          if isValidURL E path then reach_download path i st else ret st
      end
  | Finish i =>
      match paths !! i with
      | None => ret st
      | Some path =>
          if isValidURL E path then
            do st <- reach_download path i st;
            match err st with
            | Some e => ret (returns (ErrWrap ("downloading " +:+ path) e) st)
            | None => upload i (default "" (mediaPath st !! i)) true st
            end
          else upload i path false st
      end
  end.

(** The goroutines under the schedule [sched]. *)
Fixpoint Race (paths : list string) (sched : list move) (st : racing)
  : M racing :=
  match sched with
  | [] => ret st
  | a :: rest => do st <- step paths a st; Race paths rest st
  end.

(** [items := make([]map[string]string, len(req.Paths))], and [err] is
    nil after [setToken]. *)
Definition at_start (paths : list string) : racing :=
  {| items := replicate (length paths) None; err := None; first := None;
     mediaPath := ∅ |}.

Definition gallery_payload (req : PostGalleryRequest)
    (items : list (option (gmap string string))) : json :=
  JObj [("api_type", JStr "json");
        ("items", JArr (item_json <$> items));
        ("nsfw", JStr (FormatBool (gal_NSWF req)));
        ("sendreplies", JStr (FormatBool (gal_SendReplies req)));
        ("show_error_list", JBool true);
        ("spoiler", JStr (FormatBool (gal_Spoiler req)));
        ("sr", JStr (gal_Subreddit req));
        ("title", JStr (gal_Title req));
        ("validate_on_submit", JBool true)].

(** [PostGallery], lines 301-395; [sched] is how the scheduler runs the
    goroutines. *)
Definition PostGallery (sched : list move) (req : PostGalleryRequest)
  : M string :=
  if decide (length (gal_Paths req) = 0%nat) then
    fail (ErrNew "must proivde local paths or links to images")
  else
    do _ <- wrap "setting oauth token" setToken;
    do joined <- Race (gal_Paths req) sched (at_start (gal_Paths req));
    match first joined with
    | Some e => fail e
    | None => post_gallery E (JSONBody (gallery_payload req (items joined)))
    end.
End Code.
End Monolith.

(** ** [reddit.go] *)

(** [asset]. *)
Record asset : Type := {
  ID : string;
  Location : string;
  WebSocket : string
}.

(** The older revision: [waitForPostSuccess] is a function of the
    package and dials with [websocket.DefaultDialer]. *)
Module RedditOld.
Section Code.
Context (E : Env).

(** [waitForPostSuccess], lines 350-412. *)
Definition waitForPostSuccess : context → string → M string :=
  waitForPostSuccessWith E failed_or_empty.

(** [UploadAsset], lines 82-192. *)
Definition UploadAsset (path : string) : M asset :=
  do staged <-
    (if isValidURL E path then
       do assetPath <- wrap ("downloading " +:+ path) (downloadLink E path);
       ret (assetPath, true)
     else ret (path, false));
  let '(assetPath, didDownload) := staged in
  (if didDownload then defer (Remove assetPath) else id) (
    let fileName := Base path in
    let ext := Ext fileName in
    match mimeTypes !! ext with
    | None => fail (ErrNew (ext +:+ " not supported"))
    | Some mimeType =>
        do ar <- request_lease E fileName mimeType;
        do uploadURL <- lift (urlParse E ("https:" +:+ Action ar));
        do content <- Open E assetPath;
        do r <- NewRequestWithContext E "POST" (String_ uploadURL)
                  (MultipartBody (form_fields (Fields ar)) fileName content);
        do resp <- doRequest (T := unit) E AtUpload r
                     "multipart/form-data" None;
        do location <- lift (xmlLocation E resp.1);
        ret {| ID := AssedID ar; Location := location;
               WebSocket := WebsocketURL ar |}
    end).

(** [SubmitPost], lines 194-214. *)
Definition SubmitPost (ctx : context) (websocketURL : string) (b : body)
  : M string :=
  do _ <- post_submit E b;
  do redirect <- wrap "waiting for post success"
                   (waitForPostSuccess ctx websocketURL);
  name_of_redirect "t3_" redirect.

(** [SubmitGalleryPost], lines 216-244. *)
Definition SubmitGalleryPost (b : body) : M string := post_gallery E b.
End Code.
End RedditOld.

(** The newer revision: the dialer is a field of [reddit], [doRequest]
    takes the decoder, an empty [Location] is an error, and the listener
    passes on only messages of type [success]. *)
Module Reddit.
Section Code.
Context (E : Env).

(** [waitForPostSuccess], lines 360-417. *)
Definition waitForPostSuccess : context → string → M string :=
  waitForPostSuccessWith E not_success_or_empty.

(** [UploadAsset], lines 86-195. *)
Definition UploadAsset (path : string) : M asset :=
  do staged <-
    (if isValidURL E path then
       do assetPath <- wrap ("downloading " +:+ path) (downloadLink E path);
       ret (assetPath, true)
     else ret (path, false));
  let '(assetPath, didDownload) := staged in
  (if didDownload then defer (Remove assetPath) else id) (
    let fileName := Base path in
    let ext := Ext fileName in
    match mimeTypes !! ext with
    | None => fail (ErrNew (ext +:+ " not supported"))
    | Some mimeType =>
        do ar <- request_lease E fileName mimeType;
        do uploadURL <- lift (urlParse E ("https:" +:+ Action ar));
        do content <- Open E assetPath;
        do r <- NewRequestWithContext E "POST" (String_ uploadURL)
                  (MultipartBody (form_fields (Fields ar)) fileName content);
        do resp <- doRequest E AtUpload r "multipart/form-data"
                     (Some (xmlLocation E));
        let location := default "" resp.2 in
        if decide (location = "") then
          fail (ErrWrap "uploading asset to lease" (ErrNew resp.1))
        else
          ret {| ID := AssedID ar; Location := location;
                 WebSocket := WebsocketURL ar |}
    end).

(** [SubmitPost], lines 197-217. *)
Definition SubmitPost (ctx : context) (websocketURL : string) (b : body)
  : M string :=
  do _ <- post_submit E b;
  do redirect <- wrap "waiting for post success"
                   (waitForPostSuccess ctx websocketURL);
  name_of_redirect "t3_" redirect.

(** [SubmitGalleryPost], lines 229-247. *)
Definition SubmitGalleryPost (b : body) : M string := post_gallery E b.
End Code.
End Reddit.

(** ** [redmed.go], second revision *)

(** The methods of [*reddit] that the client calls; which revision of
    [reddit.go] stands behind [c.reddit] is a matter of the build. *)
Record reddit : Type := {
  reddit_SetToken : M unit;
  reddit_UploadAsset : string → M asset;
  reddit_SubmitPost : context → string → body → M string;
  reddit_SubmitGalleryPost : body → M string
}.

Definition reddit_old (E : Env) : reddit :=
  {| reddit_SetToken := SetToken E;
     reddit_UploadAsset := RedditOld.UploadAsset E;
     reddit_SubmitPost := RedditOld.SubmitPost E;
     reddit_SubmitGalleryPost := RedditOld.SubmitGalleryPost E |}.

Definition reddit_new (E : Env) : reddit :=
  {| reddit_SetToken := SetToken E;
     reddit_UploadAsset := Reddit.UploadAsset E;
     reddit_SubmitPost := Reddit.SubmitPost E;
     reddit_SubmitGalleryPost := Reddit.SubmitGalleryPost E |}.

Module Client.

Record PostImageRequest : Type := {
  img_FlairID : string;
  img_FlairText : string;
  img_NSWF : bool;
  img_Path : string;
  img_Resubmit : bool;
  img_SendReplies : bool;
  img_Spoiler : bool;
  img_Subreddit : string;
  img_Title : string
}.

Record PostVideoRequest : Type := {
  vid_FlairID : string;
  vid_FlairText : string;
  vid_Kind : string;
  vid_NSWF : bool;
  vid_VideoPath : string;
  vid_Resubmit : bool;
  vid_SendReplies : bool;
  vid_Spoiler : bool;
  vid_Subreddit : string;
  vid_ThumbnailPath : string;
  vid_Title : string
}.

Record PostGalleryRequest : Type := {
  gal_FlairID : string;
  gal_FlairText : string;
  gal_NSWF : bool;
  gal_Paths : list string;
  gal_SendReplies : bool;
  gal_Spoiler : bool;
  gal_Subreddit : string;
  gal_Title : string
}.

(** [if value != "" { form.Add(key, value) }] *)
Definition optional {A} (key value : string) (f : string → A)
  : list (string * A) :=
  if decide (value = "") then [] else [(key, f value)].

Section Code.
Context (c : reddit).

(** [PostImage], lines 701-740. *)
Definition PostImage (ctx : context) (req : PostImageRequest) : M string :=
  if decide (img_Path req = "") then
    fail (ErrNew "must proivde a local path or link to image")
  else
    do _ <- wrap "setting oauth token" (reddit_SetToken c);
    do a <- wrap "uploading asset" (reddit_UploadAsset c (img_Path req));
    let form :=
      (optional "flair_id" (img_FlairID req) id
      ++ optional "flair_text" (img_FlairText req) id
      ++ [("kind", "image");
          ("nsfw", FormatBool (img_NSWF req));
          ("resubmit", FormatBool (img_Resubmit req));
          ("sendreplies", FormatBool (img_SendReplies req));
          ("spoiler", FormatBool (img_Spoiler req));
          ("sr", img_Subreddit req);
          ("title", img_Title req);
          ("url", Location a)])%list in
    wrap "submitting post"
      (reddit_SubmitPost c ctx (WebSocket a) (FormBody form)).

(** [PostVideo], lines 756-809. *)
Definition PostVideo (ctx : context) (req : PostVideoRequest) : M string :=
  if decide (vid_VideoPath req = "") then
    fail (ErrNew "must proivde a local path or link to a video")
  else if decide (vid_ThumbnailPath req = "") then
    fail (ErrNew "must provide a local path or link to thumbnail")
  else if bool_decide (vid_Kind req ≠ "video" ∧ vid_Kind req ≠ "videogif")
  then fail (ErrNew "kind must be video or videogif")
  else
    do _ <- wrap "setting oauth token" (reddit_SetToken c);
    do videoAsset <- wrap "uploading video asset"
                       (reddit_UploadAsset c (vid_VideoPath req));
    do thumbnailAsset <- wrap "uploading thumbnail asset"
                           (reddit_UploadAsset c (vid_ThumbnailPath req));
    let form :=
      (optional "flair_id" (vid_FlairID req) id
      ++ optional "flair_text" (vid_FlairText req) id
      ++ [("kind", vid_Kind req);
          ("nsfw", FormatBool (vid_NSWF req));
          ("resubmit", FormatBool (vid_Resubmit req));
          ("sendreplies", FormatBool (vid_SendReplies req));
          ("spoiler", FormatBool (vid_Spoiler req));
          ("sr", vid_Subreddit req);
          ("title", vid_Title req);
          ("url", Location videoAsset);
          ("video_poster_url", Location thumbnailAsset)])%list in
    wrap "submitting post"
      (reddit_SubmitPost c ctx (WebSocket videoAsset) (FormBody form)).

(** The closure handed to [eg.Go] for the path at [index],
    lines 838-850. *)
Definition gallery_upload (paths : list string) (index : nat)
    (items : list (option (gmap string string)))
  : M (list (option (gmap string string))) :=
  match paths !! index with
  | None => ret items
  | Some path =>
      do a <- reddit_UploadAsset c path;
      ret (<[index := Some (gallery_item (ID a))]> items)
  end.

Definition gallery_payload (req : PostGalleryRequest)
    (items : list (option (gmap string string))) : json :=
  JObj ([("api_type", JStr "json")]
        ++ optional "flair_id" (gal_FlairID req) JStr
        ++ optional "flair_text" (gal_FlairText req) JStr
        ++ [("items", JArr (item_json <$> items));
            ("nsfw", JStr (FormatBool (gal_NSWF req)));
            ("sendreplies", JStr (FormatBool (gal_SendReplies req)));
            ("show_error_list", JBool true);
            ("spoiler", JStr (FormatBool (gal_Spoiler req)));
            ("sr", JStr (gal_Subreddit req));
            ("title", JStr (gal_Title req));
            ("validate_on_submit", JBool true)])%list.

(** [PostGallery], lines 822-889; [order] is the order in which the
    uploads complete. *)
Definition PostGallery (order : list nat) (req : PostGalleryRequest)
  : M string :=
  if decide (length (gal_Paths req) = 0%nat) then
    fail (ErrNew "must proivde local paths or links to images")
  else
    do _ <- wrap "setting oauth token" (reddit_SetToken c);
    let items := replicate (length (gal_Paths req)) None in
    do joined <- Wait (gallery_upload (gal_Paths req)) order items None;
    match joined.2 with
    | Some e => fail (ErrWrap "uploading asset" e)
    | None =>
        wrap "submitting post"
          (reddit_SubmitGalleryPost c
             (JSONBody (gallery_payload req joined.1)))
    end.
End Code.
End Client.

(** ** A concrete world

    The servers of [redmed_test.go], as one environment: a token
    endpoint, the lease endpoint, the storage endpoint behind the lease's
    [action], the submission endpoints, a link server and a websocket
    server. Bodies are named rather than spelled out, and the decoders
    know the names. *)

Module Scenario.

Definition has_prefix (p s : string) : bool := String.prefix p s.

Definition parse (s : string) : result url :=
  if has_prefix "https://" s then
    Ok {| Scheme := "https"; Host := "host"; String_ := s |}
  else if has_prefix "wss://" s then
    Ok {| Scheme := "wss"; Host := "host"; String_ := s |}
  else Ok {| Scheme := ""; Host := ""; String_ := s |}.

Definition parse_request_uri (s : string) : result url :=
  if has_prefix "https://" s || has_prefix "/" s then parse s
  else Err (ErrNew "invalid URI for request").

(** The value of [key] in a form body. *)
Definition form_value (key : string) (b : body) : string :=
  match b with
  | FormBody form =>
      match list_find (λ kv, kv.1 = key) form with
      | Some (_, (_, v)) => v
      | None => ""
      end
  | _ => ""
  end.

Definition respond (code : Z) (content : string) : result response :=
  Ok {| StatusCode := code; RespBody := Ok content |}.

Definition serve (r : request) : result response :=
  if String.eqb (URL r) tokenURL then
    if String.eqb (form_value "username" (Body r)) "revoked"
    then respond 401 "token.json"
    else if String.eqb (form_value "username" (Body r)) "unknown"
    then respond 401 "unauthorized.json"
    else respond 200 "token.json"
  else if String.eqb (URL r) (baseURL +:+ "/api/media/asset.json") then
    if String.eqb (form_value "filepath" (Body r)) "blank.png"
    then respond 200 "lease-blank.json"
    else if String.eqb (form_value "filepath" (Body r)) "sync.jpeg"
    then respond 200 "lease-sync.json"
    else respond 200 "lease.json"
  else if String.eqb (URL r) "https://127.0.0.1:4443" then
    respond 201 "location.xml"
  else if String.eqb (URL r) "https://127.0.0.1:4444" then
    respond 201 "no-location.xml"
  else if String.eqb (URL r) (baseURL +:+ "/api/submit") then
    respond 200 ""
  else if String.eqb (URL r) (baseURL +:+ "/api/submit_gallery_post.json")
  then respond 200 "gallery.json"
  else if String.eqb (URL r) "https://link/image.jpeg" then
    respond 200 "jpeg bytes"
  else if String.eqb (URL r) "https://link/video.mp4" then
    respond 200 "mp4 bytes"
  else if String.eqb (URL r) "https://link/notes.txt" then
    respond 200 "text"
  else if String.eqb (URL r) "https://link/slow.mp4" then
    (* the context is cancelled while the body is read *)
    Ok {| StatusCode := 200; RespBody := Err Canceled |}
  else respond 404 "not found".

Definition the_redirect : string := "https://x/r/s/comments/x1qxro/title/".

Definition env : Env :=
  {| httpDo := serve;
     urlParse := parse;
     urlParseRequestURI := parse_request_uri;
     jsonToken := λ raw,
       if String.eqb raw "token.json" then Ok "token" else Ok "";
     jsonLease := λ raw,
       if String.eqb raw "lease.json" then
         Ok {| Action := "//127.0.0.1:4443";
               Fields := [{| Name := "name"; Value := "value" |}];
               AssedID := "123"; WebsocketURL := "wss://ws" |}
       else if String.eqb raw "lease-blank.json" then
         Ok {| Action := "//127.0.0.1:4444";
               Fields := [{| Name := "name"; Value := "value" |}];
               AssedID := "124"; WebsocketURL := "wss://ws" |}
       else if String.eqb raw "lease-sync.json" then
         Ok {| Action := "//127.0.0.1:4443";
               Fields := [{| Name := "name"; Value := "value" |}];
               AssedID := "125"; WebsocketURL := "" |}
       else Err (ErrNew "unexpected end of JSON input");
     jsonGallery := λ raw,
       if String.eqb raw "gallery.json" then Ok "t3_x1qxro" else Ok "";
     jsonWs := λ raw,
       if String.eqb raw "success.json" then
         Ok {| Type_ := "success"; Redirect := the_redirect |}
       else if String.eqb raw "pending.json" then
         Ok {| Type_ := "pending"; Redirect := the_redirect |}
       else if String.eqb raw "failed.json" then
         Ok {| Type_ := "failed"; Redirect := the_redirect |}
       else Err (ErrNew "unexpected end of JSON input");
     xmlLocation := λ raw,
       if String.eqb raw "location.xml" then Ok "https://store/obj"
       else if String.eqb raw "no-location.xml" then Ok ""
       else Err (ErrNew "EOF");
     osOpen := λ path,
       if String.eqb path "testdata/testimg.jpeg" then Ok "jpeg bytes"
       else if String.eqb path "testdata/video.mp4" then Ok "mp4 bytes"
       else if String.eqb path "testdata/blank.png" then Ok "png bytes"
       else if String.eqb path "testdata/sync.jpeg" then Ok "jpeg bytes"
       else Err (ErrNew "no such file or directory");
     osTempDir := "/tmp";
     osCreateTemp := λ _, None;
     wsDial := λ addr,
       if String.eqb addr "wss://ws" then Ok [Message "success.json"]
       else if String.eqb addr "wss://pending" then Ok [Message "pending.json"]
       else if String.eqb addr "wss://silent" then Ok []
       else Err (ErrNew "bad handshake") |}.

Definition me (user : string) : client :=
  {| clientID := "clientID"; secret := "secret"; username := user;
     password := "password"; userAgent := "userAgent"; accessToken := "" |}.

(** The world before a call: nothing staged, nothing done. *)
Definition w0 (user : string) : world :=
  {| self := me user; staged := ∅; created := 0; log := [] |}.

(** The context is live; the listener checks it, reads a message and
    hands it over. *)
Definition delivered : context :=
  {| done0 := None; schedule := [Listen; Listen; SelectMsg] |}.

(** The deadline has expired when the listener starts; the listener
    runs first and the select takes the receive. *)
Definition expired_listener_first : context :=
  {| done0 := Some ByDeadline; schedule := [Listen; SelectMsg] |}.

(** The deadline expires while the listener reads and the waiter
    selects. *)
Definition expires_while_waiting : context :=
  {| done0 := None; schedule := [Listen; Cancel ByDeadline; SelectDone] |}.

Definition image (path : string) : Monolith.PostImageRequest :=
  {| Monolith.img_NSWF := false; Monolith.img_Path := path;
     Monolith.img_Resubmit := true; Monolith.img_SendReplies := true;
     Monolith.img_Spoiler := false; Monolith.img_Subreddit := "subreddit";
     Monolith.img_Title := "image test" |}.

Definition image' (path : string) : Client.PostImageRequest :=
  {| Client.img_FlairID := ""; Client.img_FlairText := "";
     Client.img_NSWF := false; Client.img_Path := path;
     Client.img_Resubmit := true; Client.img_SendReplies := true;
     Client.img_Spoiler := false; Client.img_Subreddit := "subreddit";
     Client.img_Title := "image test" |}.

Definition video (path thumbnail : string) : Monolith.PostVideoRequest :=
  {| Monolith.vid_Kind := "video"; Monolith.vid_NSWF := false;
     Monolith.vid_Path := path; Monolith.vid_Resubmit := true;
     Monolith.vid_SendReplies := true; Monolith.vid_Spoiler := false;
     Monolith.vid_Subreddit := "subreddit";
     Monolith.vid_ThumbnailPath := thumbnail;
     Monolith.vid_Title := "video test" |}.

Definition gallery (paths : list string) : Monolith.PostGalleryRequest :=
  {| Monolith.gal_NSWF := false; Monolith.gal_Paths := paths;
     Monolith.gal_SendReplies := true; Monolith.gal_Spoiler := false;
     Monolith.gal_Subreddit := "subreddit";
     Monolith.gal_Title := "image test" |}.

Definition gallery' (paths : list string) : Client.PostGalleryRequest :=
  {| Client.gal_FlairID := ""; Client.gal_FlairText := "";
     Client.gal_NSWF := false; Client.gal_Paths := paths;
     Client.gal_SendReplies := true; Client.gal_Spoiler := false;
     Client.gal_Subreddit := "subreddit";
     Client.gal_Title := "image test" |}.
End Scenario.

(** ** Notions for the properties *)

(** The call sites of the requests among the events. *)
Definition http_sites (l : list event) : list call_site :=
  omap (λ ev, match ev with EvHTTP site _ => Some site | _ => None end) l.

Definition is_network (ev : event) : bool :=
  match ev with EvHTTP _ _ | EvDial _ => true | _ => false end.

(** The requests and dials among the events. *)
Definition network_calls (l : list event) : list event :=
  filter (λ ev, is_network ev) l.

(** [m] returns or fails (it neither panics nor blocks), leaves the
    struct behind the receiver alone, and adds only events in [P]. *)
Definition tame (P : event → Prop) {A} (m : M A) : Prop :=
  ∀ w r w', m w = (r, w') →
    match r with Ret _ | Fail _ => True | _ => False end
    ∧ self w' = self w
    ∧ ∃ l, log w' = l ++ log w ∧ Forall P l.

(** No byte of [s] is a slash. *)
Definition slashless (s : string) : Prop := Forall (λ c, c ≠ slash) (bytes s).

(** The shape that [submit] of the first revision and [SubmitPost] of
    both revisions of [reddit.go] share. *)
Definition submission (E : Env) (failure : wsResponse → bool)
    (prefix : string) (ctx : context) (addr : string) (b : body) : M string :=
  do _ <- post_submit E b;
  do redirect <- wrap "waiting for post success"
                   (waitForPostSuccessWith E failure ctx addr);
  name_of_redirect prefix redirect.

(** What the waiter returns when it receives what the listener sends
    after [f]. *)
Definition verdict (E : Env) (failure : wsResponse → bool) (f : frame)
  : outcome string :=
  match on_frame E failure f with
  | AtSend m _ => of_msg m
  | _ => Blocked
  end.

(** No action of the schedule cancels the context. *)
Definition cancel_free (sched : list action) : Prop :=
  Forall (λ a, match a with Cancel _ => False | _ => True end) sched.

(** The classification of a decoded message as the specification words
    it: type [failed] or an empty redirect is a terminal failure, another
    type with a redirect is a terminal success (which leaves no message
    to continue on). [wait] is the waiter, run on a live context in which
    the listener reads the first message and hands it over. *)
Definition classifies_as_specified
    (wait : Env → context → string → M string) : Prop :=
  ∀ E addr message rest wr w,
    addr ≠ "" →
    wsDial E addr = Ok (Message message :: rest) →
    jsonWs E message = Ok wr →
    let r := (wait E {| done0 := None;
                        schedule := [Listen; Listen; SelectMsg] |} addr w).1 in
    (Type_ wr = "failed" ∨ Redirect wr = "" → ∃ e, r = Fail e)
    ∧ (Type_ wr ≠ "failed" ∧ Redirect wr ≠ "" → r = Ret (Redirect wr)).

(** While the context is live and the first frame [f] has not been
    handed over, the listener is before it or offering it; once the
    waiter has returned, it has returned the verdict on [f]. *)
Definition first_frame_inv (E : Env) (failure : wsResponse → bool)
    (f : frame) (rest : list frame) (s : waiting) : Prop :=
  ctxErr s = None ∧
  match returned s with
  | Some r => r = verdict E failure f
  | None =>
      conn_open s = true
      ∧ ((goroutine s = AtLoopHead ∨ goroutine s = AtRead)
         ∧ incoming s = f :: rest
         ∨ goroutine s = on_frame E failure f)
  end.

(** What the events of an upload may be: downloads, temporary files
    and their removal, lease requests that declare [mimeType] for
    [fileName], and the transfer. *)
Definition upload_event (fileName mimeType : string) (ev : event) : Prop :=
  match ev with
  | EvHTTP AtDownload _ | EvHTTP AtUpload _ => True
  | EvHTTP AtLease r =>
      Body r = FormBody [("filepath", fileName); ("mimetype", mimeType)]
  | EvCreateTemp _ | EvRemove _ => True
  | _ => False
  end.

(** The listener is in [ReadMessage], no message is to come, and the
    waiter is in its select or has returned the error of the context. *)
Definition reading_inv (s : waiting) : Prop :=
  incoming s = [] ∧
  match returned s with
  | None => goroutine s = AtRead ∧ conn_open s = true
  | Some r => ∃ d, ctxErr s = Some d ∧ r = Fail (ctx_error d)
  end.


(** The temporary files created and removed, by the events. *)
Definition temps_created (l : list event) : list string :=
  omap (λ ev, match ev with EvCreateTemp name => Some name | _ => None end) l.

Definition temps_removed (l : list event) : list string :=
  omap (λ ev, match ev with EvRemove name => Some name | _ => None end) l.

(** Token acquisition as the specification words it: a response outside
    the 2xx statuses makes it fail and leaves the stored token alone. *)
Definition rejects_error_statuses (acquire : Env → M unit) : Prop :=
  ∀ E w r resp,
    log (acquire E w).2 = EvHTTP AtToken r :: log w →
    httpDo E r = Ok resp →
    ¬ (200 ≤ StatusCode resp < 300) →
    (∃ e, (acquire E w).1 = Fail e)
    ∧ accessToken (self (acquire E w).2) = accessToken (self w).

(** The selection of the media type as the specification words it: a
    path with an extension outside the table makes the upload fail with
    the unsupported-type error before any network call. *)
Definition unsupported_is_immediate {A} (upload : Env → string → M A)
  : Prop :=
  ∀ E path w,
    mimeTypes !! Ext (Base path) = None →
    (upload E path w).1 = Fail (ErrNew (Ext (Base path) +:+ " not supported"))
    ∧ network_calls (log (upload E path w).2) = network_calls (log w).

(** The table of [mimeTypes], as a list. *)
Definition media_types : list (string * string) :=
  [(".png", "image/png"); (".jpg", "image/jpeg"); (".jpeg", "image/jpeg");
   (".gif", "image/gif"); (".mp4", "video/mp4"); (".mov", "video/quicktime")].

(** The closure that [PostGallery] of the second revision hands to
    [eg.Go], over the upload it calls and the asset id in what the upload
    returns. *)
Definition closure {A} (upload : string → M A) (id_of : A → string)
    (paths : list string) (index : nat)
    (items : list (option (gmap string string)))
  : M (list (option (gmap string string))) :=
  match paths !! index with
  | None => ret items
  | Some path =>
      do a <- upload path;
      ret (<[index := Some (gallery_item (id_of a))]> items)
  end.

(** Not a request to one of the submission endpoints. *)
Definition not_submission (ev : event) : Prop :=
  match ev with
  | EvHTTP AtSubmit _ | EvHTTP AtSubmitGallery _ => False
  | _ => True
  end.

(** What [PostGallery] makes of the uploads. [w] is the world at the
    call, [w1] the world once the token is set, [post] the call itself,
    [report] what it does to the error it returns and [submit] the
    submission of the items; [order] is the order in which the uploads
    complete.
    - The join completes: no upload panics or blocks.
    - When the upload of the path at [i] fails and every upload that
      completed before it succeeded, the call fails with the error of
      that upload, and none of the events it added is a submission.
    - When no upload fails, the call is the submission of the items, and
      the item at [i] carries the asset id that the upload of the path
      at [i] returned, wherever [i] stands in [order]. *)
Definition all_or_nothing {A} (upload : string → M A) (id_of : A → string)
    (paths : list string) (order : list nat) (w w1 : world)
    (post : M string) (report : error → error)
    (submit : list (option (gmap string string)) → M string) : Prop :=
  let go := closure upload id_of paths in
  let items0 := replicate (length paths) None in
  (∃ itemsF first wF,
     Wait go order items0 None w1 = (Ret (itemsF, first), wF))
  ∧ (∀ pre i rest path items1 w2 e w3,
       order = pre ++ i :: rest →
       paths !! i = Some path →
       Wait go pre items0 None w1 = (Ret (items1, None), w2) →
       upload path w2 = (Fail e, w3) →
       ∃ wF l, post w = (Fail (report e), wF)
               ∧ log wF = l ++ log w ∧ Forall not_submission l)
  ∧ (∀ itemsF wF,
       Wait go order items0 None w1 = (Ret (itemsF, None), wF) →
       post w = submit itemsF wF
       ∧ length itemsF = length paths
       ∧ ∀ pre i rest path,
           order = pre ++ i :: rest →
           paths !! i = Some path →
           ∃ items1 w2 a w3,
             Wait go pre items0 None w1 = (Ret (items1, None), w2)
             ∧ upload path w2 = (Ret a, w3)
             ∧ itemsF !! i = Some (Some (gallery_item (id_of a)))).

(** The report of failed uploads as the specification words it: once
    the token is set, when the upload of any one path fails,
    [PostGallery] returns the error of that upload. *)
Definition reports_every_failure : Prop :=
  ∀ E order (req : Client.PostGalleryRequest) w i path e,
    order ≡ₚ seq 0 (length (Client.gal_Paths req)) →
    Client.gal_Paths req !! i = Some path →
    (SetToken E w).1 = Ret () →
    (∀ w', (Reddit.UploadAsset E path w').1 = Fail e) →
    ∃ e', (Client.PostGallery (reddit_new E) order req w).1 = Fail e'
          ∧ root_cause e' = root_cause e.

(** ** The goroutines of the first revision *)

(** Under [sched] every goroutine runs to its end, once. *)
Definition completes (n : nat) (sched : list Monolith.move) : Prop :=
  omap (λ a, match a with Monolith.Finish i => Some i | _ => None end) sched
  ≡ₚ seq 0 n.

(** Goroutine [i], run to its end from the state [st1] and the world
    [w2], has written [it]: it found or made its download without an
    error in the shared [err], the file it holds is one that
    [downloadLink] returned for [path] (for a path that is no link there
    is no download, and the source is [path] itself), [uploadMedia]
    returned for this source in the world that the goroutine had
    reached, and [it] is the item for the asset id it returned. *)
Definition closure_uploaded (E : Env) (path : string) (i : nat)
    (st1 : Monolith.racing) (w2 : world) (it : gmap string string) : Prop :=
  ∃ stD wD media up wU,
    (if isValidURL E path
     then Monolith.reach_download E path i st1 w2 = (Ret stD, wD)
          ∧ Monolith.err stD = None
          ∧ Monolith.mediaPath stD !! i = Some media
          ∧ ∃ wd wd', downloadLink E path wd = (Ret media, wd')
     else stD = st1 ∧ wD = w2 ∧ media = path)
    ∧ Monolith.uploadMedia E media wD = (Ret up, wU)
    ∧ it = gallery_item up.1.1.

(** [m] returns, leaves the struct behind the receiver alone, and adds
    only events in [P]. *)
Definition joins (P : event → Prop) {A} (m : M A) : Prop :=
  ∀ w r w', m w = (r, w') →
    (∃ a, r = Ret a) ∧ self w' = self w
    ∧ ∃ l, log w' = l ++ log w ∧ Forall P l.

(** What an upload does: downloads, leases, transfers, and the creation
    and removal of temporary files. *)
Definition staging_or_transfer (ev : event) : Prop :=
  match ev with
  | EvHTTP AtDownload _ | EvHTTP AtLease _ | EvHTTP AtUpload _ => True
  | EvCreateTemp _ | EvRemove _ => True
  | _ => False
  end.

(** What line 322 in goroutine [i] makes of [st]: nothing when the
    goroutine is past it; otherwise a value for the shared [err] and a
    [mediaPath], empty or a name that [downloadLink] returned for the
    path at [i]. *)
Definition ran_download (E : Env) (paths : list string) (i : nat)
    (st st1 : Monolith.racing) : Prop :=
  st1 = st
  ∨ Monolith.mediaPath st !! i = None
    ∧ ∃ m shared,
        st1 = {| Monolith.items := Monolith.items st;
                 Monolith.err := shared;
                 Monolith.first := Monolith.first st;
                 Monolith.mediaPath := <[i := m]> (Monolith.mediaPath st) |}
        ∧ (m = ""
           ∨ ∃ path wd wd',
               paths !! i = Some path
               ∧ downloadLink E path wd = (Ret m, wd')).

(** What the rest of goroutine [i] makes of [st1]: the closure returns
    an error, or it writes an item at [i]. *)
Definition ran_rest (i : nat) (st1 st' : Monolith.racing) : Prop :=
  (∃ e, st' = Monolith.returns e st1)
  ∨ ∃ it,
      st' = {| Monolith.items := <[i := Some it]> (Monolith.items st1);
               Monolith.err := Monolith.err st1;
               Monolith.first := Monolith.first st1;
               Monolith.mediaPath := Monolith.mediaPath st1 |}.

(** [items] has its length, and a [mediaPath] is empty or comes from a
    download of its path. *)
Definition race_inv (E : Env) (paths : list string) (st : Monolith.racing)
  : Prop :=
  length (Monolith.items st) = length paths
  ∧ (∀ i m, Monolith.mediaPath st !! i = Some m →
       m = "" ∨ ∃ path wd wd',
                  paths !! i = Some path
                  ∧ downloadLink E path wd = (Ret m, wd')).

(** What [PostGallery] of the first revision makes of the uploads,
    whatever the schedule of its goroutines. [w] is the world at the
    call, [w1] the world once the token is set, [post] the call itself
    and [submit] the submission of the items.
    - The join completes: no goroutine panics or blocks.
    - When a move makes a closure return the first error, the call fails
      with that error, and none of the events it added is a submission.
    - When no closure returns an error, the call is the submission of
      the items, and the item at [i] is the one that goroutine [i] wrote
      when it ran to its end: the item for the asset id that its upload
      of the source at [i] returned. *)
Definition race_all_or_nothing (E : Env) (paths : list string)
    (sched : list Monolith.move) (w w1 : world) (post : M string)
    (submit : list (option (gmap string string)) → M string) : Prop :=
  let run := Monolith.Race E paths in
  let st0 := Monolith.at_start paths in
  (∃ stF wF, run sched st0 w1 = (Ret stF, wF))
  ∧ (∀ pre a rest st1 w2 st2 w3 e,
       sched = pre ++ a :: rest →
       run pre st0 w1 = (Ret st1, w2) →
       Monolith.first st1 = None →
       Monolith.step E paths a st1 w2 = (Ret st2, w3) →
       Monolith.first st2 = Some e →
       ∃ wF l, post w = (Fail e, wF)
               ∧ log wF = l ++ log w ∧ Forall not_submission l)
  ∧ (∀ stF wF,
       run sched st0 w1 = (Ret stF, wF) →
       Monolith.first stF = None →
       post w = submit (Monolith.items stF) wF
       ∧ length (Monolith.items stF) = length paths
       ∧ ∀ i path,
           paths !! i = Some path →
           ∃ pre rest st1 w2 it,
             sched = pre ++ Monolith.Finish i :: rest
             ∧ run pre st0 w1 = (Ret st1, w2)
             ∧ closure_uploaded E path i st1 w2 it
             ∧ Monolith.items stF !! i = Some (Some it)).

(** ** More of the outside world

    The environment of [Scenario] with a websocket peer that drops the
    connection, and one that sends something that is not JSON. *)
Definition faulty_env : Env :=
  {| httpDo := httpDo Scenario.env;
     urlParse := urlParse Scenario.env;
     urlParseRequestURI := urlParseRequestURI Scenario.env;
     jsonToken := jsonToken Scenario.env;
     jsonLease := jsonLease Scenario.env;
     jsonGallery := jsonGallery Scenario.env;
     jsonWs := jsonWs Scenario.env;
     xmlLocation := xmlLocation Scenario.env;
     osOpen := osOpen Scenario.env;
     osTempDir := osTempDir Scenario.env;
     osCreateTemp := osCreateTemp Scenario.env;
     wsDial := λ addr,
       if String.eqb addr "wss://drop" then
         Ok [ReadError (ErrNew "unexpected EOF")]
       else if String.eqb addr "wss://garbage" then Ok [Message "garbage"]
       else wsDial Scenario.env addr |}.

(** The waiter is in its select with the connection open, or it has
    returned and the connection is closed. *)
Definition closed_on_return (s : waiting) : Prop :=
  match returned s with
  | None => conn_open s = true
  | Some _ => conn_open s = false
  end.

(** The waiter has returned, and the listener is in [ReadMessage] on the
    closed connection or in a send that nobody receives. *)
Definition abandoned (s : waiting) : Prop :=
  is_Some (returned s) ∧ conn_open s = false
  ∧ (goroutine s = AtRead ∨ ∃ m last, goroutine s = AtSend m last).

(** [m], run on a struct [c], returns or fails, leaves the struct as it
    is, and adds only events in [P]. *)
Definition tame_at (c : client) (P : event → Prop) {A} (m : M A) : Prop :=
  ∀ w r w', self w = c → m w = (r, w') →
    match r with Ret _ | Fail _ => True | _ => False end
    ∧ self w' = c
    ∧ ∃ l, log w' = l ++ log w ∧ Forall P l.

(** What goes over the wire for a client [c] once its token is set: the
    requests to the API are POSTs to their endpoints with the bearer
    token, the user agent and their content type; the transfer to the
    storage endpoint is a POST with the user agent and the multipart
    content type, and without the token; a download is a GET without any
    header. No token is requested, nothing is dialled. *)
Definition wire_policy (c : client) (ev : event) : Prop :=
  match ev with
  | EvHTTP AtLease r =>
      Method r = "POST" ∧ URL r = baseURL +:+ "/api/media/asset.json"
      ∧ Header r !! "Authorization" = Some ("bearer " +:+ accessToken c)
      ∧ Header r !! "User-Agent" = Some (userAgent c)
      ∧ Header r !! "Content-Type" = Some "application/x-www-form-urlencoded"
  | EvHTTP AtSubmit r =>
      Method r = "POST" ∧ URL r = baseURL +:+ "/api/submit"
      ∧ Header r !! "Authorization" = Some ("bearer " +:+ accessToken c)
      ∧ Header r !! "User-Agent" = Some (userAgent c)
      ∧ Header r !! "Content-Type" = Some "application/x-www-form-urlencoded"
  | EvHTTP AtSubmitGallery r =>
      Method r = "POST" ∧ URL r = baseURL +:+ "/api/submit_gallery_post.json"
      ∧ Header r !! "Authorization" = Some ("bearer " +:+ accessToken c)
      ∧ Header r !! "User-Agent" = Some (userAgent c)
      ∧ Header r !! "Content-Type" = Some "application/json"
  | EvHTTP AtUpload r =>
      Method r = "POST"
      ∧ Header r !! "Authorization" = None
      ∧ Header r !! "User-Agent" = Some (userAgent c)
      ∧ Header r !! "Content-Type" = Some "multipart/form-data"
  | EvHTTP AtDownload r => Method r = "GET" ∧ Header r = ∅
  | EvHTTP AtToken _ => False
  | EvCreateTemp _ | EvRemove _ => True
  | EvDial _ | EvClose _ => False
  end.

(** The request for a token: a POST to the token endpoint with basic
    authentication and the user agent, and no content type. *)
Definition token_policy (c : client) (ev : event) : Prop :=
  match ev with
  | EvHTTP AtToken r =>
      Method r = "POST" ∧ URL r = tokenURL
      ∧ Header r !! "Authorization"
        = Some ("Basic " +:+ clientID c +:+ ":" +:+ secret c)
      ∧ Header r !! "User-Agent" = Some (userAgent c)
      ∧ Header r !! "Content-Type" = None
      ∧ Body r = FormBody [("grant_type", "password");
                           ("password", password c);
                           ("username", username c)]
  | _ => False
  end.

(** What [UploadAsset] of the newer [reddit.go] does once the source is
    at [assetPath], lines 103-194. *)
Definition Reddit_transfer (E : Env) (path assetPath : string) : M asset :=
  let fileName := Base path in
  let ext := Ext fileName in
  match mimeTypes !! ext with
  | None => fail (ErrNew (ext +:+ " not supported"))
  | Some mimeType =>
      do ar <- request_lease E fileName mimeType;
      do uploadURL <- lift (urlParse E ("https:" +:+ Action ar));
      do content <- Open E assetPath;
      do r <- NewRequestWithContext E "POST" (String_ uploadURL)
                (MultipartBody (form_fields (Fields ar)) fileName content);
      do resp <- doRequest E AtUpload r "multipart/form-data"
                   (Some (xmlLocation E));
      let location := default "" resp.2 in
      if decide (location = "") then
        fail (ErrWrap "uploading asset to lease" (ErrNew resp.1))
      else
        ret {| ID := AssedID ar; Location := location;
               WebSocket := WebsocketURL ar |}
  end.

(** What a successful [doRequest] answered: a 200 or a 201 whose body
    was read. *)
Definition answered (E : Env) (r : request) (raw : string) : Prop :=
  ∃ resp, httpDo E r = Ok resp ∧ RespBody resp = Ok raw
          ∧ (StatusCode resp = 200 ∨ StatusCode resp = 201).

(** [m] leaves the staged files, and the count of the temporary files,
    as they are. *)
Definition keeps_files {A} (m : M A) : Prop :=
  ∀ w r w', m w = (r, w') → staged w' = staged w ∧ created w' = created w.

(** A request over HTTP. *)
Definition is_request (ev : event) : Prop :=
  match ev with EvHTTP _ _ => True | _ => False end.

(** What [UploadAsset] did with temporary files when it ran on [w] and
    ended in [res]: it created none and the staged files are what they
    were; or it created one, named after the extension of [path], and
    removed it; or it created one and left it empty behind, and then the
    body of the download could not be read and the call failed with that
    error. *)
Definition temp_file_fate (E : Env) (path : string) (w : world)
    {A} (res : outcome A * world) : Prop :=
  let name := temp_name E (created w) (Ext path) in
  let rd := {| Method := "GET"; URL := path; Header := ∅; Body := NoBody |} in
  ∃ l, log res.2 = l ++ log w
    ∧ (temps_created l = [] ∧ temps_removed l = []
       ∧ staged res.2 = staged w ∧ created res.2 = created w
       ∨ temps_created l = [name] ∧ temps_removed l = [name]
         ∧ staged res.2 = delete name (staged w)
         ∧ created res.2 = S (created w)
       ∨ temps_created l = [name] ∧ temps_removed l = []
         ∧ staged res.2 = <[name := ""]> (staged w)
         ∧ created res.2 = S (created w)
         ∧ ∃ resp e, httpDo E rd = Ok resp ∧ StatusCode resp = 200
                     ∧ RespBody resp = Err e
                     ∧ res.1 = Fail (ErrWrap ("downloading " +:+ path) e)).

(** What [UploadAsset] of the older [reddit.go] does once the source is
    at [assetPath], lines 99-191. *)
Definition RedditOld_transfer (E : Env) (path assetPath : string) : M asset :=
  let fileName := Base path in
  let ext := Ext fileName in
  match mimeTypes !! ext with
  | None => fail (ErrNew (ext +:+ " not supported"))
  | Some mimeType =>
      do ar <- request_lease E fileName mimeType;
      do uploadURL <- lift (urlParse E ("https:" +:+ Action ar));
      do content <- Open E assetPath;
      do r <- NewRequestWithContext E "POST" (String_ uploadURL)
                (MultipartBody (form_fields (Fields ar)) fileName content);
      do resp <- doRequest (T := unit) E AtUpload r
                   "multipart/form-data" None;
      do location <- lift (xmlLocation E resp.1);
      ret {| ID := AssedID ar; Location := location;
             WebSocket := WebsocketURL ar |}
  end.

(** [v] is the redirect of a message among [frames] that decodes and
    passes the listener's test. *)
Definition passed (E : Env) (failure : wsResponse → bool)
    (frames : list frame) (v : string) : Prop :=
  ∃ message wr,
    Message message ∈ frames ∧ jsonWs E message = Ok wr
    ∧ failure wr = false ∧ Redirect wr = v.

(** What is still to come is among [frames], a value that the listener
    offers has passed, and so has a value that the waiter returned,
    unless it is the empty one of the closed channel. *)
Definition provenance (E : Env) (failure : wsResponse → bool)
    (frames : list frame) (s : waiting) : Prop :=
  (∀ f, f ∈ incoming s → f ∈ frames)
  ∧ (∀ m last, goroutine s = AtSend m last → err m = None →
       passed E failure frames (value m))
  ∧ (∀ v, returned s = Some (Ret v) → v = "" ∨ passed E failure frames v).

(** Whatever the outcome of [m], the log grows, and by events in [P]
    only. *)
Definition logs (P : event → Prop) {A} (m : M A) : Prop :=
  ∀ w, ∃ l, log (m w).2 = l ++ log w ∧ Forall P l.

(** Not a request for a token. *)
Definition not_token (ev : event) : Prop :=
  match ev with EvHTTP AtToken _ => False | _ => True end.

(** An operation that ran on [w] and ended in [res] did nothing, or the
    first thing it did was to request a token, with the credentials of
    the client, and it requested no second one. *)
Definition token_first (w : world) {A} (res : outcome A * world) : Prop :=
  ∃ l, log res.2 = l ++ log w
    ∧ (l = []
       ∨ ∃ l' rt, l = l' ++ [EvHTTP AtToken rt]
           ∧ token_policy (self w) (EvHTTP AtToken rt)
           ∧ Forall not_token l').

(** The only submission among the events is that of [b] to
    [/api/submit]. *)
Definition submits (b : body) (ev : event) : Prop :=
  match ev with
  | EvHTTP AtSubmit r => Body r = b
  | EvHTTP AtSubmitGallery _ => False
  | _ => True
  end.

(** A video request of the second revision. *)
Definition a_video (path thumbnail : string) : Client.PostVideoRequest :=
  {| Client.vid_FlairID := ""; Client.vid_FlairText := "";
     Client.vid_Kind := "video"; Client.vid_NSWF := false;
     Client.vid_VideoPath := path; Client.vid_Resubmit := true;
     Client.vid_SendReplies := true; Client.vid_Spoiler := false;
     Client.vid_Subreddit := "subreddit";
     Client.vid_ThumbnailPath := thumbnail;
     Client.vid_Title := "video test" |}.

(** [new] did what [old] did, and ended as [old] did, except that it
    fails where [old] returned an asset without a location. *)
Definition only_stricter (new old : outcome asset * world) : Prop :=
  new.2 = old.2
  ∧ match old.1 with
    | Ret a =>
        if decide (Location a = "") then ∃ e, new.1 = Fail e
        else new.1 = Ret a
    | Fail _ => ∃ e, new.1 = Fail e
    | Panic => new.1 = Panic
    | Blocked => new.1 = Blocked
    end.

(** * Properties *)


Example Split_empty : Split "" = [""].
Proof. reflexivity. Qed.

Example Split_redirect :
  Split "https://x/r/s/comments/x1qxro/title/"
  = ["https:"; ""; "x"; "r"; "s"; "comments"; "x1qxro"; "title"; ""].
Proof. reflexivity. Qed.

Example Ext_jpeg : Ext (Base "testdata/testimg.jpeg") = ".jpeg".
Proof. reflexivity. Qed.

Example Ext_none : Ext "a.b/c" = "".
Proof. reflexivity. Qed.

Example Base_slashes : Base "///" = "/".
Proof. reflexivity. Qed.

Example mime_jpeg : mimeTypes !! ".jpeg" = Some "image/jpeg".
Proof. vm_compute. reflexivity. Qed.

(** ** Splitting a redirect *)

Lemma Split_nonempty s : Split s ≠ [].
Proof.
  destruct s as [|c s]; simpl; [done|].
  destruct (Ascii.eqb c slash); [done|]. by destruct (Split s).
Qed.

Lemma Split_length_pos s : (0 < length (Split s))%nat.
Proof. pose proof (Split_nonempty s). destruct (Split s); simpl; [done|lia]. Qed.

(** A separator in the middle splits the list in two. *)
Lemma Split_app_slash s1 s2 :
  Split (s1 +:+ String slash s2) = Split s1 ++ Split s2.
Proof.
  induction s1 as [|c s1 IH]; simpl; [done|].
  destruct (Ascii.eqb c slash); [by rewrite IH|].
  rewrite IH. pose proof (Split_nonempty s1). by destruct (Split s1).
Qed.

Lemma Split_slashless s : slashless s → Split s = [s].
Proof.
  unfold slashless, bytes. induction s as [|c s IH]; simpl; [done|].
  intros H. apply Forall_cons in H as [Hc Hs].
  destruct (Ascii.eqb_spec c slash); [done|]. by rewrite IH.
Qed.

(** The components of [.../<id>/<title>/]. *)
Lemma Split_permalink pre id title :
  slashless id → slashless title →
  Split (pre +:+ "/" +:+ id +:+ "/" +:+ title +:+ "/")
  = Split pre ++ [id; title; ""].
Proof.
  intros Hid Htitle.
  change (pre +:+ "/" +:+ id +:+ "/" +:+ title +:+ "/")
    with (pre +:+ String slash (id +:+ String slash (title +:+ String slash ""))).
  by rewrite !Split_app_slash, (Split_slashless id), (Split_slashless title).
Qed.

Lemma third_from_last_app l a b c : third_from_last (l ++ [a; b; c]) = Some a.
Proof.
  unfold third_from_last. rewrite length_app. simpl.
  rewrite bool_decide_true by lia.
  replace (Z.to_nat _) with (length l + 0)%nat by lia.
  by rewrite lookup_app_r, Nat.add_0_r, Nat.sub_diag by lia.
Qed.

Lemma third_from_last_short l :
  (length l < 3)%nat → third_from_last l = None.
Proof. intros. unfold third_from_last. by rewrite bool_decide_false by lia. Qed.

Lemma third_from_last_long l :
  (3 ≤ length l)%nat → is_Some (third_from_last l).
Proof.
  intros. unfold third_from_last. rewrite bool_decide_true by lia.
  apply lookup_lt_is_Some. lia.
Qed.

(** The name for a redirect of the form [.../<id>/<title>/]. *)
Lemma name_of_permalink prefix pre id title w :
  slashless id → slashless title →
  name_of_redirect prefix (pre +:+ "/" +:+ id +:+ "/" +:+ title +:+ "/") w
  = (Ret (prefix +:+ id), w).
Proof.
  intros Hid Htitle. unfold name_of_redirect.
  by rewrite Split_permalink, third_from_last_app.
Qed.

(** ** Running a call *)

Lemma bind_Ret {A B} (m : M A) (k : A → M B) w a w1 :
  m w = (Ret a, w1) → bind m k w = k a w1.
Proof. intros H. unfold bind. by rewrite H. Qed.

Lemma bind_Fail {A B} (m : M A) (k : A → M B) w e w1 :
  m w = (Fail e, w1) → bind m k w = (Fail e, w1).
Proof. intros H. unfold bind. by rewrite H. Qed.

Lemma wrap_Ret {A} what (m : M A) w a w1 :
  m w = (Ret a, w1) → wrap what m w = (Ret a, w1).
Proof. intros H. unfold wrap. by rewrite H. Qed.

Lemma wrap_Fail {A} what (m : M A) w e w1 :
  m w = (Fail e, w1) → wrap what m w = (Fail (ErrWrap what e), w1).
Proof. intros H. unfold wrap. by rewrite H. Qed.

(** ** The waiter without an address (C9) *)

Lemma waitForPostSuccessWith_no_address E failure ctx w :
  waitForPostSuccessWith E failure ctx "" w = (Ret "", w).
Proof. reflexivity. Qed.

(** C9. Called with the empty address, the completion waiter of every
    revision returns the empty string and no error, and leaves the world
    as it was: nothing is dialled, no event is added. *)
Theorem waitForPostSuccess_empty_address E ctx w :
  Monolith.waitForPostSuccess E ctx "" w = (Ret "", w)
  ∧ RedditOld.waitForPostSuccess E ctx "" w = (Ret "", w)
  ∧ Reddit.waitForPostSuccess E ctx "" w = (Ret "", w).
Proof. repeat split. Qed.

(** ** From the redirect to the name (C1, C5) *)

Section Submission.
Context (E : Env) (failure : wsResponse → bool) (prefix : string).
Local Abbreviation submission := (submission E failure prefix).

Lemma submission_redirect ctx addr b w w1 redirect w2 :
  post_submit E b w = (Ret (), w1) →
  waitForPostSuccessWith E failure ctx addr w1 = (Ret redirect, w2) →
  submission ctx addr b w = name_of_redirect prefix redirect w2.
Proof.
  intros Hpost Hwait. unfold submission.
  rewrite (bind_Ret _ _ _ _ _ Hpost).
  by rewrite (bind_Ret _ _ _ _ _ (wrap_Ret _ _ _ _ _ Hwait)).
Qed.

Lemma submission_permalink ctx addr b w w1 w2 pre id title :
  post_submit E b w = (Ret (), w1) →
  waitForPostSuccessWith E failure ctx addr w1
  = (Ret (pre +:+ "/" +:+ id +:+ "/" +:+ title +:+ "/"), w2) →
  slashless id → slashless title →
  submission ctx addr b w = (Ret (prefix +:+ id), w2).
Proof.
  intros Hpost Hwait Hid Htitle.
  rewrite (submission_redirect _ _ _ _ _ _ _ Hpost Hwait).
  by apply name_of_permalink.
Qed.

Lemma submission_short ctx addr b w w1 redirect w2 :
  post_submit E b w = (Ret (), w1) →
  waitForPostSuccessWith E failure ctx addr w1 = (Ret redirect, w2) →
  (length (Split redirect) < 3)%nat →
  submission ctx addr b w = (Panic, w2).
Proof.
  intros Hpost Hwait Hlen.
  rewrite (submission_redirect _ _ _ _ _ _ _ Hpost Hwait).
  unfold name_of_redirect. by rewrite third_from_last_short.
Qed.

Lemma submission_long ctx addr b w w1 redirect w2 :
  post_submit E b w = (Ret (), w1) →
  waitForPostSuccessWith E failure ctx addr w1 = (Ret redirect, w2) →
  (3 ≤ length (Split redirect))%nat →
  ∃ id, third_from_last (Split redirect) = Some id
        ∧ submission ctx addr b w = (Ret (prefix +:+ id), w2).
Proof.
  intros Hpost Hwait Hlen.
  rewrite (submission_redirect _ _ _ _ _ _ _ Hpost Hwait).
  destruct (third_from_last_long _ Hlen) as [id Hid].
  exists id. split; [done|]. unfold name_of_redirect. by rewrite Hid.
Qed.

Lemma submission_no_address ctx b w w1 :
  post_submit E b w = (Ret (), w1) →
  submission ctx "" b w = (Panic, w1).
Proof.
  intros Hpost.
  apply (submission_short ctx "" b w w1 "" w1); [done|done|simpl; lia].
Qed.
End Submission.

Lemma Monolith_submit_submission E ctx form addr :
  Monolith.submit E ctx form addr
  = submission E failed_or_empty "t3" ctx addr (FormBody form).
Proof. reflexivity. Qed.

Lemma RedditOld_SubmitPost_submission E ctx addr b :
  RedditOld.SubmitPost E ctx addr b
  = submission E failed_or_empty "t3_" ctx addr b.
Proof. reflexivity. Qed.

Lemma Reddit_SubmitPost_submission E ctx addr b :
  Reddit.SubmitPost E ctx addr b
  = submission E not_success_or_empty "t3_" ctx addr b.
Proof. reflexivity. Qed.

(** The derivation of the first revision puts ["t3"] before the id. *)
Lemma Monolith_submit_permalink E ctx form addr w w1 w2 pre id title :
  post_submit E (FormBody form) w = (Ret (), w1) →
  Monolith.waitForPostSuccess E ctx addr w1
  = (Ret (pre +:+ "/" +:+ id +:+ "/" +:+ title +:+ "/"), w2) →
  slashless id → slashless title →
  Monolith.submit E ctx form addr w = (Ret ("t3" +:+ id), w2).
Proof. rewrite Monolith_submit_submission. apply submission_permalink. Qed.

(** [SubmitPost] puts ["t3_"] before the id, in both revisions. *)
Lemma SubmitPost_permalink E ctx addr b w w1 pre id title :
  post_submit E b w = (Ret (), w1) →
  slashless id → slashless title →
  (∀ w2, Reddit.waitForPostSuccess E ctx addr w1
         = (Ret (pre +:+ "/" +:+ id +:+ "/" +:+ title +:+ "/"), w2) →
         Reddit.SubmitPost E ctx addr b w = (Ret ("t3_" +:+ id), w2))
  ∧ (∀ w2, RedditOld.waitForPostSuccess E ctx addr w1
           = (Ret (pre +:+ "/" +:+ id +:+ "/" +:+ title +:+ "/"), w2) →
           RedditOld.SubmitPost E ctx addr b w = (Ret ("t3_" +:+ id), w2)).
Proof.
  intros Hpost Hid Htitle. split; intros w2 Hwait.
  - rewrite Reddit_SubmitPost_submission. by eapply submission_permalink.
  - rewrite RedditOld_SubmitPost_submission. by eapply submission_permalink.
Qed.

Example Client_PostImage_test :
  (Client.PostImage (reddit_new Scenario.env) Scenario.delivered
     (Scenario.image' "testdata/testimg.jpeg") (Scenario.w0 "username")).1
  = Ret "t3_x1qxro".
Proof. vm_compute. reflexivity. Qed.

(** C1. On the redirect [https://x/r/s/comments/x1qxro/title/] the
    [PostImage] and [PostVideo] of the first revision of [redmed.go]
    return [t3x1qxro]: their format string is ["t3%s"], without the
    underscore that [SubmitPost] and the tests have. *)
Theorem Monolith_name_without_underscore :
  jsonWs Scenario.env "success.json"
  = Ok {| Type_ := "success";
          Redirect := "https://x/r/s/comments/x1qxro/title/" |}
  ∧ (Monolith.PostImage Scenario.env Scenario.delivered
       (Scenario.image "testdata/testimg.jpeg") (Scenario.w0 "username")).1
    = Ret "t3x1qxro"
  ∧ (Monolith.PostVideo Scenario.env Scenario.delivered
       (Scenario.video "testdata/video.mp4" "testdata/testimg.jpeg")
       (Scenario.w0 "username")).1
    = Ret "t3x1qxro".
Proof. repeat split; vm_compute; reflexivity. Qed.

(** C5. Once the submission is accepted, a redirect of fewer than three
    components makes the derivation of the name panic, in [submit] of the
    first revision and in [SubmitPost] of both revisions of [reddit.go];
    a redirect of three or more yields a name; and with the empty
    websocket address, for which the waiter returns the empty redirect,
    all three panic. *)
Theorem short_redirect_panics E ctx addr b w w1 :
  post_submit E b w = (Ret (), w1) →
  (∀ redirect w2,
     Reddit.waitForPostSuccess E ctx addr w1 = (Ret redirect, w2) →
     ((length (Split redirect) < 3)%nat →
      Reddit.SubmitPost E ctx addr b w = (Panic, w2))
     ∧ ((3 ≤ length (Split redirect))%nat →
        ∃ id, third_from_last (Split redirect) = Some id
              ∧ Reddit.SubmitPost E ctx addr b w = (Ret ("t3_" +:+ id), w2)))
  ∧ (∀ redirect w2,
       RedditOld.waitForPostSuccess E ctx addr w1 = (Ret redirect, w2) →
       ((length (Split redirect) < 3)%nat →
        RedditOld.SubmitPost E ctx addr b w = (Panic, w2))
       ∧ ((3 ≤ length (Split redirect))%nat →
          ∃ id, third_from_last (Split redirect) = Some id
                ∧ RedditOld.SubmitPost E ctx addr b w
                  = (Ret ("t3_" +:+ id), w2)))
  ∧ (∀ form redirect w2,
       b = FormBody form →
       Monolith.waitForPostSuccess E ctx addr w1 = (Ret redirect, w2) →
       ((length (Split redirect) < 3)%nat →
        Monolith.submit E ctx form addr w = (Panic, w2))
       ∧ ((3 ≤ length (Split redirect))%nat →
          ∃ id, third_from_last (Split redirect) = Some id
                ∧ Monolith.submit E ctx form addr w = (Ret ("t3" +:+ id), w2)))
  ∧ Reddit.SubmitPost E ctx "" b w = (Panic, w1)
  ∧ RedditOld.SubmitPost E ctx "" b w = (Panic, w1)
  ∧ (∀ form, b = FormBody form →
             Monolith.submit E ctx form "" w = (Panic, w1)).
Proof.
  intros Hpost. repeat split.
  - intros Hlen. rewrite Reddit_SubmitPost_submission.
    by eapply submission_short.
  - intros Hlen. rewrite Reddit_SubmitPost_submission.
    by eapply submission_long.
  - intros Hlen. rewrite RedditOld_SubmitPost_submission.
    by eapply submission_short.
  - intros Hlen. rewrite RedditOld_SubmitPost_submission.
    by eapply submission_long.
  - intros Hlen. subst b. rewrite Monolith_submit_submission.
    by eapply submission_short.
  - intros Hlen. subst b. rewrite Monolith_submit_submission.
    by eapply submission_long.
  - rewrite Reddit_SubmitPost_submission. by apply submission_no_address.
  - rewrite RedditOld_SubmitPost_submission. by apply submission_no_address.
  - intros form ->. rewrite Monolith_submit_submission.
    by apply submission_no_address.
Qed.

Lemma short_redirect_panics_witness :
  post_submit Scenario.env (FormBody [("kind", "image")]) (Scenario.w0 "username")
  = (Ret (), (post_submit Scenario.env (FormBody [("kind", "image")])
                (Scenario.w0 "username")).2)
  ∧ (Reddit.SubmitPost Scenario.env Scenario.delivered ""
       (FormBody [("kind", "image")]) (Scenario.w0 "username")).1 = Panic
  ∧ (Monolith.submit Scenario.env Scenario.delivered [("kind", "image")] ""
       (Scenario.w0 "username")).1 = Panic.
Proof.
  assert (post_submit Scenario.env (FormBody [("kind", "image")])
            (Scenario.w0 "username")
          = (Ret (), (post_submit Scenario.env (FormBody [("kind", "image")])
                        (Scenario.w0 "username")).2)) as Hpost
    by (vm_compute; reflexivity).
  pose proof (short_redirect_panics Scenario.env Scenario.delivered ""
                _ _ _ Hpost) as (_ & _ & _ & Hnew & _ & Hmono).
  split; [exact Hpost|]. split.
  - by rewrite Hnew.
  - by rewrite (Hmono _ eq_refl).
Defined.

(** A lease without a websocket address: the post is submitted, the
    waiter has nothing to wait for, and [PostImage] panics. *)
Example PostImage_panics_without_websocket :
  (Client.PostImage (reddit_new Scenario.env) Scenario.delivered
     (Scenario.image' "testdata/sync.jpeg") (Scenario.w0 "username")).1
  = Panic
  ∧ http_sites (log (Client.PostImage (reddit_new Scenario.env)
                       Scenario.delivered
                       (Scenario.image' "testdata/sync.jpeg")
                       (Scenario.w0 "username")).2)
    = [AtSubmit; AtUpload; AtLease; AtToken].
Proof. split; vm_compute; reflexivity. Qed.

(** ** The listener's verdict on a message (C3) *)

Lemma failed_or_empty_spec wr :
  failed_or_empty wr = true ↔ Type_ wr = "failed" ∨ Redirect wr = "".
Proof.
  unfold failed_or_empty.
  rewrite orb_true_iff, !bool_decide_eq_true. done.
Qed.

Lemma not_success_or_empty_spec wr :
  not_success_or_empty wr = true ↔ Type_ wr ≠ "success" ∨ Redirect wr = "".
Proof.
  unfold not_success_or_empty.
  rewrite orb_true_iff, !bool_decide_eq_true. done.
Qed.

Section Verdict.
Context (E : Env) (failure : wsResponse → bool).
Local Abbreviation first_frame_inv := (first_frame_inv E failure).

(** After a frame the listener is at a send: nothing makes it read on
    without offering a message first. *)
Lemma on_frame_sends f : ∃ m last, on_frame E failure f = AtSend m last.
Proof.
  destruct f as [e|message]; simpl; [by eexists _, _|].
  destruct (jsonWs E message) as [wr|e]; [|by eexists _, _].
  destruct (failure wr); by eexists _, _.
Qed.

Lemma verdict_decoded message wr :
  jsonWs E message = Ok wr →
  verdict E failure (Message message)
  = if failure wr
    then Fail (ErrWrap "waiting for media upload success" (ErrNew message))
    else Ret (Redirect wr).
Proof.
  intros Hwr. unfold verdict. simpl. rewrite Hwr. by destruct (failure wr).
Qed.

Lemma first_frame_inv_step f rest a s :
  match a with Cancel _ => False | _ => True end →
  first_frame_inv f rest s → first_frame_inv f rest (step E failure a s).
Proof.
  intros Ha [Hctx Hinv]. unfold first_frame_inv.
  destruct s as [c inc op g ret]. simpl in *. subst c.
  destruct a as [d| | |]; [done|..]; destruct ret as [r|]; simpl in *.
  - destruct g, op, inc; simpl; done.
  - destruct Hinv as [-> [[[->| ->] ->]| ->]]; simpl; eauto 10.
    destruct (on_frame_sends f) as (m & last & Hm). rewrite Hm. simpl.
    eauto 10.
  - done.
  - done.
  - done.
  - destruct Hinv as [-> [[[->| ->] ->]| ->]]; simpl; eauto 10.
    unfold verdict.
    destruct (on_frame_sends f) as (m & last & Hm). rewrite Hm. simpl.
    done.
Qed.

Lemma first_frame_inv_run f rest sched s :
  cancel_free sched →
  first_frame_inv f rest s → first_frame_inv f rest (run E failure sched s).
Proof.
  unfold run. intros Hfree. revert s.
  induction Hfree as [|a sched Ha _ IH]; intros s Hs; simpl; [done|].
  apply IH. by apply first_frame_inv_step.
Qed.

(** On a live context that is not cancelled, the waiter returns nothing
    but the verdict on the first frame. *)
Lemma waiter_returns_verdict ctx addr f rest w :
  addr ≠ "" →
  wsDial E addr = Ok (f :: rest) →
  done0 ctx = None →
  cancel_free (schedule ctx) →
  (waitForPostSuccessWith E failure ctx addr w).1 = Blocked
  ∨ (waitForPostSuccessWith E failure ctx addr w).1 = verdict E failure f.
Proof.
  intros Haddr Hdial Hlive Hfree. unfold waitForPostSuccessWith.
  rewrite decide_False by done. rewrite Hdial.
  pose proof (first_frame_inv_run f rest (schedule ctx) (start ctx (f :: rest))
                Hfree) as [_ Hinv].
  { split; [done|]. simpl. eauto. }
  destruct (returned _) as [r|]; simpl; [right; done|by left].
Qed.

(** When the listener checks, reads and hands over, the waiter returns. *)
Lemma waiter_delivers addr f rest w :
  addr ≠ "" →
  wsDial E addr = Ok (f :: rest) →
  (waitForPostSuccessWith E failure
     {| done0 := None; schedule := [Listen; Listen; SelectMsg] |} addr w).1
  = verdict E failure f.
Proof.
  intros Haddr Hdial. unfold waitForPostSuccessWith.
  rewrite decide_False by done. rewrite Hdial. unfold verdict. simpl.
  destruct (on_frame_sends f) as (m & last & ->). done.
Qed.
End Verdict.

(** In the newer [reddit.go] a message of a type other than [failed],
    with a redirect, is a failure all the same. *)
Lemma Reddit_other_type_fails :
  ¬ classifies_as_specified Reddit.waitForPostSuccess.
Proof.
  intros Hspec.
  destruct (Hspec Scenario.env "wss://pending" "pending.json" []
              {| Type_ := "pending"; Redirect := Scenario.the_redirect |}
              (Scenario.w0 "username")) as [_ Hsuccess]; try done.
  assert ("pending" ≠ "failed" ∧ Scenario.the_redirect ≠ "") as Hne
    by (split; discriminate).
  specialize (Hsuccess Hne). vm_compute in Hsuccess. discriminate.
Qed.

(** C3, amended. Of a decoded first message the waiter of [redmed.go]
    and of the older [reddit.go] makes a failure when the type is
    [failed] or the redirect is empty, and returns the redirect
    otherwise; the waiter of the newer [reddit.go] makes a failure when
    the type is not [success] or the redirect is empty, and returns the
    redirect otherwise. That is so under every schedule that does not
    cancel the context: the waiter returns that or is still blocked, and
    it does return once the listener has read and handed over. No decoded
    message leaves the waiter listening. *)
Theorem waiter_classifies E ctx addr message rest wr w :
  addr ≠ "" →
  wsDial E addr = Ok (Message message :: rest) →
  jsonWs E message = Ok wr →
  done0 ctx = None →
  cancel_free (schedule ctx) →
  let failure := Fail (ErrWrap "waiting for media upload success"
                         (ErrNew message)) in
  let handed_over :=
    {| done0 := None; schedule := [Listen; Listen; SelectMsg] |} in
  let old_verdict :=
    if bool_decide (Type_ wr = "failed" ∨ Redirect wr = "")
    then failure else Ret (Redirect wr) in
  let new_verdict :=
    if bool_decide (Type_ wr ≠ "success" ∨ Redirect wr = "")
    then failure else Ret (Redirect wr) in
  ((Monolith.waitForPostSuccess E ctx addr w).1 = Blocked
   ∨ (Monolith.waitForPostSuccess E ctx addr w).1 = old_verdict)
  ∧ (Monolith.waitForPostSuccess E handed_over addr w).1 = old_verdict
  ∧ ((RedditOld.waitForPostSuccess E ctx addr w).1 = Blocked
     ∨ (RedditOld.waitForPostSuccess E ctx addr w).1 = old_verdict)
  ∧ (RedditOld.waitForPostSuccess E handed_over addr w).1 = old_verdict
  ∧ ((Reddit.waitForPostSuccess E ctx addr w).1 = Blocked
     ∨ (Reddit.waitForPostSuccess E ctx addr w).1 = new_verdict)
  ∧ (Reddit.waitForPostSuccess E handed_over addr w).1 = new_verdict.
Proof.
  intros Haddr Hdial Hwr Hlive Hfree. simpl.
  assert (verdict E failed_or_empty (Message message)
          = if bool_decide (Type_ wr = "failed" ∨ Redirect wr = "")
            then Fail (ErrWrap "waiting for media upload success"
                         (ErrNew message))
            else Ret (Redirect wr)) as Hold.
  { rewrite (verdict_decoded _ _ _ _ Hwr).
    destruct (failed_or_empty wr) eqn:Hf.
    - by rewrite bool_decide_true by by apply failed_or_empty_spec.
    - rewrite bool_decide_false; [done|].
      rewrite <-failed_or_empty_spec. by rewrite Hf. }
  assert (verdict E not_success_or_empty (Message message)
          = if bool_decide (Type_ wr ≠ "success" ∨ Redirect wr = "")
            then Fail (ErrWrap "waiting for media upload success"
                         (ErrNew message))
            else Ret (Redirect wr)) as Hnew.
  { rewrite (verdict_decoded _ _ _ _ Hwr).
    destruct (not_success_or_empty wr) eqn:Hf.
    - by rewrite bool_decide_true by by apply not_success_or_empty_spec.
    - rewrite bool_decide_false; [done|].
      rewrite <-not_success_or_empty_spec. by rewrite Hf. }
  rewrite <-Hold, <-Hnew.
  unfold Monolith.waitForPostSuccess, RedditOld.waitForPostSuccess,
    Reddit.waitForPostSuccess.
  repeat split;
    eauto using waiter_returns_verdict, waiter_delivers.
Qed.

Lemma waiter_classifies_witness :
  (Monolith.waitForPostSuccess Scenario.env Scenario.delivered "wss://pending"
     (Scenario.w0 "username")).1 = Ret Scenario.the_redirect
  ∧ (Reddit.waitForPostSuccess Scenario.env Scenario.delivered "wss://pending"
       (Scenario.w0 "username")).1
    = Fail (ErrWrap "waiting for media upload success" (ErrNew "pending.json")).
Proof.
  pose proof (waiter_classifies Scenario.env Scenario.delivered "wss://pending"
                "pending.json" []
                {| Type_ := "pending"; Redirect := Scenario.the_redirect |}
                (Scenario.w0 "username")
                ltac:(done) ltac:(reflexivity) ltac:(reflexivity)
                ltac:(reflexivity)
                ltac:(repeat constructor))
    as (_ & Hold & _ & _ & _ & Hnew).
  split; [exact Hold|exact Hnew].
Defined.

(** ** Calls that return or fail and touch only the log *)

Lemma tame_ret P {A} (a : A) : tame P (ret a).
Proof. intros w r w' [= <- <-]. repeat split. by exists []. Qed.

Lemma tame_fail P {A} e : tame P (fail (A := A) e).
Proof. intros w r w' [= <- <-]. repeat split. by exists []. Qed.

Lemma tame_lift P {A} (x : result A) : tame P (lift x).
Proof. destruct x; [apply tame_ret|apply tame_fail]. Qed.

Lemma tame_bind P {A B} (m : M A) (k : A → M B) :
  tame P m → (∀ a, tame P (k a)) → tame P (bind m k).
Proof.
  intros Hm Hk w r w' H. unfold bind in H.
  destruct (m w) as [[a|e| |] w1] eqn:Hmw;
    destruct (Hm _ _ _ Hmw) as (Hr & Hself & l1 & Hl1 & HP1); try done.
  - destruct (Hk _ _ _ _ H) as (Hr' & Hself' & l2 & Hl2 & HP2).
    split; [done|]. split; [congruence|].
    exists (l2 ++ l1). rewrite Hl2, Hl1, app_assoc. split; [done|].
    by apply Forall_app.
  - injection H as <- <-. eauto.
Qed.

Lemma tame_wrap P {A} what (m : M A) : tame P m → tame P (wrap what m).
Proof.
  intros Hm w r w' H. unfold wrap in H.
  destruct (m w) as [[a|e| |] w1] eqn:Hmw;
    destruct (Hm _ _ _ Hmw) as (Hr & Hself & l1 & Hl1 & HP1); try done;
    injection H as <- <-; eauto.
Qed.

Lemma tame_defer_Remove P {A} name (m : M A) :
  P (EvRemove name) → tame P m → tame P (defer (Remove name) m).
Proof.
  intros HP Hm w r w' H. unfold defer in H.
  destruct (m w) as [r1 w1] eqn:Hmw. injection H as <- <-.
  destruct (Hm _ _ _ Hmw) as (Hr & Hself & l1 & Hl1 & HP1).
  split; [done|]. split; [done|]. exists (EvRemove name :: l1). simpl.
  rewrite Hl1. split; [done|]. by constructor.
Qed.

Lemma tame_get_self P : tame P get_self.
Proof. intros w r w' [= <- <-]. repeat split. by exists []. Qed.

Lemma tame_NewRequestWithContext P E method addr b :
  tame P (NewRequestWithContext E method addr b).
Proof.
  unfold NewRequestWithContext.
  destruct (urlParse E addr); [apply tame_ret|apply tame_fail].
Qed.

Lemma tame_authorize P r : tame P (authorize r).
Proof.
  unfold authorize. apply tame_bind; [apply tame_get_self|].
  intros c. apply tame_ret.
Qed.

Lemma tame_Do P E site r : P (EvHTTP site r) → tame P (Do E site r).
Proof.
  intros HP w r' w' H. unfold Do in H.
  destruct (httpDo E r); injection H as <- <-;
    (split; [done|]; split; [done|]; exists [EvHTTP site r];
     split; [done|]; by constructor).
Qed.

Lemma tame_doRequest P E {T} site r contentType (v : option (string → result T)) :
  (∀ r', Method r' = Method r → URL r' = URL r → Body r' = Body r →
         P (EvHTTP site r')) →
  tame P (doRequest E site r contentType v).
Proof.
  intros HP. unfold doRequest.
  apply tame_bind; [apply tame_get_self|]. intros c.
  apply tame_bind; [by apply tame_Do, HP|]. intros resp.
  apply tame_bind; [apply tame_lift|]. intros respBytes.
  case_bool_decide; [apply tame_fail|].
  destruct v as [unmarshal|]; [|apply tame_ret].
  destruct (unmarshal respBytes); [apply tame_ret|apply tame_fail].
Qed.

Lemma tame_CreateTemp P E ext :
  (∀ name, P (EvCreateTemp name)) → tame P (CreateTemp E ext).
Proof.
  intros HP w r w' H. unfold CreateTemp in H.
  destruct (osCreateTemp E _); injection H as <- <-.
  - repeat split. by exists [].
  - repeat split. exists [EvCreateTemp (temp_name E (created w) ext)].
    split; [done|]. by constructor.
Qed.

Lemma tame_Copy_to P name src : tame P (Copy_to name src).
Proof.
  destruct src; simpl; [|apply tame_fail].
  intros w r w' [= <- <-]. repeat split. by exists [].
Qed.

Lemma tame_Open P E path : tame P (Open E path).
Proof.
  intros w r w' H. unfold Open in H.
  destruct (staged w !! path).
  - injection H as <- <-. repeat split. by exists [].
  - by apply (tame_lift P (osOpen E path)) in H.
Qed.

Lemma tame_downloadLink P E link :
  (∀ r, P (EvHTTP AtDownload r)) → (∀ name, P (EvCreateTemp name)) →
  tame P (downloadLink E link).
Proof.
  intros HD HC. unfold downloadLink.
  apply tame_bind; [apply tame_NewRequestWithContext|]. intros r.
  apply tame_bind; [by apply tame_Do|]. intros resp.
  case_bool_decide; [apply tame_fail|].
  apply tame_bind; [by apply tame_CreateTemp|]. intros file.
  apply tame_bind; [apply tame_Copy_to|]. intros _. apply tame_ret.
Qed.

Lemma tame_bind_ret P {A B} (a : A) (k : A → M B) :
  tame P (k a) → tame P (bind (ret a) k).
Proof. intros Hk w r w' H. by apply Hk. Qed.

Lemma tame_bind_fail P {A B} e (k : A → M B) : tame P (bind (fail e) k).
Proof. intros w r w' H. by apply (tame_fail P e) in H. Qed.

Lemma tame_bind_NewRequestWithContext P E {B} method addr b (k : request → M B) :
  (∀ r, Method r = method → URL r = addr → Body r = b → tame P (k r)) →
  tame P (bind (NewRequestWithContext E method addr b) k).
Proof.
  intros Hk. unfold NewRequestWithContext.
  destruct (urlParse E addr); [|apply tame_bind_fail].
  apply tame_bind_ret. by apply Hk.
Qed.

Lemma tame_bind_authorize P {B} r (k : request → M B) :
  (∀ r', Method r' = Method r → URL r' = URL r → Body r' = Body r →
         tame P (k r')) →
  tame P (bind (authorize r) k).
Proof.
  intros Hk w r' w' H. unfold bind, authorize in H. simpl in H.
  by apply Hk in H.
Qed.

Lemma tame_request_lease P E fileName mimeType :
  (∀ r, Body r = FormBody [("filepath", fileName); ("mimetype", mimeType)] →
        P (EvHTTP AtLease r)) →
  tame P (request_lease E fileName mimeType).
Proof.
  intros HL. unfold request_lease.
  apply tame_bind_NewRequestWithContext. intros r _ _ Hbody.
  apply tame_bind_authorize. intros r' _ _ Hbody'.
  apply tame_bind; [|intros; apply tame_ret].
  apply tame_doRequest. intros r'' _ _ Hbody''. apply HL. congruence.
Qed.


(** The transfer to the storage endpoint and what follows it add only the
    transfer's request. *)
Lemma tame_uploadMedia P E path :
  (∀ ev, upload_event (Base path)
           (default "" (mimeTypes !! Ext (Base path))) ev → P ev) →
  tame P (Monolith.uploadMedia E path).
Proof.
  intros HP. unfold Monolith.uploadMedia.
  destruct (mimeTypes !! Ext (Base path)) as [mime|]; [|apply tame_fail].
  simpl in HP.
  apply tame_bind; [apply tame_request_lease; intros r Hr; by apply HP|].
  intros ar. apply tame_bind; [apply tame_lift|]. intros uploadURL.
  apply tame_bind; [apply tame_Open|]. intros content.
  apply tame_bind_NewRequestWithContext. intros r _ _ _.
  apply tame_bind; [apply tame_doRequest; intros; by apply HP|].
  intros resp. apply tame_bind; [apply tame_lift|]. intros location.
  apply tame_ret.
Qed.

Lemma tame_staging P E {A} path what (k : string * bool → M A) :
  (∀ r, P (EvHTTP AtDownload r)) → (∀ name, P (EvCreateTemp name)) →
  (∀ p, tame P (k p)) →
  tame P (bind (if isValidURL E path
                then do assetPath <- wrap what (downloadLink E path);
                     ret (assetPath, true)
                else ret (path, false)) k).
Proof.
  intros HD HC Hk. apply tame_bind; [|done].
  destruct (isValidURL E path); [|apply tame_ret].
  apply tame_bind; [|intros; apply tame_ret].
  by apply tame_wrap, tame_downloadLink.
Qed.

Lemma tame_RedditOld_UploadAsset P E path :
  (∀ ev, upload_event (Base path)
           (default "" (mimeTypes !! Ext (Base path))) ev → P ev) →
  tame P (RedditOld.UploadAsset E path).
Proof.
  intros HP. unfold RedditOld.UploadAsset.
  apply tame_staging; [intros; by apply HP..|].
  intros [assetPath didDownload].
  assert (tame P (
    let fileName := Base path in
    let ext := Ext fileName in
    match mimeTypes !! ext with
    | None => fail (ErrNew (ext +:+ " not supported"))
    | Some mimeType =>
        do ar <- request_lease E fileName mimeType;
        do uploadURL <- lift (urlParse E ("https:" +:+ Action ar));
        do content <- Open E assetPath;
        do r <- NewRequestWithContext E "POST" (String_ uploadURL)
                  (MultipartBody (form_fields (Fields ar)) fileName content);
        do resp <- doRequest (T := unit) E AtUpload r
                     "multipart/form-data" None;
        do location <- lift (xmlLocation E resp.1);
        ret {| ID := AssedID ar; Location := location;
               WebSocket := WebsocketURL ar |}
    end)) as Hbody.
  { simpl.
    destruct (mimeTypes !! Ext (Base path)) as [mime|]; [|apply tame_fail].
    simpl in HP.
    apply tame_bind; [apply tame_request_lease; intros r Hr; by apply HP|].
    intros ar. apply tame_bind; [apply tame_lift|]. intros uploadURL.
    apply tame_bind; [apply tame_Open|]. intros content.
    apply tame_bind_NewRequestWithContext. intros r _ _ _.
    apply tame_bind; [apply tame_doRequest; intros; by apply HP|].
    intros resp. apply tame_bind; [apply tame_lift|]. intros location.
    apply tame_ret. }
  destruct didDownload; [|done].
  apply tame_defer_Remove; [by apply HP|done].
Qed.

Lemma tame_Reddit_UploadAsset P E path :
  (∀ ev, upload_event (Base path)
           (default "" (mimeTypes !! Ext (Base path))) ev → P ev) →
  tame P (Reddit.UploadAsset E path).
Proof.
  intros HP. unfold Reddit.UploadAsset.
  apply tame_staging; [intros; by apply HP..|].
  intros [assetPath didDownload].
  assert (tame P (
    let fileName := Base path in
    let ext := Ext fileName in
    match mimeTypes !! ext with
    | None => fail (ErrNew (ext +:+ " not supported"))
    | Some mimeType =>
        do ar <- request_lease E fileName mimeType;
        do uploadURL <- lift (urlParse E ("https:" +:+ Action ar));
        do content <- Open E assetPath;
        do r <- NewRequestWithContext E "POST" (String_ uploadURL)
                  (MultipartBody (form_fields (Fields ar)) fileName content);
        do resp <- doRequest E AtUpload r "multipart/form-data"
                     (Some (xmlLocation E));
        let location := default "" resp.2 in
        if decide (location = "") then
          fail (ErrWrap "uploading asset to lease" (ErrNew resp.1))
        else
          ret {| ID := AssedID ar; Location := location;
                 WebSocket := WebsocketURL ar |}
    end)) as Hbody.
  { simpl.
    destruct (mimeTypes !! Ext (Base path)) as [mime|]; [|apply tame_fail].
    simpl in HP.
    apply tame_bind; [apply tame_request_lease; intros r Hr; by apply HP|].
    intros ar. apply tame_bind; [apply tame_lift|]. intros uploadURL.
    apply tame_bind; [apply tame_Open|]. intros content.
    apply tame_bind_NewRequestWithContext. intros r _ _ _.
    apply tame_bind; [apply tame_doRequest; intros; by apply HP|].
    intros resp. case_decide; [apply tame_fail|apply tame_ret]. }
  destruct didDownload; [|done].
  apply tame_defer_Remove; [by apply HP|done].
Qed.

(** ** The location of an uploaded asset (C4) *)

Lemma bind_inv_Ret {A B} (m : M A) (k : A → M B) w b w' :
  bind m k w = (Ret b, w') →
  ∃ a w1, m w = (Ret a, w1) ∧ k a w1 = (Ret b, w').
Proof.
  unfold bind. destruct (m w) as [[a|e| |] w1]; intros H; try done.
  by exists a, w1.
Qed.

Lemma defer_inv {A} f (m : M A) w r w' :
  defer f m w = (r, w') → ∃ w1, m w = (r, w1) ∧ w' = f w1.
Proof.
  unfold defer. destruct (m w) as [r1 w1]. intros [= <- <-]. by exists w1.
Qed.

Lemma wrap_inv_Ret {A} what (m : M A) w a w' :
  wrap what m w = (Ret a, w') → m w = (Ret a, w').
Proof. unfold wrap. by destruct (m w) as [[| | |] ?]. Qed.

(** The newer [UploadAsset] never returns an asset without a location. *)
Lemma Reddit_UploadAsset_location E path w a w' :
  Reddit.UploadAsset E path w = (Ret a, w') → Location a ≠ "".
Proof.
  unfold Reddit.UploadAsset. intros H.
  apply bind_inv_Ret in H as ([assetPath didDownload] & w1 & _ & H).
  assert (∃ w2, (
    let fileName := Base path in
    let ext := Ext fileName in
    match mimeTypes !! ext with
    | None => fail (ErrNew (ext +:+ " not supported"))
    | Some mimeType =>
        do ar <- request_lease E fileName mimeType;
        do uploadURL <- lift (urlParse E ("https:" +:+ Action ar));
        do content <- Open E assetPath;
        do r <- NewRequestWithContext E "POST" (String_ uploadURL)
                  (MultipartBody (form_fields (Fields ar)) fileName content);
        do resp <- doRequest E AtUpload r "multipart/form-data"
                     (Some (xmlLocation E));
        let location := default "" resp.2 in
        if decide (location = "") then
          fail (ErrWrap "uploading asset to lease" (ErrNew resp.1))
        else
          ret {| ID := AssedID ar; Location := location;
                 WebSocket := WebsocketURL ar |}
    end) w1 = (Ret a, w2)) as [w2 Hbody].
  { destruct didDownload; [|by eexists].
    apply defer_inv in H as (w2 & H & _). by eexists. }
  clear H. simpl in Hbody.
  destruct (mimeTypes !! Ext (Base path)) as [mime|]; [|done].
  apply bind_inv_Ret in Hbody as (ar & ? & _ & Hbody).
  apply bind_inv_Ret in Hbody as (uploadURL & ? & _ & Hbody).
  apply bind_inv_Ret in Hbody as (content & ? & _ & Hbody).
  apply bind_inv_Ret in Hbody as (r & ? & _ & Hbody).
  apply bind_inv_Ret in Hbody as (resp & ? & _ & Hbody).
  case_decide; [done|]. by injection Hbody as <- _.
Qed.

(** C4. The storage endpoint answers 201 with a document that has no
    [Location]. [uploadMedia] of [redmed.go] and [UploadAsset] of the
    older [reddit.go] return the asset with an empty location and no
    error; [UploadAsset] of the newer [reddit.go] fails. *)
Theorem upload_returns_empty_location :
  httpDo Scenario.env
    {| Method := "POST"; URL := "https://127.0.0.1:4444"; Header := ∅;
       Body := NoBody |}
  = Ok {| StatusCode := 201; RespBody := Ok "no-location.xml" |}
  ∧ xmlLocation Scenario.env "no-location.xml" = Ok ""
  ∧ (Monolith.uploadMedia Scenario.env "testdata/blank.png"
       (Scenario.w0 "username")).1
    = Ret ("124", "", "wss://ws")
  ∧ (RedditOld.UploadAsset Scenario.env "testdata/blank.png"
       (Scenario.w0 "username")).1
    = Ret {| ID := "124"; Location := ""; WebSocket := "wss://ws" |}
  ∧ (Reddit.UploadAsset Scenario.env "testdata/blank.png"
       (Scenario.w0 "username")).1
    = Fail (ErrWrap "uploading asset to lease" (ErrNew "no-location.xml")).
Proof. repeat split; vm_compute; reflexivity. Qed.

(** ** The waiter and cancellation (C10) *)

Section Cancellation.
Context (E : Env) (failure : wsResponse → bool).

(** When the select takes [<-ctx.Done()], the waiter returns the error
    of the context and the connection is closed; the listener is where
    it was. *)
Lemma select_done_returns s d :
  returned s = None → ctxErr s = Some d →
  let s' := step E failure SelectDone s in
  returned s' = Some (Fail (ctx_error d))
  ∧ is_cancellation (ctx_error d) = true
  ∧ conn_open s' = false
  ∧ goroutine s' = goroutine s.
Proof. intros Hret Hctx. simpl. rewrite Hret, Hctx. by destruct d. Qed.

Lemma reading_inv_step a s : reading_inv s → reading_inv (step E failure a s).
Proof.
  intros [Hin Hinv]. unfold reading_inv.
  destruct s as [c inc op g ret]. simpl in *. subst inc.
  destruct ret as [r|].
  - destruct Hinv as (d & -> & ->).
    destruct a as [d'| | |]; simpl; eauto.
    destruct g, op; simpl; eauto.
  - destruct Hinv as [-> ->].
    destruct a as [d'| | |]; simpl; eauto.
    + destruct c; simpl; eauto.
    + destruct c; simpl; eauto.
Qed.

Lemma reading_inv_run sched s :
  reading_inv s → reading_inv (run E failure sched s).
Proof.
  unfold run. revert s. induction sched as [|a sched IH]; intros s Hs; simpl;
    [done|]. by apply IH, reading_inv_step.
Qed.

(** Once the listener is blocked in [ReadMessage] and no message comes,
    whatever happens next the waiter returns nothing but the error of the
    cancelled context, and then the connection is closed. *)
Lemma reading_waiter_cancelled sched s r :
  goroutine s = AtRead → incoming s = [] → conn_open s = true →
  returned s = None →
  returned (run E failure sched s) = Some r →
  ∃ d, ctxErr (run E failure sched s) = Some d ∧ r = Fail (ctx_error d).
Proof.
  intros Hg Hin Hopen Hret Hr.
  destruct (reading_inv_run sched s) as [_ Hinv].
  { split; [done|]. by rewrite Hret. }
  by rewrite Hr in Hinv.
Qed.
End Cancellation.

(** C10. The deadline has expired when the listener goroutine starts
    and no message ever arrives. The listener sees [ctx.Err() != nil]
    and returns, its deferred [close(msgCh)] runs, and the select, with
    both cases ready, takes the receive: the waiter of every revision
    returns the empty redirect and no error, and [SubmitPost] then
    panics on it. *)
Theorem waiter_returns_nil_on_expired_context :
  wsDial Scenario.env "wss://silent" = Ok []
  ∧ done0 Scenario.expired_listener_first = Some ByDeadline
  ∧ schedule Scenario.expired_listener_first = [Listen; SelectMsg]
  ∧ (Monolith.waitForPostSuccess Scenario.env Scenario.expired_listener_first
       "wss://silent" (Scenario.w0 "username")).1 = Ret ""
  ∧ (RedditOld.waitForPostSuccess Scenario.env Scenario.expired_listener_first
       "wss://silent" (Scenario.w0 "username")).1 = Ret ""
  ∧ (Reddit.waitForPostSuccess Scenario.env Scenario.expired_listener_first
       "wss://silent" (Scenario.w0 "username")).1 = Ret ""
  ∧ (Reddit.SubmitPost Scenario.env Scenario.expired_listener_first
       "wss://silent" (FormBody [("kind", "image")])
       (Scenario.w0 "username")).1 = Panic.
Proof. repeat split; vm_compute; reflexivity. Qed.

Example waiter_cancelled_while_reading :
  (Reddit.waitForPostSuccess Scenario.env Scenario.expires_while_waiting
     "wss://silent" (Scenario.w0 "username")).1 = Fail DeadlineExceeded.
Proof. vm_compute. reflexivity. Qed.

(** ** Staged files (C7) *)

Lemma defer_Remove_unstages {A} name (m : M A) w :
  staged (defer (Remove name) m w).2 !! name = None.
Proof. unfold defer. destruct (m w). simpl. apply lookup_delete_eq. Qed.

Lemma staging_Ret E path what w file w1 :
  isValidURL E path = true →
  downloadLink E path w = (Ret file, w1) →
  (if isValidURL E path
   then do assetPath <- wrap what (downloadLink E path);
        ret (assetPath, true)
   else ret (path, false)) w = (Ret (file, true), w1).
Proof.
  intros -> Hdl. by rewrite (bind_Ret _ _ _ _ _ (wrap_Ret _ _ _ _ _ Hdl)).
Qed.

Lemma staging_Fail E path what w e w1 :
  isValidURL E path = true →
  downloadLink E path w = (Fail e, w1) →
  (if isValidURL E path
   then do assetPath <- wrap what (downloadLink E path);
        ret (assetPath, true)
   else ret (path, false)) w = (Fail (ErrWrap what e), w1).
Proof.
  intros -> Hdl. by rewrite (bind_Fail _ _ _ _ _ (wrap_Fail _ _ _ _ _ Hdl)).
Qed.

(** [UploadAsset] removes the file it staged, however it ends. *)
Lemma UploadAsset_unstages E path w file w1 :
  isValidURL E path = true →
  downloadLink E path w = (Ret file, w1) →
  staged (Reddit.UploadAsset E path w).2 !! file = None
  ∧ staged (RedditOld.UploadAsset E path w).2 !! file = None.
Proof.
  intros Hvalid Hdl.
  pose proof (staging_Ret E path ("downloading " +:+ path) w file w1
                Hvalid Hdl) as Hstage.
  unfold Reddit.UploadAsset, RedditOld.UploadAsset.
  rewrite !(bind_Ret _ _ _ _ _ Hstage).
  split; apply defer_Remove_unstages.
Qed.

(** So does [PostImage] of the first revision. *)
Lemma Monolith_PostImage_unstages E ctx req w wt file w1 :
  Monolith.img_Path req ≠ "" →
  wrap "setting oauth token" (Monolith.setToken E) w = (Ret (), wt) →
  isValidURL E (Monolith.img_Path req) = true →
  downloadLink E (Monolith.img_Path req) wt = (Ret file, w1) →
  staged (Monolith.PostImage E ctx req w).2 !! file = None.
Proof.
  intros Hpath Htoken Hvalid Hdl. unfold Monolith.PostImage.
  rewrite decide_False by done.
  rewrite (bind_Ret _ _ _ _ _ Htoken).
  pose proof (staging_Ret E _ ("downloading " +:+ Monolith.img_Path req)
                wt file w1 Hvalid Hdl) as Hstage.
  unfold Monolith.stage. rewrite (bind_Ret _ _ _ _ _ Hstage).
  apply defer_Remove_unstages.
Qed.

(** C7. [PostVideo] of the first revision downloads the video, then
    fails to download the thumbnail and returns before any [defer] is
    registered: the staged video stays, and nothing is removed. And in
    every revision, [downloadLink] returns without the name of the file
    it created when the copy of the body fails, as it does when the
    context is cancelled meanwhile: [UploadAsset] has nothing to remove,
    and the file stays. *)
Theorem PostVideo_leaves_staged_video :
  let r := Monolith.PostVideo Scenario.env Scenario.delivered
             (Scenario.video "https://link/video.mp4"
                "https://link/missing.jpeg")
             (Scenario.w0 "username") in
  let r' := Reddit.UploadAsset Scenario.env "https://link/slow.mp4"
              (Scenario.w0 "username") in
  isValidURL Scenario.env "https://link/video.mp4" = true
  ∧ isValidURL Scenario.env "https://link/missing.jpeg" = true
  ∧ r.1 = Fail (ErrWrap "downloading https://link/video.mp4"
                  (ErrNew "expectes status code 200, got 404"))
  ∧ temps_created (log r.2) = ["/tmp/redmed0.mp4"]
  ∧ temps_removed (log r.2) = []
  ∧ staged r.2 !! "/tmp/redmed0.mp4" = Some "mp4 bytes"
  ∧ r'.1 = Fail (ErrWrap "downloading https://link/slow.mp4" Canceled)
  ∧ temps_created (log r'.2) = ["/tmp/redmed0.mp4"]
  ∧ temps_removed (log r'.2) = []
  ∧ staged r'.2 !! "/tmp/redmed0.mp4" = Some "".
Proof. repeat split; vm_compute; reflexivity. Qed.

(** ** Token acquisition (C8) *)

(** A 401 that carries a token is taken for a success. *)
Lemma SetToken_accepts_401 : ¬ rejects_error_statuses SetToken.
Proof.
  intros Hspec.
  destruct (Hspec Scenario.env (Scenario.w0 "revoked")
              (Header_Set "Authorization" "Basic clientID:secret"
                 (Header_Set "User-Agent" "userAgent"
                    {| Method := "POST"; URL := tokenURL; Header := ∅;
                       Body := FormBody [("grant_type", "password");
                                         ("password", "password");
                                         ("username", "revoked")] |}))
              {| StatusCode := 401; RespBody := Ok "token.json" |})
    as [[e He] _].
  - vm_compute. reflexivity.
  - vm_compute. reflexivity.
  - simpl. lia.
  - vm_compute in He. discriminate.
Qed.

Example SetToken_unauthorized :
  SetToken Scenario.env (Scenario.w0 "unknown")
  = (Fail (ErrNew "no token in response"),
     emit (EvHTTP AtToken
             (Header_Set "Authorization" "Basic clientID:secret"
                (Header_Set "User-Agent" "userAgent"
                   {| Method := "POST"; URL := tokenURL; Header := ∅;
                      Body := FormBody [("grant_type", "password");
                                        ("password", "password");
                                        ("username", "unknown")] |})))
       (Scenario.w0 "unknown")).
Proof. vm_compute. reflexivity. Qed.

(** C8, amended. Token acquisition fails exactly when the request
    cannot be built or sent, the body of the response cannot be read or
    decoded, or the decoded token is empty, and then the stored token is
    what it was; otherwise the decoded token is stored. The status of the
    response plays no part, and the call neither panics nor blocks. *)
Theorem SetToken_outcome E w :
  match SetToken E w with
  | (Ret _, w') =>
      ∃ r resp raw,
        log w' = EvHTTP AtToken r :: log w
        ∧ httpDo E r = Ok resp
        ∧ RespBody resp = Ok raw
        ∧ jsonToken E raw = Ok (accessToken (self w'))
        ∧ accessToken (self w') ≠ ""
  | (Fail e, w') =>
      self w' = self w
      ∧ (urlParse E tokenURL = Err e ∧ log w' = log w
         ∨ ∃ r, log w' = EvHTTP AtToken r :: log w
                ∧ (httpDo E r = Err e
                   ∨ ∃ resp, httpDo E r = Ok resp
                       ∧ (RespBody resp = Err e
                          ∨ ∃ raw, RespBody resp = Ok raw
                              ∧ (jsonToken E raw = Err e
                                 ∨ jsonToken E raw = Ok ""
                                   ∧ e = ErrNew "no token in response"))))
  | _ => False
  end.
Proof.
  unfold SetToken, bind, get_self, NewRequestWithContext, Do, lift, ret, fail.
  destruct (urlParse E tokenURL) as [u|e]; simpl; [|by eauto].
  destruct (httpDo E _) as [resp|e] eqn:Hdo; simpl; [|by eauto 10].
  destruct (RespBody resp) as [raw|e] eqn:Hraw; simpl; [|by eauto 10].
  destruct (jsonToken E raw) as [t|e] eqn:Htok; simpl; [|by eauto 12].
  destruct (decide (t = "")) as [->|Ht]; simpl; [by eauto 15|].
  eexists _, resp, raw. eauto.
Qed.

(** ** The declared media type (C6) *)

Lemma mimeTypes_spec ext mime :
  mimeTypes !! ext = Some mime ↔ (ext, mime) ∈ media_types.
Proof.
  unfold mimeTypes, media_types. split.
  - rewrite !lookup_insert, lookup_empty.
    repeat case_decide; intros [= <-]; subst; set_solver.
  - rewrite !elem_of_cons, elem_of_nil.
    intros [[= -> ->]|[[= -> ->]|[[= -> ->]|[[= -> ->]|[[= -> ->]|[[= -> ->]|[]]]]]]];
      vm_compute; reflexivity.
Qed.

(** A download adds at most its own request to the requests made. *)
Lemma downloadLink_sites E link w :
  match (downloadLink E link w).1 with
  | Ret _ =>
      http_sites (log (downloadLink E link w).2) = AtDownload :: http_sites (log w)
  | Fail _ =>
      http_sites (log (downloadLink E link w).2) = http_sites (log w)
      ∨ http_sites (log (downloadLink E link w).2)
        = AtDownload :: http_sites (log w)
  | _ => False
  end.
Proof.
  unfold downloadLink, bind, NewRequestWithContext, Do, CreateTemp, Copy_to,
    ret, fail.
  destruct (urlParse E link); simpl; [|by left].
  destruct (httpDo E _) as [resp|]; simpl; [|by right].
  case_bool_decide; simpl; [by right|].
  destruct (osCreateTemp E _); simpl; [by right|].
  destruct (RespBody resp); simpl; [done|by right].
Qed.

Section Unsupported.
Context (E : Env) (path : string).
Hypothesis Hmime : mimeTypes !! Ext (Base path) = None.

Local Abbreviation unsupported :=
  (ErrNew (Ext (Base path) +:+ " not supported")).

Lemma uploadMedia_unsupported w :
  Monolith.uploadMedia E path w = (Fail unsupported, w).
Proof. unfold Monolith.uploadMedia. by rewrite Hmime. Qed.

Lemma UploadAsset_unsupported_local w :
  isValidURL E path = false →
  Reddit.UploadAsset E path w = (Fail unsupported, w)
  ∧ RedditOld.UploadAsset E path w = (Fail unsupported, w).
Proof.
  intros Hlocal. unfold Reddit.UploadAsset, RedditOld.UploadAsset.
  rewrite Hlocal. unfold bind, ret. simpl. by rewrite Hmime.
Qed.

Lemma UploadAsset_unsupported_remote w :
  isValidURL E path = true →
  let new := Reddit.UploadAsset E path w in
  let old := RedditOld.UploadAsset E path w in
  (new.1 = Fail unsupported
   ∧ http_sites (log new.2) = AtDownload :: http_sites (log w)
   ∨ (∃ e, new.1 = Fail (ErrWrap ("downloading " +:+ path) e))
     ∧ (http_sites (log new.2) = http_sites (log w)
        ∨ http_sites (log new.2) = AtDownload :: http_sites (log w)))
  ∧ old = new.
Proof.
  intros Hremote. simpl.
  pose proof (downloadLink_sites E path w) as Hdl.
  unfold Reddit.UploadAsset, RedditOld.UploadAsset.
  destruct (downloadLink E path w) as [[file|e| |] w1] eqn:Hd;
    simpl in Hdl; try done.
  - pose proof (staging_Ret E path ("downloading " +:+ path) w file w1
                  Hremote Hd) as Hstage.
    rewrite !(bind_Ret _ _ _ _ _ Hstage). simpl. rewrite Hmime.
    unfold defer, fail. simpl. split; [|done]. left. by rewrite Hdl.
  - pose proof (staging_Fail E path ("downloading " +:+ path) w e w1
                  Hremote Hd) as Hstage.
    rewrite !(bind_Fail _ _ _ _ _ Hstage). simpl. split; [|done].
    right. split; [by eexists|done].
Qed.
End Unsupported.

(** The path with an extension outside the table is a link: the file is
    downloaded before the extension is looked at. *)
Lemma UploadAsset_downloads_first :
  ¬ unsupported_is_immediate Reddit.UploadAsset.
Proof.
  intros Hspec.
  destruct (Hspec Scenario.env "https://link/notes.txt"
              (Scenario.w0 "username")) as [_ Hcalls].
  - vm_compute. reflexivity.
  - vm_compute in Hcalls. discriminate.
Qed.

(** The lease request is sent as soon as its address parses, and it
    declares the file name and the media type. *)
Lemma request_lease_log E fileName mimeType w u :
  urlParse E (baseURL +:+ "/api/media/asset.json") = Ok u →
  ∃ r, Body r = FormBody [("filepath", fileName); ("mimetype", mimeType)]
       ∧ log (request_lease E fileName mimeType w).2 = EvHTTP AtLease r :: log w.
Proof.
  intros Hparse.
  unfold request_lease, NewRequestWithContext. rewrite Hparse.
  unfold bind, ret, authorize, get_self, doRequest, Do, bind, lift, ret, fail,
    get_self.
  simpl. eexists. split; [|repeat case_match; simplify_eq; simpl; done].
  done.
Qed.

Lemma after_request_lease E {A} fileName mimeType (k : assetLeaseResponse → M A)
    w u :
  urlParse E (baseURL +:+ "/api/media/asset.json") = Ok u →
  (∀ ar, tame (λ _, True) (k ar)) →
  ∃ r l, Body r = FormBody [("filepath", fileName); ("mimetype", mimeType)]
         ∧ log (bind (request_lease E fileName mimeType) k w).2
           = l ++ EvHTTP AtLease r :: log w.
Proof.
  intros Hparse Hk.
  destruct (request_lease_log E fileName mimeType w u Hparse) as (r & Hr & Hlog).
  exists r. unfold bind.
  destruct (request_lease E fileName mimeType w) as [[ar|e| |] w1];
    simpl in Hlog; try (exists []; by split).
  destruct (k ar w1) as [r' w'] eqn:Hkw.
  destruct (Hk _ _ _ _ Hkw) as (_ & _ & l & Hl & _).
  exists l. simpl. by rewrite Hl, Hlog.
Qed.

(** C6, amended. The table of media types is the six pairs of the
    specification. For a path whose extension is in the table, every
    lease request of the upload declares the file's base name and the
    media type of the table, and for a local path the request is sent.
    For a path whose extension is not in the table, [uploadMedia] fails
    with the unsupported-type error and does nothing else; [UploadAsset]
    does the same for a local path, but downloads a link first: then it
    fails with the download's error, or, after the download, with the
    unsupported-type error, and the download is its only request. *)
Theorem media_type_selection E path w :
  (∀ ext mime, mimeTypes !! ext = Some mime ↔ (ext, mime) ∈ media_types)
  ∧ (∀ mime, mimeTypes !! Ext (Base path) = Some mime →
       (∃ l, log (Monolith.uploadMedia E path w).2 = l ++ log w
             ∧ Forall (upload_event (Base path) mime) l)
       ∧ (∃ l, log (RedditOld.UploadAsset E path w).2 = l ++ log w
               ∧ Forall (upload_event (Base path) mime) l)
       ∧ (∃ l, log (Reddit.UploadAsset E path w).2 = l ++ log w
               ∧ Forall (upload_event (Base path) mime) l)
       ∧ (∀ u, urlParse E (baseURL +:+ "/api/media/asset.json") = Ok u →
               isValidURL E path = false →
               ∀ upload, upload ∈ [(Monolith.uploadMedia E path w).2;
                                   (RedditOld.UploadAsset E path w).2;
                                   (Reddit.UploadAsset E path w).2] →
               ∃ r l, Body r = FormBody [("filepath", Base path);
                                         ("mimetype", mime)]
                      ∧ log upload = l ++ EvHTTP AtLease r :: log w))
  ∧ (mimeTypes !! Ext (Base path) = None →
       let unsupported := ErrNew (Ext (Base path) +:+ " not supported") in
       Monolith.uploadMedia E path w = (Fail unsupported, w)
       ∧ (isValidURL E path = false →
          Reddit.UploadAsset E path w = (Fail unsupported, w)
          ∧ RedditOld.UploadAsset E path w = (Fail unsupported, w))
       ∧ (isValidURL E path = true →
          let new := Reddit.UploadAsset E path w in
          (new.1 = Fail unsupported
           ∧ http_sites (log new.2) = AtDownload :: http_sites (log w)
           ∨ (∃ e, new.1 = Fail (ErrWrap ("downloading " +:+ path) e))
             ∧ (http_sites (log new.2) = http_sites (log w)
                ∨ http_sites (log new.2) = AtDownload :: http_sites (log w)))
          ∧ RedditOld.UploadAsset E path w = new)).
Proof.
  split; [apply mimeTypes_spec|]. split.
  - intros mime Hmime.
    assert (∀ ev, upload_event (Base path)
                    (default "" (mimeTypes !! Ext (Base path))) ev
                  → upload_event (Base path) mime ev) as HP
      by (by rewrite Hmime).
    split; [|split; [|split]].
    + destruct (Monolith.uploadMedia E path w) as [r w'] eqn:Hrun.
      by destruct (tame_uploadMedia _ E path HP _ _ _ Hrun) as (_ & _ & ?).
    + destruct (RedditOld.UploadAsset E path w) as [r w'] eqn:Hrun.
      by destruct (tame_RedditOld_UploadAsset _ E path HP _ _ _ Hrun)
        as (_ & _ & ?).
    + destruct (Reddit.UploadAsset E path w) as [r w'] eqn:Hrun.
      by destruct (tame_Reddit_UploadAsset _ E path HP _ _ _ Hrun)
        as (_ & _ & ?).
    + intros u Hparse Hlocal upload Hin.
      unfold Monolith.uploadMedia, RedditOld.UploadAsset, Reddit.UploadAsset
        in Hin.
      rewrite Hlocal in Hin. unfold bind at 1 11 in Hin. simpl in Hin.
      rewrite Hmime in Hin.
      apply elem_of_cons in Hin as [->|Hin];
        [|apply elem_of_cons in Hin as [->|Hin];
          [|apply list_elem_of_singleton in Hin as ->]].
      all: eapply after_request_lease; [done|]; intros ar.
      all: apply tame_bind; [apply tame_lift|]; intros uploadURL.
      all: apply tame_bind; [apply tame_Open|]; intros content.
      all: apply tame_bind_NewRequestWithContext; intros r _ _ _.
      all: apply tame_bind; [by apply tame_doRequest|]; intros resp.
      * apply tame_bind; [apply tame_lift|]. intros; apply tame_ret.
      * apply tame_bind; [apply tame_lift|]. intros; apply tame_ret.
      * case_decide; [apply tame_fail|apply tame_ret].
  - intros Hmime. simpl. split; [by apply uploadMedia_unsupported|]. split.
    + by apply UploadAsset_unsupported_local.
    + intros Hremote.
      destruct (UploadAsset_unsupported_remote E path Hmime w Hremote)
        as [Hnew Hold].
      split; [exact Hnew|exact Hold].
Qed.

(** ** The fan-out of a gallery (C2) *)

Section Join.
Context {A : Type} (upload : string → M A) (id_of : A → string).
Context (paths : list string).
Context (P : event → Prop).
Hypothesis upload_tame : ∀ path, tame P (upload path).

Local Abbreviation go := (closure upload id_of paths).

Lemma closure_tame i items : tame P (go i items).
Proof.
  unfold closure. destruct (paths !! i); [|apply tame_ret].
  apply tame_bind; [done|]. intros; apply tame_ret.
Qed.

(** The join waits for every goroutine, and none of them panics or
    blocks: it completes. *)
Lemma Wait_completes order items first w :
  ∃ itemsF firstF wF,
    Wait go order items first w = (Ret (itemsF, firstF), wF)
    ∧ self wF = self w
    ∧ ∃ l, log wF = l ++ log w ∧ Forall P l.
Proof.
  revert items first w.
  induction order as [|i order IH]; intros items first w; simpl.
  - eexists _, _, _. split; [done|]. split; [done|]. by exists [].
  - destruct (go i items w) as [r w1] eqn:Hgo.
    destruct (closure_tame _ _ _ _ _ Hgo) as (Hr & Hself & l1 & Hl1 & HP1).
    destruct r as [items1|e| |]; try done.
    + destruct (IH items1 first w1) as (? & ? & ? & -> & Hself' & l2 & Hl2 & HP2).
      eexists _, _, _. split; [done|]. split; [congruence|].
      exists (l2 ++ l1). rewrite Hl2, Hl1, app_assoc. split; [done|].
      by apply Forall_app.
    + destruct (IH items
                  (match first with Some e0 => Some e0 | None => Some e end) w1)
        as (? & ? & ? & -> & Hself' & l2 & Hl2 & HP2).
      eexists _, _, _. split; [done|]. split; [congruence|].
      exists (l2 ++ l1). rewrite Hl2, Hl1, app_assoc. split; [done|].
      by apply Forall_app.
Qed.

Lemma Wait_app order1 order2 items first w :
  Wait go (order1 ++ order2) items first w
  = match Wait go order1 items first w with
    | (Ret (items1, first1), w1) => Wait go order2 items1 first1 w1
    | (Fail e, w1) => (Fail e, w1)
    | (Panic, w1) => (Panic, w1)
    | (Blocked, w1) => (Blocked, w1)
    end.
Proof.
  revert items first w.
  induction order1 as [|i order1 IH]; intros items first w; simpl; [done|].
  destruct (go i items w) as [[items1|e| |] w1]; by rewrite ?IH.
Qed.

(** The first error stays. *)
Lemma Wait_keeps_error order items e w itemsF firstF wF :
  Wait go order items (Some e) w = (Ret (itemsF, firstF), wF) →
  firstF = Some e.
Proof.
  revert items w.
  induction order as [|i order IH]; intros items w; simpl.
  - by intros [= _ <- _].
  - destruct (go i items w) as [[items1|e'| |] w1]; try done; apply IH.
Qed.

(** A join without an error is a join without an error up to any point
    of it. *)
Lemma Wait_split order1 order2 items w itemsF wF :
  Wait go (order1 ++ order2) items None w = (Ret (itemsF, None), wF) →
  ∃ items1 w1,
    Wait go order1 items None w = (Ret (items1, None), w1)
    ∧ Wait go order2 items1 None w1 = (Ret (itemsF, None), wF).
Proof.
  rewrite Wait_app.
  destruct (Wait go order1 items None w) as [[[items1 [e|]]|e| |] w1];
    try done; intros H.
  - by apply Wait_keeps_error in H.
  - by exists items1, w1.
Qed.

(** A goroutine writes at its own index only. *)
Lemma Wait_untouched order items first w itemsF firstF wF :
  Wait go order items first w = (Ret (itemsF, firstF), wF) →
  length itemsF = length items
  ∧ ∀ j, j ∉ order → itemsF !! j = items !! j.
Proof.
  revert items first w.
  induction order as [|i order IH]; intros items first w; simpl.
  - by intros [= <- _ _].
  - unfold closure at 1.
    destruct (paths !! i) as [path|]; simpl.
    + unfold bind at 1.
      destruct (upload path w) as [[a|e| |] w1]; simpl; try done; intros H;
        apply IH in H as [Hlen Hother].
      * rewrite length_insert in Hlen. split; [done|].
        intros j Hj. apply not_elem_of_cons in Hj as [Hji Hj].
        rewrite Hother by done. by rewrite list_lookup_insert_ne.
      * split; [done|]. intros j Hj.
        apply not_elem_of_cons in Hj as [_ Hj]. by apply Hother.
    + intros H. apply IH in H as [Hlen Hother]. split; [done|].
      intros j Hj. apply not_elem_of_cons in Hj as [_ Hj]. by apply Hother.
Qed.

(** In a join without an error, the goroutine of [i] ran its upload
    after the goroutines before it, the upload returned, and what it
    wrote at [i] is still there at the end. *)
Lemma Wait_item pre i rest path items w itemsF wF :
  NoDup (pre ++ i :: rest) →
  (i < length items)%nat →
  paths !! i = Some path →
  Wait go (pre ++ i :: rest) items None w = (Ret (itemsF, None), wF) →
  ∃ items1 w1 a w2,
    Wait go pre items None w = (Ret (items1, None), w1)
    ∧ upload path w1 = (Ret a, w2)
    ∧ itemsF !! i = Some (Some (gallery_item (id_of a))).
Proof.
  intros Hnodup Hi Hpath H.
  apply Wait_split in H as (items1 & w1 & Hpre & H).
  exists items1, w1. simpl in H. unfold closure at 1 in H.
  rewrite Hpath in H. unfold bind at 1 in H.
  destruct (upload path w1) as [[a|e| |] w2]; simpl in H; try done.
  - exists a, w2. split; [done|]. split; [done|].
    apply Wait_untouched in H as [_ Hother].
    rewrite Hother.
    + apply list_lookup_insert_eq.
      apply Wait_untouched in Hpre as [-> _]. done.
    + apply NoDup_app in Hnodup as (_ & _ & Hnodup).
      by apply NoDup_cons in Hnodup as [? _].
  - by apply Wait_keeps_error in H.
Qed.

(** The error of the first upload that fails is the error of the join. *)
Lemma Wait_first_failure pre i rest path items w items1 w1 e w2 :
  paths !! i = Some path →
  Wait go pre items None w = (Ret (items1, None), w1) →
  upload path w1 = (Fail e, w2) →
  ∃ itemsF wF,
    Wait go (pre ++ i :: rest) items None w = (Ret (itemsF, Some e), wF).
Proof.
  intros Hpath Hpre Hfail. rewrite Wait_app, Hpre. simpl.
  unfold closure at 1. rewrite Hpath. unfold bind at 1. rewrite Hfail.
  destruct (Wait_completes rest items1 (Some e) w2)
    as (itemsF & firstF & wF & HW & _).
  rewrite HW. apply Wait_keeps_error in HW as ->. by eexists _, _.
Qed.

(** From the join to the call. *)
Lemma closure_all_or_nothing order w w1 post report submit :
  order ≡ₚ seq 0 (length paths) →
  (∀ ev, P ev → not_submission ev) →
  (∃ l, log w1 = l ++ log w ∧ Forall not_submission l) →
  (∀ items first wF,
     Wait go order (replicate (length paths) None) None w1
     = (Ret (items, first), wF) →
     post w = match first with
              | Some e => (Fail (report e), wF)
              | None => submit items wF
              end) →
  all_or_nothing upload id_of paths order w w1 post report submit.
Proof.
  intros Hperm HP (l0 & Hl0 & HP0) Hpost.
  assert (NoDup order) as Hnodup by (rewrite Hperm; apply NoDup_seq).
  split; [|split].
  - destruct (Wait_completes order (replicate (length paths) None) None w1)
      as (itemsF & firstF & wF & HW & _). by eexists _, _, _.
  - intros pre i rest path items1 w2 e w3 -> Hpath Hpre Hfail.
    destruct (Wait_first_failure pre i rest path _ _ _ _ _ _ Hpath Hpre Hfail)
      as (itemsF & wF & HW).
    exists wF. rewrite (Hpost _ _ _ HW).
    destruct (Wait_completes (pre ++ i :: rest)
                (replicate (length paths) None) None w1)
      as (? & ? & wF' & HW' & _ & l & Hl & HPl).
    rewrite HW in HW'. injection HW' as <- <- <-.
    exists (l ++ l0). rewrite Hl, Hl0, app_assoc. split; [done|]. split; [done|].
    apply Forall_app. split; [|done]. by eapply Forall_impl.
  - intros itemsF wF HW. rewrite (Hpost _ _ _ HW). split; [done|].
    split.
    { apply Wait_untouched in HW as [-> _]. apply length_replicate. }
    intros pre i rest path -> Hpath.
    eapply Wait_item; [done| |done|done].
    rewrite length_replicate. by eapply lookup_lt_Some.
Qed.
End Join.

Lemma upload_event_not_submission fileName mimeType ev :
  upload_event fileName mimeType ev → not_submission ev.
Proof. by destruct ev as [[] r| | | |]. Qed.

Lemma tame_UploadAsset E path :
  tame not_submission (Reddit.UploadAsset E path)
  ∧ tame not_submission (RedditOld.UploadAsset E path).
Proof.
  split.
  - apply tame_Reddit_UploadAsset. intros ev.
    apply upload_event_not_submission.
  - apply tame_RedditOld_UploadAsset. intros ev.
    apply upload_event_not_submission.
Qed.

(** Setting the token adds the request for it and nothing else. *)
Lemma SetToken_log E what w w1 :
  wrap what (SetToken E) w = (Ret (), w1) →
  ∃ l, log w1 = l ++ log w ∧ Forall not_submission l.
Proof.
  intros H. apply wrap_inv_Ret in H. revert H.
  unfold SetToken, bind, get_self, NewRequestWithContext, Do, lift, ret, fail.
  destruct (urlParse E tokenURL); simpl; [|done].
  destruct (httpDo E _) as [resp|]; simpl; [|done].
  destruct (RespBody resp) as [raw|]; simpl; [|done].
  destruct (jsonToken E raw) as [t|]; simpl; [|done].
  destruct (decide (t = "")); simpl; [done|].
  intros [= <-]. simpl. eexists [_]. split; [done|]. by repeat constructor.
Qed.

(** ** The goroutines of the first revision (C2) *)

Lemma joins_ret P {A} (a : A) : joins P (ret a).
Proof. intros w r w' [= <- <-]. split; [by eexists|]. split; [done|]. by exists []. Qed.

Lemma joins_bind P {A B} (m : M A) (k : A → M B) :
  joins P m → (∀ a, joins P (k a)) → joins P (bind m k).
Proof.
  intros Hm Hk w r w' H. unfold bind in H.
  destruct (m w) as [ra w1] eqn:Hmw.
  destruct (Hm _ _ _ Hmw) as ([a ->] & Hself & l1 & Hl1 & HP1).
  destruct (Hk _ _ _ _ H) as (Hr & Hself' & l2 & Hl2 & HP2).
  split; [done|]. split; [congruence|].
  exists (l2 ++ l1). rewrite Hl2, Hl1, app_assoc. split; [done|].
  by apply Forall_app.
Qed.

Lemma joins_settle P {A B} (m : M A) (ok : A → B) (bad : error → B) :
  tame P m → joins P (Monolith.settle m ok bad).
Proof.
  intros Hm w r w' H. unfold Monolith.settle in H.
  destruct (m w) as [[a|e| |] w1] eqn:Hmw;
    destruct (Hm _ _ _ Hmw) as (Hr & Hself & Hl); try done;
    injection H as <- <-; (split; [by eexists|done]).
Qed.

Lemma settle_inv {A B} (m : M A) (ok : A → B) (bad : error → B) w b w' :
  Monolith.settle m ok bad w = (Ret b, w') →
  (∃ a, m w = (Ret a, w') ∧ b = ok a) ∨ (∃ e, m w = (Fail e, w') ∧ b = bad e).
Proof.
  unfold Monolith.settle. destruct (m w) as [[a|e| |] w1]; try done.
  - intros [= <- <-]. left. by exists a.
  - intros [= <- <-]. right. by exists e.
Qed.

(** Without a name there is nothing to upload: [filepath.Base("")] is
    ["."], and no media type has this extension. *)
Lemma uploadMedia_empty E w :
  Monolith.uploadMedia E "" w = (Fail (ErrNew ". not supported"), w).
Proof. vm_compute. reflexivity. Qed.

Lemma staging_or_transfer_not_submission ev :
  staging_or_transfer ev → not_submission ev.
Proof. by destruct ev as [[] r| | | |]. Qed.

Section Racing.
Context (E : Env) (paths : list string).
Local Abbreviation step := (Monolith.step E paths).
Local Abbreviation run := (Monolith.Race E paths).
Local Abbreviation ran_download := (ran_download E paths).
Local Abbreviation race_inv := (race_inv E paths).

Lemma tame_closure_upload media didDownload :
  tame staging_or_transfer
    (Monolith.defer_remove didDownload media
       (wrap ("uploading " +:+ media) (Monolith.uploadMedia E media))).
Proof.
  assert (tame staging_or_transfer
            (wrap ("uploading " +:+ media) (Monolith.uploadMedia E media)))
    as Hup.
  { apply tame_wrap, tame_uploadMedia. by intros [[] r| | | |]. }
  unfold Monolith.defer_remove. destruct didDownload; [|done].
  by apply tame_defer_Remove.
Qed.

Lemma joins_reach_download path i st :
  joins staging_or_transfer (Monolith.reach_download E path i st).
Proof.
  unfold Monolith.reach_download.
  destruct (_ !! i); [apply joins_ret|].
  by apply joins_settle, tame_downloadLink.
Qed.

Lemma joins_step a st : joins staging_or_transfer (step a st).
Proof.
  destruct a as [i|i]; simpl.
  - destruct (paths !! i) as [path|]; [|apply joins_ret].
    destruct (isValidURL E path); [|apply joins_ret].
    apply joins_reach_download.
  - destruct (paths !! i) as [path|]; [|apply joins_ret].
    destruct (isValidURL E path).
    + apply joins_bind; [apply joins_reach_download|]. intros st1.
      destruct (Monolith.err st1); [apply joins_ret|].
      apply joins_settle, tame_closure_upload.
    + apply joins_settle, tame_closure_upload.
Qed.

Lemma joins_run sched st : joins staging_or_transfer (run sched st).
Proof.
  revert st. induction sched as [|a sched IH]; intros st; simpl.
  - apply joins_ret.
  - apply joins_bind; [apply joins_step|]. intros st1. apply IH.
Qed.

Lemma run_cons a sched st w stF wF :
  run (a :: sched) st w = (Ret stF, wF) →
  ∃ st1 w1, step a st w = (Ret st1, w1) ∧ run sched st1 w1 = (Ret stF, wF).
Proof. apply bind_inv_Ret. Qed.

Lemma run_app_Ret s1 s2 st w st1 w1 :
  run s1 st w = (Ret st1, w1) → run (s1 ++ s2) st w = run s2 st1 w1.
Proof.
  revert st w. induction s1 as [|a s1 IH]; intros st w H; simpl in *.
  - by injection H as <- <-.
  - apply bind_inv_Ret in H as (st2 & w2 & Ha & H).
    rewrite (bind_Ret _ _ _ _ _ Ha). by apply IH.
Qed.

Lemma run_app_inv s1 s2 st w stF wF :
  run (s1 ++ s2) st w = (Ret stF, wF) →
  ∃ st1 w1, run s1 st w = (Ret st1, w1) ∧ run s2 st1 w1 = (Ret stF, wF).
Proof.
  intros H. destruct (run s1 st w) as [r w1] eqn:H1.
  destruct (joins_run _ _ _ _ _ H1) as ([st1 ->] & _).
  exists st1, w1. split; [done|]. by rewrite <- (run_app_Ret _ s2 _ _ _ _ H1).
Qed.

(** What a move makes of the shared state. *)
Lemma reach_download_effect path i st w st1 w1 :
  paths !! i = Some path →
  Monolith.reach_download E path i st w = (Ret st1, w1) →
  ran_download i st st1 ∧ is_Some (Monolith.mediaPath st1 !! i).
Proof.
  intros Hpath. unfold Monolith.reach_download.
  destruct (Monolith.mediaPath st !! i) as [m|] eqn:Hm.
  { intros [= <- <-]. split; [by left|]. by rewrite Hm. }
  intros H. apply settle_inv in H as [(file & Hdl & ->)|(e & Hdl & ->)]; simpl.
  - split; [|by rewrite lookup_insert_eq]. right. split; [done|].
    eexists file, _. split; [done|]. right. by exists path, w, w1.
  - split; [|by rewrite lookup_insert_eq]. right. split; [done|].
    eexists "", _. split; [done|]. by left.
Qed.

Lemma upload_inv i media didDownload st1 w st' w' :
  Monolith.upload E i media didDownload st1 w = (Ret st', w') →
  (∃ e, st' = Monolith.returns e st1)
  ∨ ∃ up w3,
      Monolith.uploadMedia E media w = (Ret up, w3)
      ∧ st' = {| Monolith.items :=
                   <[i := Some (gallery_item up.1.1)]> (Monolith.items st1);
                 Monolith.err := Monolith.err st1;
                 Monolith.first := Monolith.first st1;
                 Monolith.mediaPath := Monolith.mediaPath st1 |}.
Proof.
  intros H. unfold Monolith.upload in H.
  apply settle_inv in H as [(up & Hup & ->)|(e & Hup & ->)];
    [|left; by exists e].
  right. exists up. unfold Monolith.defer_remove in Hup.
  destruct didDownload.
  - apply defer_inv in Hup as (w3 & Hup & _). exists w3.
    by apply wrap_inv_Ret in Hup.
  - exists w'. by apply wrap_inv_Ret in Hup.
Qed.

Lemma upload_effect i media didDownload st1 w st' w' :
  Monolith.upload E i media didDownload st1 w = (Ret st', w') →
  ran_rest i st1 st'.
Proof.
  intros H. apply upload_inv in H as [He|(up & w3 & _ & ->)];
    [by left|right; by eexists].
Qed.

Lemma step_effect a st w st' w' :
  step a st w = (Ret st', w') →
  match a with
  | Monolith.Download i => ran_download i st st'
  | Monolith.Finish i =>
      paths !! i = None ∧ st' = st
      ∨ ∃ st1, ran_download i st st1 ∧ ran_rest i st1 st'
  end.
Proof.
  destruct a as [i|i]; simpl.
  - destruct (paths !! i) as [path|] eqn:Hpath;
      [|intros [= <- <-]; by left].
    destruct (isValidURL E path); [|intros [= <- <-]; by left].
    intros H. by apply reach_download_effect in H as [H _].
  - destruct (paths !! i) as [path|] eqn:Hpath;
      [|intros [= <- <-]; by left].
    intros H. right. destruct (isValidURL E path) eqn:Hurl.
    + apply bind_inv_Ret in H as (st1 & w1 & Hreach & H).
      apply reach_download_effect in Hreach as [Hd _]; [|done].
      exists st1. split; [done|].
      destruct (Monolith.err st1) as [e|].
      * injection H as <- <-. left. by eexists.
      * by eapply upload_effect.
    + exists st. split; [by left|]. by eapply upload_effect.
Qed.

Lemma ran_download_inv i st st1 :
  race_inv st → ran_download i st st1 → race_inv st1.
Proof.
  intros Hinv [->|(Hnone & m & shared & -> & Hm)]; [done|].
  destruct Hinv as (Hlen & Hmedia). split; [done|]. simpl.
  intros j m' Hj. destruct (decide (j = i)) as [->|Hne].
  - rewrite lookup_insert_eq in Hj. by injection Hj as <-.
  - rewrite lookup_insert_ne in Hj by done. by eapply Hmedia.
Qed.

Lemma ran_rest_inv i st1 st' : race_inv st1 → ran_rest i st1 st' → race_inv st'.
Proof.
  intros Hinv [(e & ->)|(it & ->)]; [exact Hinv|].
  destruct Hinv as (Hlen & Hmedia). split; [|done]. simpl.
  by rewrite length_insert.
Qed.

Lemma step_inv a st w st' w' :
  race_inv st → step a st w = (Ret st', w') → race_inv st'.
Proof.
  intros Hinv H. apply step_effect in H. destruct a as [i|i].
  - by eapply ran_download_inv.
  - destruct H as [[_ ->]|(st1 & Hd & Hr)]; [done|].
    eapply ran_rest_inv; [|done]. by eapply ran_download_inv.
Qed.

Lemma run_inv sched st w stF wF :
  race_inv st → run sched st w = (Ret stF, wF) → race_inv stF.
Proof.
  revert st w. induction sched as [|a sched IH]; intros st w Hinv H.
  - by injection H as <- <-.
  - apply run_cons in H as (st1 & w1 & Ha & H).
    eapply IH; [|done]. by eapply step_inv.
Qed.

Lemma at_start_inv : race_inv (Monolith.at_start paths).
Proof.
  split; [apply length_replicate|]. simpl.
  intros i m Hm. by rewrite lookup_empty in Hm.
Qed.

(** The group keeps the first error. *)
Lemma ran_download_first i st st1 :
  ran_download i st st1 → Monolith.first st1 = Monolith.first st
                          ∧ Monolith.items st1 = Monolith.items st.
Proof. by intros [->|(_ & m & shared & -> & _)]. Qed.

Lemma ran_rest_first i st1 st' e :
  ran_rest i st1 st' → Monolith.first st1 = Some e → Monolith.first st' = Some e.
Proof. intros [(e' & ->)|(it & ->)] He; simpl; by rewrite He. Qed.

Lemma step_first a st w st' w' e :
  Monolith.first st = Some e → step a st w = (Ret st', w') →
  Monolith.first st' = Some e.
Proof.
  intros He H. apply step_effect in H. destruct a as [i|i].
  - apply ran_download_first in H as [-> _]. done.
  - destruct H as [[_ ->]|(st1 & Hd & Hr)]; [done|].
    eapply ran_rest_first; [done|].
    apply ran_download_first in Hd as [-> _]. done.
Qed.

Lemma run_first sched st w stF wF e :
  Monolith.first st = Some e → run sched st w = (Ret stF, wF) →
  Monolith.first stF = Some e.
Proof.
  revert st w. induction sched as [|a sched IH]; intros st w He H.
  - by injection H as <- <-.
  - apply run_cons in H as (st1 & w1 & Ha & H).
    eapply IH; [|done]. by eapply step_first.
Qed.

Lemma returns_first e st : Monolith.first (Monolith.returns e st) ≠ None.
Proof. simpl. by destruct (Monolith.first st). Qed.

(** A goroutine that ends without an error has uploaded its source and
    written its item. *)
Lemma Finish_uploaded i path st1 w2 st2 w3 :
  race_inv st1 → paths !! i = Some path →
  step (Monolith.Finish i) st1 w2 = (Ret st2, w3) →
  Monolith.first st2 = None →
  ∃ it, closure_uploaded E path i st1 w2 it
        ∧ Monolith.items st2 !! i = Some (Some it).
Proof.
  intros Hinv Hpath H Hnone.
  assert (i < length paths)%nat as Hi by by eapply lookup_lt_Some.
  simpl in H. rewrite Hpath in H. unfold closure_uploaded.
  destruct (isValidURL E path) eqn:Hurl.
  - apply bind_inv_Ret in H as (stD & wD & Hreach & H).
    destruct (reach_download_effect _ _ _ _ _ _ Hpath Hreach) as [Hd [m Hm]].
    destruct (ran_download_inv _ _ _ Hinv Hd) as [Hlen Hmedia].
    destruct (Monolith.err stD) as [e|] eqn:Herr.
    { injection H as <- <-. by apply returns_first in Hnone. }
    rewrite Hm in H. simpl in H.
    apply upload_inv in H as [(e & ->)|(up & wU & Hup & ->)];
      [by apply returns_first in Hnone|].
    exists (gallery_item up.1.1). split.
    + exists stD, wD, m, up, wU. split; [|done].
      split; [done|]. split; [done|]. split; [done|].
      destruct (Hmedia _ _ Hm) as [->|(path' & wd & wd' & Hpath' & Hdl)].
      * by rewrite uploadMedia_empty in Hup.
      * rewrite Hpath in Hpath'. injection Hpath' as <-. by exists wd, wd'.
    + simpl. apply list_lookup_insert_eq. by rewrite Hlen.
  - destruct Hinv as [Hlen _].
    apply upload_inv in H as [(e & ->)|(up & wU & Hup & ->)];
      [by apply returns_first in Hnone|].
    exists (gallery_item up.1.1). split.
    + by exists st1, w2, path, up, wU.
    + simpl. apply list_lookup_insert_eq. by rewrite Hlen.
Qed.

(** Only goroutine [i] writes [items[i]]. *)
Lemma step_untouched a i st w st' w' :
  a ≠ Monolith.Finish i → step a st w = (Ret st', w') →
  Monolith.items st' !! i = Monolith.items st !! i.
Proof.
  intros Ha H. apply step_effect in H. destruct a as [j|j].
  - apply ran_download_first in H as [_ ->]. done.
  - destruct H as [[_ ->]|(st1 & Hd & Hr)]; [done|].
    apply ran_download_first in Hd as [_ <-].
    destruct Hr as [(e & ->)|(it & ->)]; [done|]. simpl.
    apply list_lookup_insert_ne. congruence.
Qed.

Lemma run_untouched sched i st w stF wF :
  Monolith.Finish i ∉ sched → run sched st w = (Ret stF, wF) →
  Monolith.items stF !! i = Monolith.items st !! i.
Proof.
  revert st w. induction sched as [|a sched IH]; intros st w Hnot H.
  - by injection H as <- <-.
  - apply run_cons in H as (st1 & w1 & Ha & H).
    apply not_elem_of_cons in Hnot as [Hne Hnot].
    rewrite (IH _ _ Hnot H). by eapply step_untouched.
Qed.
End Racing.

Lemma completes_Finish n sched i :
  completes n sched → (i < n)%nat →
  ∃ pre rest, sched = pre ++ Monolith.Finish i :: rest
              ∧ Monolith.Finish i ∉ rest.
Proof.
  intros Hperm Hi.
  assert (i ∈ seq 0 n) as Hin by (apply elem_of_seq; lia).
  unfold completes in Hperm. rewrite <- Hperm in Hin.
  apply list_elem_of_omap in Hin as (a & Ha & Hf).
  destruct a as [j|j]; [done|]. injection Hf as ->.
  apply list_elem_of_split in Ha as (pre & rest & ->).
  exists pre, rest. split; [done|]. intros Hrest.
  assert (NoDup (seq 0 n)) as Hnodup by apply NoDup_seq.
  rewrite <- Hperm, omap_app in Hnodup. simpl in Hnodup.
  apply NoDup_app in Hnodup as (_ & _ & Hnodup).
  apply NoDup_cons in Hnodup as [Hnot _]. apply Hnot.
  apply list_elem_of_omap. by exists (Monolith.Finish i).
Qed.

Lemma Monolith_PostGallery_join E sched req w w1 stF wF :
  Monolith.gal_Paths req ≠ [] →
  wrap "setting oauth token" (SetToken E) w = (Ret (), w1) →
  Monolith.Race E (Monolith.gal_Paths req) sched
    (Monolith.at_start (Monolith.gal_Paths req)) w1 = (Ret stF, wF) →
  Monolith.PostGallery E sched req w
  = match Monolith.first stF with
    | Some e => (Fail e, wF)
    | None =>
        post_gallery E
          (JSONBody (Monolith.gallery_payload req (Monolith.items stF))) wF
    end.
Proof.
  intros Hpaths Htoken HW. unfold Monolith.PostGallery.
  rewrite decide_False by by destruct (Monolith.gal_Paths req).
  unfold Monolith.setToken. rewrite (bind_Ret _ _ _ _ _ Htoken).
  rewrite (bind_Ret _ _ _ _ _ HW). by destruct (Monolith.first stF).
Qed.

(** What the first revision makes of the uploads, for every schedule. *)
Lemma race_all_or_nothing_holds E req sched w w1 :
  completes (length (Monolith.gal_Paths req)) sched →
  Monolith.gal_Paths req ≠ [] →
  wrap "setting oauth token" (SetToken E) w = (Ret (), w1) →
  race_all_or_nothing E (Monolith.gal_Paths req) sched w w1
    (Monolith.PostGallery E sched req)
    (λ items, post_gallery E (JSONBody (Monolith.gallery_payload req items))).
Proof.
  intros Hsched Hpaths Htoken. unfold race_all_or_nothing. cbv zeta.
  set (paths := Monolith.gal_Paths req) in *.
  assert (∃ stF wF,
            Monolith.Race E paths sched (Monolith.at_start paths) w1
            = (Ret stF, wF)) as (stF & wF & HF).
  { destruct (Monolith.Race E paths sched (Monolith.at_start paths) w1)
      as [r wF] eqn:HF.
    destruct (joins_run E paths _ _ _ _ _ HF) as ([stF ->] & _).
    by exists stF, wF. }
  split; [by exists stF, wF|]. split.
  - intros pre a rest st1 w2 st2 w3 e -> Hpre _ Ha He.
    pose proof HF as HF'.
    rewrite (run_app_Ret E paths _ (a :: rest) _ _ _ _ Hpre) in HF.
    apply run_cons in HF as (st2' & w3' & Ha' & HF).
    rewrite Ha in Ha'. injection Ha' as <- <-.
    pose proof (run_first E paths _ _ _ _ _ _ He HF) as HeF.
    rewrite (Monolith_PostGallery_join E _ req w w1 stF wF Hpaths Htoken HF').
    rewrite HeF.
    destruct (joins_run E paths _ _ _ _ _ HF') as (_ & _ & l & Hl & HP).
    destruct (SetToken_log _ _ _ _ Htoken) as (l0 & Hl0 & HP0).
    exists wF, (l ++ l0). split; [done|].
    rewrite Hl, Hl0, app_assoc. split; [done|].
    apply Forall_app. split; [|done].
    eapply Forall_impl; [done|]. apply staging_or_transfer_not_submission.
  - intros stF' wF' HF' Hnone. rewrite HF in HF'. injection HF' as <- <-.
    rewrite (Monolith_PostGallery_join E _ req w w1 stF wF Hpaths Htoken HF).
    rewrite Hnone. split; [done|].
    pose proof (run_inv E paths _ _ _ _ _ (at_start_inv E paths) HF)
      as (Hlen & _).
    split; [done|]. intros i path Hpath.
    destruct (completes_Finish _ _ i Hsched) as (pre & rest & Hsplit & Hnot).
    { by eapply lookup_lt_Some. }
    rewrite Hsplit in HF.
    apply run_app_inv in HF as (st1 & w2 & Hpre & HF).
    apply run_cons in HF as (st2 & w3 & Ha & HF).
    assert (Monolith.first st2 = None) as Hnone2.
    { destruct (Monolith.first st2) as [e|] eqn:He; [|done].
      rewrite (run_first E paths _ _ _ _ _ _ He HF) in Hnone. done. }
    destruct (Finish_uploaded E paths i path st1 w2 st2 w3
                (run_inv E paths _ _ _ _ _ (at_start_inv E paths) Hpre)
                Hpath Ha Hnone2) as (it & Hup & Hit).
    exists pre, rest, st1, w2, it. split; [done|]. split; [done|].
    split; [done|].
    by rewrite (run_untouched E paths _ _ _ _ _ _ Hnot HF).
Qed.

Lemma Client_PostGallery_join c order req w w1 items first wF :
  Client.gal_Paths req ≠ [] →
  wrap "setting oauth token" (reddit_SetToken c) w = (Ret (), w1) →
  Wait (closure (reddit_UploadAsset c) ID (Client.gal_Paths req)) order
    (replicate (length (Client.gal_Paths req)) None) None w1
  = (Ret (items, first), wF) →
  Client.PostGallery c order req w
  = match first with
    | Some e => (Fail (ErrWrap "uploading asset" e), wF)
    | None =>
        wrap "submitting post"
          (reddit_SubmitGalleryPost c
             (JSONBody (Client.gallery_payload req items))) wF
    end.
Proof.
  intros Hpaths Htoken HW. unfold Client.PostGallery.
  rewrite decide_False by by destruct (Client.gal_Paths req).
  rewrite (bind_Ret _ _ _ _ _ Htoken).
  change (Client.gallery_upload c (Client.gal_Paths req))
    with (closure (reddit_UploadAsset c) ID (Client.gal_Paths req)).
  rewrite (bind_Ret _ _ _ _ _ HW). simpl. by destruct first.
Qed.


(** The closures of the first revision share the [err] of
    [PostGallery]. The first download fails with a 404 and the second
    succeeds. When no goroutine is preempted between lines 322 and 323,
    the error of the first download is returned. When both run line 322
    before either runs line 323: if the second wrote last, the first
    reads nil, goes on without a file, and the call returns an error
    that names no path; if the first wrote last, the second reads the
    error of the first and returns it under its own path, before its
    [defer]: the file it downloaded stays. *)
Example PostGallery_shared_err :
  let req := Scenario.gallery ["https://link/missing.jpeg";
                               "https://link/image.jpeg"] in
  let post sched :=
    Monolith.PostGallery Scenario.env sched req (Scenario.w0 "username") in
  let unpreempted := post [Monolith.Finish 0; Monolith.Finish 1]%nat in
  let reads_nil :=
    post [Monolith.Download 0; Monolith.Download 1;
          Monolith.Finish 0; Monolith.Finish 1]%nat in
  let reads_other :=
    post [Monolith.Download 1; Monolith.Download 0;
          Monolith.Finish 1; Monolith.Finish 0]%nat in
  unpreempted.1
  = Fail (ErrWrap "downloading https://link/missing.jpeg"
            (ErrNew "expectes status code 200, got 404"))
  ∧ reads_nil.1 = Fail (ErrWrap "uploading " (ErrNew ". not supported"))
  ∧ reads_other.1
    = Fail (ErrWrap "downloading https://link/image.jpeg"
              (ErrNew "expectes status code 200, got 404"))
  ∧ staged reads_other.2 !! "/tmp/redmed0.jpeg" = Some "jpeg bytes"
  ∧ temps_removed (log reads_other.2) = [].
Proof. repeat split; vm_compute; reflexivity. Qed.



(** The schedule does not show in what is submitted. *)
Example Monolith_PostGallery_orders :
  (Monolith.PostGallery Scenario.env
     [Monolith.Finish 1; Monolith.Finish 0]%nat
     (Scenario.gallery ["https://link/image.jpeg"; "testdata/testimg.jpeg"])
     (Scenario.w0 "username")).1 = Ret "t3_x1qxro"
  ∧ (Monolith.PostGallery Scenario.env
       [Monolith.Download 0; Monolith.Finish 1; Monolith.Finish 0]%nat
       (Scenario.gallery ["https://link/image.jpeg"; "testdata/testimg.jpeg"])
       (Scenario.w0 "username")).1 = Ret "t3_x1qxro".
Proof. split; vm_compute; reflexivity. Qed.

Lemma media_type_selection_witness :
  Reddit.UploadAsset Scenario.env "notes.txt" (Scenario.w0 "username")
  = (Fail (ErrNew ".txt not supported"), Scenario.w0 "username")
  ∧ ∃ l, log (Reddit.UploadAsset Scenario.env "testdata/testimg.jpeg"
                (Scenario.w0 "username")).2 = l ++ []
         ∧ Forall (upload_event "testimg.jpeg" "image/jpeg") l.
Proof.
  split.
  - destruct (media_type_selection Scenario.env "notes.txt"
                (Scenario.w0 "username")) as (_ & _ & Hnone).
    destruct (Hnone ltac:(vm_compute; reflexivity)) as (_ & Hlocal & _).
    by destruct (Hlocal ltac:(vm_compute; reflexivity)) as [-> _].
  - destruct (media_type_selection Scenario.env "testdata/testimg.jpeg"
                (Scenario.w0 "username")) as (_ & Hsome & _).
    destruct (Hsome "image/jpeg" ltac:(vm_compute; reflexivity))
      as (_ & _ & Hnew & _).
    exact Hnew.
Defined.

(** * Further properties *)

(** ** The waiter: one result, one connection *)

Section WaiterMore.
Context (E : Env) (failure : wsResponse → bool).

Lemma run_app sched more s :
  run E failure (sched ++ more) s = run E failure more (run E failure sched s).
Proof. unfold run. apply foldl_app. Qed.

Lemma returned_step a s r :
  returned s = Some r → returned (step E failure a s) = Some r.
Proof.
  intros Hr. destruct s as [c inc op g ret]. simpl in *. subst ret.
  destruct a as [d| | |]; simpl.
  - by destruct c.
  - destruct g; simpl; [by destruct c| |done|done].
    destruct op; [by destruct inc|done].
  - done.
  - done.
Qed.

Lemma returned_run sched s r :
  returned s = Some r → returned (run E failure sched s) = Some r.
Proof.
  unfold run. revert s.
  induction sched as [|a sched IH]; intros s Hs; simpl; [done|].
  by apply IH, returned_step.
Qed.

Lemma closed_on_return_step a s :
  closed_on_return s → closed_on_return (step E failure a s).
Proof.
  unfold closed_on_return.
  destruct s as [c inc op g ret]. simpl.
  destruct ret as [r|]; intros ->.
  - destruct a as [d| | |]; simpl; [by destruct c| |done|done].
    destruct g; simpl; [by destruct c|done..].
  - destruct a as [d| | |]; simpl.
    + by destruct c.
    + destruct g; simpl; [by destruct c|by destruct inc|done..].
    + by destruct c.
    + by destruct g.
Qed.

Lemma closed_on_return_run sched s :
  closed_on_return s → closed_on_return (run E failure sched s).
Proof.
  unfold run. revert s.
  induction sched as [|a sched IH]; intros s Hs; simpl; [done|].
  by apply IH, closed_on_return_step.
Qed.

Lemma abandoned_step a s : abandoned s → abandoned (step E failure a s).
Proof.
  unfold abandoned.
  destruct s as [c inc op g ret]. simpl.
  intros ([r ->] & -> & Hg).
  destruct a as [d| | |]; simpl.
  - destruct c; simpl; eauto.
  - destruct Hg as [->|(m & last & ->)]; simpl; eauto 10.
  - eauto.
  - eauto.
Qed.

Lemma abandoned_run sched s : abandoned s → abandoned (run E failure sched s).
Proof.
  unfold run. revert s.
  induction sched as [|a sched IH]; intros s Hs; simpl; [done|].
  by apply IH, abandoned_step.
Qed.
End WaiterMore.



(** X2. After a successful dial the connection is open as long as the
    waiter is in its select and closed as soon as it has returned,
    whatever the schedule; the close is logged exactly when the waiter
    returns, right after the dial. *)
Theorem waiter_closes_on_return E failure ctx addr frames w :
  addr ≠ "" →
  wsDial E addr = Ok frames →
  let s := run E failure (schedule ctx) (start ctx frames) in
  let r := waitForPostSuccessWith E failure ctx addr w in
  (returned s = None → conn_open s = true ∧ r = (Blocked, emit (EvDial addr) w))
  ∧ (∀ x, returned s = Some x →
          conn_open s = false
          ∧ r = (x, emit (EvClose addr) (emit (EvDial addr) w))).
Proof.
  intros Haddr Hdial. simpl.
  pose proof (closed_on_return_run E failure (schedule ctx) (start ctx frames)
                eq_refl) as Hinv.
  unfold closed_on_return in Hinv. unfold waitForPostSuccessWith.
  rewrite decide_False by done. rewrite Hdial.
  destruct (returned _) as [x|]; split; try done.
  intros x' [= <-]. done.
Qed.

Lemma waiter_closes_on_return_witness :
  waitForPostSuccessWith Scenario.env not_success_or_empty
    Scenario.expires_while_waiting "wss://silent" (Scenario.w0 "username")
  = (Fail DeadlineExceeded,
     emit (EvClose "wss://silent")
       (emit (EvDial "wss://silent") (Scenario.w0 "username"))).
Proof.
  destruct (waiter_closes_on_return Scenario.env not_success_or_empty
              Scenario.expires_while_waiting "wss://silent" []
              (Scenario.w0 "username") ltac:(done) ltac:(reflexivity))
    as [_ Hret].
  by destruct (Hret (Fail DeadlineExceeded) ltac:(reflexivity)) as [_ ->].
Defined.


(** X4. A read error on the websocket, or a message that is not JSON,
    ends the wait with an error: under every schedule that does not
    cancel the context the waiter returns that error or is still blocked,
    and it returns it once the listener has read and handed over. *)
Theorem waiter_channel_errors E failure ctx addr f rest w :
  addr ≠ "" →
  wsDial E addr = Ok (f :: rest) →
  done0 ctx = None →
  cancel_free (schedule ctx) →
  let r := (waitForPostSuccessWith E failure ctx addr w).1 in
  let handed_over :=
    (waitForPostSuccessWith E failure
       {| done0 := None; schedule := [Listen; Listen; SelectMsg] |}
       addr w).1 in
  match f with
  | ReadError e =>
      (r = Blocked ∨ r = Fail (ErrWrap "reading websocket message" e))
      ∧ handed_over = Fail (ErrWrap "reading websocket message" e)
  | Message message =>
      ∀ e, jsonWs E message = Err e →
           (r = Blocked
            ∨ r = Fail (ErrWrap "unmarshalling websocket message" e))
           ∧ handed_over = Fail (ErrWrap "unmarshalling websocket message" e)
  end.
Proof.
  intros Haddr Hdial Hlive Hfree. cbv zeta.
  pose proof (waiter_returns_verdict E failure ctx addr f rest w
                Haddr Hdial Hlive Hfree) as Hany.
  pose proof (waiter_delivers E failure addr f rest w Haddr Hdial) as Hone.
  destruct f as [e|message].
  - done.
  - intros e He. unfold verdict in Hany, Hone. simpl in Hany, Hone.
    by rewrite He in Hany, Hone.
Qed.

Lemma waiter_channel_errors_witness :
  (waitForPostSuccessWith faulty_env failed_or_empty Scenario.delivered
     "wss://drop" (Scenario.w0 "username")).1
  = Fail (ErrWrap "reading websocket message" (ErrNew "unexpected EOF"))
  ∧ (waitForPostSuccessWith faulty_env not_success_or_empty Scenario.delivered
       "wss://garbage" (Scenario.w0 "username")).1
    = Fail (ErrWrap "unmarshalling websocket message"
              (ErrNew "unexpected end of JSON input")).
Proof.
  split.
  - destruct (waiter_channel_errors faulty_env failed_or_empty
                Scenario.delivered "wss://drop"
                (ReadError (ErrNew "unexpected EOF")) []
                (Scenario.w0 "username")
                ltac:(done) ltac:(reflexivity) ltac:(reflexivity)
                ltac:(repeat constructor)) as [_ H].
    exact H.
  - pose proof (waiter_channel_errors faulty_env not_success_or_empty
                  Scenario.delivered "wss://garbage" (Message "garbage") []
                  (Scenario.w0 "username")
                  ltac:(done) ltac:(reflexivity) ltac:(reflexivity)
                  ltac:(repeat constructor)) as H.
    destruct (H (ErrNew "unexpected end of JSON input") ltac:(reflexivity))
      as [_ H'].
    exact H'.
Defined.

(** ** What goes over the wire *)

Lemma tame_at_of_tame c P {A} (m : M A) : tame P m → tame_at c P m.
Proof.
  intros Hm w r w' Hc H. destruct (Hm _ _ _ H) as (Hr & Hself & Hl).
  split; [done|]. split; [congruence|done].
Qed.

Lemma tame_at_bind c P {A B} (m : M A) (k : A → M B) :
  tame_at c P m → (∀ a, tame_at c P (k a)) → tame_at c P (bind m k).
Proof.
  intros Hm Hk w r w' Hc H. unfold bind in H.
  destruct (m w) as [[a|e| |] w1] eqn:Hmw;
    destruct (Hm _ _ _ Hc Hmw) as (Hr & Hself & l1 & Hl1 & HP1); try done.
  - destruct (Hk _ _ _ _ Hself H) as (Hr' & Hself' & l2 & Hl2 & HP2).
    split; [done|]. split; [done|].
    exists (l2 ++ l1). rewrite Hl2, Hl1, app_assoc. split; [done|].
    by apply Forall_app.
  - injection H as <- <-. eauto.
Qed.

Lemma tame_at_wrap c P {A} what (m : M A) :
  tame_at c P m → tame_at c P (wrap what m).
Proof.
  intros Hm w r w' Hc H. unfold wrap in H.
  destruct (m w) as [[a|e| |] w1] eqn:Hmw;
    destruct (Hm _ _ _ Hc Hmw) as (Hr & Hself & l1 & Hl1 & HP1); try done;
    injection H as <- <-; eauto.
Qed.

Lemma tame_at_defer_Remove c P {A} name (m : M A) :
  P (EvRemove name) → tame_at c P m → tame_at c P (defer (Remove name) m).
Proof.
  intros HP Hm w r w' Hc H. unfold defer in H.
  destruct (m w) as [r1 w1] eqn:Hmw. injection H as <- <-.
  destruct (Hm _ _ _ Hc Hmw) as (Hr & Hself & l1 & Hl1 & HP1).
  split; [done|]. split; [done|]. exists (EvRemove name :: l1). simpl.
  rewrite Hl1. split; [done|]. by constructor.
Qed.

Lemma tame_at_bind_request c P E {B} what method addr b (k : request → M B) :
  tame_at c P (k {| Method := method; URL := addr; Header := ∅; Body := b |}) →
  tame_at c P (bind (NewRequestWithContext E method addr b) k)
  ∧ tame_at c P (bind (wrap what (NewRequestWithContext E method addr b)) k).
Proof.
  intros Hk. unfold NewRequestWithContext.
  destruct (urlParse E addr); split; intros w r w' Hc H.
  - by apply (Hk w).
  - by apply (Hk w).
  - injection H as <- <-. repeat split; [done|]. by exists [].
  - injection H as <- <-. repeat split; [done|]. by exists [].
Qed.

Lemma tame_at_bind_authorize c P {B} r (k : request → M B) :
  tame_at c P
    (k (Header_Set "Authorization" ("bearer " +:+ accessToken c) r)) →
  tame_at c P (bind (authorize r) k).
Proof.
  intros Hk w r' w' Hc H. unfold bind, authorize in H. simpl in H.
  rewrite Hc in H. by apply (Hk w).
Qed.

Lemma tame_at_doRequest c P E {T} site r contentType
    (v : option (string → result T)) :
  P (EvHTTP site
       (Header_Set "Content-Type"
          (if decide (contentType = "")
           then "application/x-www-form-urlencoded" else contentType)
          (Header_Set "User-Agent" (userAgent c) r))) →
  tame_at c P (doRequest E site r contentType v).
Proof.
  intros HP w r' w' Hc H. unfold doRequest in H.
  unfold bind at 1 in H. simpl in H. rewrite Hc in H.
  revert H. apply tame_at_of_tame; [|done].
  apply tame_bind; [by apply tame_Do|]. intros resp.
  apply tame_bind; [apply tame_lift|]. intros respBytes.
  case_bool_decide; [apply tame_fail|].
  destruct v as [unmarshal|]; [|apply tame_ret].
  destruct (unmarshal respBytes); [apply tame_ret|apply tame_fail].
Qed.

Ltac headers :=
  simpl; repeat split;
  rewrite ?lookup_insert_eq; try done;
  repeat (rewrite lookup_insert_ne by discriminate);
  rewrite ?lookup_insert_eq, ?lookup_empty; done.

Lemma wire_request_lease c E fileName mimeType :
  tame_at c (wire_policy c) (request_lease E fileName mimeType).
Proof.
  unfold request_lease.
  apply (tame_at_bind_request c _ E ""). apply tame_at_bind_authorize.
  apply tame_at_bind; [|intros; apply tame_at_of_tame, tame_ret].
  apply tame_at_doRequest. headers.
Qed.

Lemma wire_post_submit c E b : tame_at c (wire_policy c) (post_submit E b).
Proof.
  unfold post_submit.
  apply (tame_at_bind_request c _ E "creating http request").
  apply tame_at_bind_authorize.
  apply tame_at_bind; [|intros; apply tame_at_of_tame, tame_ret].
  apply tame_at_wrap, tame_at_doRequest. headers.
Qed.

Lemma wire_post_gallery c E b : tame_at c (wire_policy c) (post_gallery E b).
Proof.
  unfold post_gallery.
  apply (tame_at_bind_request c _ E "creating http request").
  apply tame_at_bind_authorize.
  apply tame_at_bind; [apply tame_at_wrap, tame_at_doRequest; headers|].
  intros resp. apply tame_at_of_tame.
  case_decide; [apply tame_fail|apply tame_ret].
Qed.

Lemma wire_downloadLink c E link :
  tame_at c (wire_policy c) (downloadLink E link).
Proof.
  unfold downloadLink.
  apply (tame_at_bind_request c _ E "").
  apply tame_at_of_tame.
  apply tame_bind; [by apply tame_Do|]. intros resp.
  case_bool_decide; [apply tame_fail|].
  apply tame_bind; [by apply tame_CreateTemp|]. intros file.
  apply tame_bind; [apply tame_Copy_to|]. intros _. apply tame_ret.
Qed.

Lemma wire_staging c E {A} path what (k : string * bool → M A) :
  (∀ p, tame_at c (wire_policy c) (k p)) →
  tame_at c (wire_policy c)
    (bind (if isValidURL E path
           then do assetPath <- wrap what (downloadLink E path);
                ret (assetPath, true)
           else ret (path, false)) k).
Proof.
  intros Hk. apply tame_at_bind; [|done].
  destruct (isValidURL E path); [|apply tame_at_of_tame, tame_ret].
  apply tame_at_bind; [|intros; apply tame_at_of_tame, tame_ret].
  apply tame_at_wrap, wire_downloadLink.
Qed.

Lemma wire_uploadMedia c E path :
  tame_at c (wire_policy c) (Monolith.uploadMedia E path).
Proof.
  unfold Monolith.uploadMedia.
  destruct (mimeTypes !! Ext (Base path)) as [mime|];
    [|apply tame_at_of_tame, tame_fail].
  apply tame_at_bind; [apply wire_request_lease|]. intros ar.
  apply tame_at_bind; [apply tame_at_of_tame, tame_lift|]. intros uploadURL.
  apply tame_at_bind; [apply tame_at_of_tame, tame_Open|]. intros content.
  apply (tame_at_bind_request c _ E "").
  apply tame_at_bind; [apply tame_at_doRequest; headers|].
  intros resp. apply tame_at_of_tame.
  apply tame_bind; [apply tame_lift|]. intros; apply tame_ret.
Qed.

Lemma wire_UploadAsset c E path :
  tame_at c (wire_policy c) (Reddit.UploadAsset E path)
  ∧ tame_at c (wire_policy c) (RedditOld.UploadAsset E path).
Proof.
  split.
  - unfold Reddit.UploadAsset. apply wire_staging.
    intros [assetPath didDownload].
    assert (∀ {A} (m : M A), tame_at c (wire_policy c) m →
              tame_at c (wire_policy c)
                ((if didDownload then defer (Remove assetPath) else id) m))
      as Hdefer.
    { intros A m Hm. destruct didDownload; [|done].
      by apply tame_at_defer_Remove. }
    apply Hdefer. simpl.
    destruct (mimeTypes !! Ext (Base path)) as [mime|];
      [|apply tame_at_of_tame, tame_fail].
    apply tame_at_bind; [apply wire_request_lease|]. intros ar.
    apply tame_at_bind; [apply tame_at_of_tame, tame_lift|]. intros uploadURL.
    apply tame_at_bind; [apply tame_at_of_tame, tame_Open|]. intros content.
    apply (tame_at_bind_request c _ E "").
    apply tame_at_bind; [apply tame_at_doRequest; headers|].
    intros resp. apply tame_at_of_tame.
    case_decide; [apply tame_fail|apply tame_ret].
  - unfold RedditOld.UploadAsset. apply wire_staging.
    intros [assetPath didDownload].
    assert (∀ {A} (m : M A), tame_at c (wire_policy c) m →
              tame_at c (wire_policy c)
                ((if didDownload then defer (Remove assetPath) else id) m))
      as Hdefer.
    { intros A m Hm. destruct didDownload; [|done].
      by apply tame_at_defer_Remove. }
    apply Hdefer. simpl.
    destruct (mimeTypes !! Ext (Base path)) as [mime|];
      [|apply tame_at_of_tame, tame_fail].
    apply tame_at_bind; [apply wire_request_lease|]. intros ar.
    apply tame_at_bind; [apply tame_at_of_tame, tame_lift|]. intros uploadURL.
    apply tame_at_bind; [apply tame_at_of_tame, tame_Open|]. intros content.
    apply (tame_at_bind_request c _ E "").
    apply tame_at_bind; [apply tame_at_doRequest; headers|].
    intros resp. apply tame_at_of_tame.
    apply tame_bind; [apply tame_lift|]. intros; apply tame_ret.
Qed.

Lemma tame_at_log c P {A} (m : M A) w :
  tame_at c P m → self w = c →
  ∃ l, log (m w).2 = l ++ log w ∧ Forall P l.
Proof.
  intros Hm Hc. destruct (m w) as [r w'] eqn:Hrun.
  by destruct (Hm _ _ _ Hc Hrun) as (_ & _ & ?).
Qed.

Lemma SetToken_wire E w :
  ∃ l, log (SetToken E w).2 = l ++ log w ∧ Forall (token_policy (self w)) l.
Proof.
  unfold SetToken, bind, get_self, NewRequestWithContext, Do, lift, ret, fail.
  destruct (urlParse E tokenURL); simpl; [|by exists []].
  assert (token_policy (self w)
            (EvHTTP AtToken
               (Header_Set "Authorization"
                  ("Basic " +:+ clientID (self w) +:+ ":" +:+ secret (self w))
                  (Header_Set "User-Agent" (userAgent (self w))
                     {| Method := "POST"; URL := tokenURL; Header := ∅;
                        Body := FormBody [("grant_type", "password");
                                          ("password", password (self w));
                                          ("username", username (self w))] |}))))
    as Hreq by headers.
  destruct (httpDo E _) as [resp|]; simpl;
    [|eexists [_]; split; [done|]; by constructor].
  destruct (RespBody resp) as [raw|]; simpl;
    [|eexists [_]; split; [done|]; by constructor].
  destruct (jsonToken E raw) as [t|]; simpl;
    [|eexists [_]; split; [done|]; by constructor].
  destruct (decide (t = "")); simpl;
    eexists [_]; (split; [done|]); by constructor.
Qed.

(** X5. What goes over the wire. Every request that the negotiation of a
    lease, the submission of a post and the submission of a gallery send
    is a POST to its endpoint that carries the bearer token of the
    client, its user agent and its content type; the transfer to the
    storage endpoint carries the user agent and the multipart content
    type but not the token; the download of a link is a GET without any
    header; and the request for a token is a POST to the token endpoint
    with basic authentication, the user agent, the password grant, and no
    content type. An upload neither asks for a token nor dials. *)
Theorem wire_contract E path b w :
  (∃ l, log (Monolith.uploadMedia E path w).2 = l ++ log w
        ∧ Forall (wire_policy (self w)) l)
  ∧ (∃ l, log (RedditOld.UploadAsset E path w).2 = l ++ log w
          ∧ Forall (wire_policy (self w)) l)
  ∧ (∃ l, log (Reddit.UploadAsset E path w).2 = l ++ log w
          ∧ Forall (wire_policy (self w)) l)
  ∧ (∃ l, log (post_submit E b w).2 = l ++ log w
          ∧ Forall (wire_policy (self w)) l)
  ∧ (∃ l, log (Reddit.SubmitGalleryPost E b w).2 = l ++ log w
          ∧ Forall (wire_policy (self w)) l)
  ∧ (∃ l, log (SetToken E w).2 = l ++ log w
          ∧ Forall (token_policy (self w)) l).
Proof.
  split; [|split; [|split; [|split; [|split]]]].
  - apply (tame_at_log (self w)); [apply wire_uploadMedia|done].
  - apply (tame_at_log (self w)); [apply wire_UploadAsset|done].
  - apply (tame_at_log (self w)); [apply wire_UploadAsset|done].
  - apply (tame_at_log (self w)); [apply wire_post_submit|done].
  - apply (tame_at_log (self w)); [apply wire_post_gallery|done].
  - apply SetToken_wire.
Qed.

(** ** The anatomy of an upload *)

Lemma doRequest_inv_Ret E {T} site r contentType
    (v : option (string → result T)) w x w' :
  doRequest E site r contentType v w = (Ret x, w') →
  let r' := Header_Set "Content-Type"
              (if decide (contentType = "")
               then "application/x-www-form-urlencoded" else contentType)
              (Header_Set "User-Agent" (userAgent (self w)) r) in
  answered E r' x.1
  ∧ match v with
    | None => x.2 = None
    | Some unmarshal => ∃ t, unmarshal x.1 = Ok t ∧ x.2 = Some t
    end
  ∧ w' = emit (EvHTTP site r') w.
Proof.
  unfold doRequest, bind, get_self, Do, lift, ret, fail. simpl.
  destruct (httpDo E _) as [resp|e] eqn:Hdo; simpl; [|done].
  destruct (RespBody resp) as [raw|e] eqn:Hraw; simpl; [|done].
  case_bool_decide as Hstatus; simpl; [done|].
  assert (StatusCode resp = 200 ∨ StatusCode resp = 201) as Hok.
  { destruct (decide (StatusCode resp = 200)); [by left|].
    destruct (decide (StatusCode resp = 201)); [by right|].
    by destruct Hstatus. }
  destruct v as [unmarshal|].
  - destruct (unmarshal raw) as [t|e] eqn:Hu; simpl; [|done].
    intros [= <- <-]. simpl. split; [by exists resp|]. split; [|done].
    by exists t.
  - intros [= <- <-]. simpl. split; [by exists resp|]. done.
Qed.

Lemma request_lease_inv_Ret E fileName mimeType w ar w' :
  request_lease E fileName mimeType w = (Ret ar, w') →
  ∃ rl raw,
    Method rl = "POST" ∧ URL rl = baseURL +:+ "/api/media/asset.json"
    ∧ Body rl = FormBody [("filepath", fileName); ("mimetype", mimeType)]
    ∧ answered E rl raw
    ∧ jsonLease E raw = Ok ar
    ∧ w' = emit (EvHTTP AtLease rl) w.
Proof.
  unfold request_lease, NewRequestWithContext.
  destruct (urlParse E _); [|done].
  unfold bind at 1. unfold ret at 1. unfold bind at 1. unfold authorize at 1.
  unfold bind at 1. unfold get_self at 1. unfold ret at 1. intros H.
  apply bind_inv_Ret in H as (lease & w1 & Hreq & H).
  apply doRequest_inv_Ret in Hreq as (Hans & (t & Ht & Hlease) & ->).
  injection H as <- <-. rewrite Hlease. simpl.
  eexists _, _. repeat split; [..|exact Hans|exact Ht]; done.
Qed.

Lemma downloadLink_inv_Ret E link w file w1 :
  downloadLink E link w = (Ret file, w1) →
  let rd := {| Method := "GET"; URL := link; Header := ∅; Body := NoBody |} in
  ∃ resp content,
    httpDo E rd = Ok resp ∧ StatusCode resp = 200 ∧ RespBody resp = Ok content
    ∧ file = temp_name E (created w) (Ext link)
    ∧ self w1 = self w
    ∧ staged w1 = <[file := content]> (<[file := ""]> (staged w))
    ∧ created w1 = S (created w)
    ∧ log w1 = EvCreateTemp file :: EvHTTP AtDownload rd :: log w.
Proof.
  unfold downloadLink, bind, NewRequestWithContext, Do, CreateTemp, Copy_to,
    ret, fail.
  destruct (urlParse E link); simpl; [|done].
  destruct (httpDo E _) as [resp|]; simpl; [|done].
  case_bool_decide as Hstatus; simpl; [done|].
  destruct (osCreateTemp E _); simpl; [done|].
  destruct (RespBody resp) as [content|] eqn:Hbody; simpl; [|done].
  intros [= <- <-]. simpl. exists resp, content.
  repeat split; try done.
  all: destruct (decide (StatusCode resp = 200)); [done|by destruct Hstatus].
Qed.

Lemma Open_staged E path w w2 :
  staged w2 = staged w → (Open E path w2).1 = (Open E path w).1.
Proof.
  intros Hs. unfold Open. rewrite Hs.
  destruct (staged w !! path); [done|]. by destruct (osOpen E path).
Qed.

Lemma Open_inv_Ret E path w content w' :
  Open E path w = (Ret content, w') → w' = w.
Proof.
  unfold Open. destruct (staged w !! path); [by intros [= _ <-]|].
  destruct (osOpen E path); simpl; [by intros [= _ <-]|done].
Qed.

(** A successful transfer, step by step. *)
Lemma Reddit_transfer_inv_Ret E path assetPath w a w' :
  Reddit_transfer E path assetPath w = (Ret a, w') →
  ∃ mime rl rawl ar u content ru rawu,
    mimeTypes !! Ext (Base path) = Some mime
    ∧ Method rl = "POST" ∧ URL rl = baseURL +:+ "/api/media/asset.json"
    ∧ Body rl = FormBody [("filepath", Base path); ("mimetype", mime)]
    ∧ answered E rl rawl ∧ jsonLease E rawl = Ok ar
    ∧ urlParse E ("https:" +:+ Action ar) = Ok u
    ∧ (Open E assetPath w).1 = Ret content
    ∧ Method ru = "POST" ∧ URL ru = String_ u
    ∧ Body ru = MultipartBody (form_fields (Fields ar)) (Base path) content
    ∧ answered E ru rawu ∧ xmlLocation E rawu = Ok (Location a)
    ∧ Location a ≠ ""
    ∧ ID a = AssedID ar ∧ WebSocket a = WebsocketURL ar
    ∧ log w' = EvHTTP AtUpload ru :: EvHTTP AtLease rl :: log w
    ∧ self w' = self w ∧ staged w' = staged w ∧ created w' = created w.
Proof.
  unfold Reddit_transfer. simpl.
  destruct (mimeTypes !! Ext (Base path)) as [mime|]; [|done]. intros H.
  apply bind_inv_Ret in H as (ar & w1 & Hlease & H).
  apply request_lease_inv_Ret in Hlease
    as (rl & rawl & Hml & Hul & Hbl & Hansl & Hjl & ->).
  apply bind_inv_Ret in H as (u & w2 & Hu & H).
  destruct (urlParse E _) as [u'|] eqn:Hparse; [|done].
  injection Hu as <- <-.
  apply bind_inv_Ret in H as (content & w3 & Hopen & H).
  pose proof (Open_inv_Ret _ _ _ _ _ Hopen) as ->.
  apply bind_inv_Ret in H as (r & w4 & Hr & H).
  unfold NewRequestWithContext in Hr.
  destruct (urlParse E (String_ u')); [|done]. injection Hr as <- <-.
  apply bind_inv_Ret in H as (resp & w5 & Hreq & H).
  apply doRequest_inv_Ret in Hreq as (Hansu & (loc & Hloc & Hresp) & ->).
  rewrite Hresp in H. simpl in H. case_decide; [done|].
  injection H as <- <-. simpl.
  eexists mime, rl, rawl, ar, u', content, _, _.
  repeat split; try done; try exact Hansu.
  rewrite <-(Open_staged E assetPath w (emit (EvHTTP AtLease rl) w) eq_refl).
  by rewrite Hopen.
Qed.

Lemma Reddit_UploadAsset_unfold E path :
  Reddit.UploadAsset E path
  = bind (if isValidURL E path
          then do assetPath <- wrap ("downloading " +:+ path)
                                 (downloadLink E path);
               ret (assetPath, true)
          else ret (path, false))
      (λ staged,
         let '(assetPath, didDownload) := staged in
         (if didDownload then defer (Remove assetPath) else id)
           (Reddit_transfer E path assetPath)).
Proof. reflexivity. Qed.

(** X6. The anatomy of a successful upload of a local file by
    [UploadAsset] of the newer [reddit.go]. The extension of the base
    name is in the table; exactly two requests are sent, the lease
    request and then the transfer; the lease request declares the base
    name and the media type and is answered with 200 or 201 by a
    document that decodes to the lease; the transfer goes to the address
    that [https:] and the lease's action parse to, with the fields of
    the lease in their order, the base name and the content of the file;
    the asset carries the id and the websocket address of the lease and
    the location, not empty, that the answer of the transfer decodes to;
    nothing is staged or created. *)
Theorem UploadAsset_local_anatomy E path w a w' :
  isValidURL E path = false →
  Reddit.UploadAsset E path w = (Ret a, w') →
  ∃ mime rl rawl ar u content ru rawu,
    mimeTypes !! Ext (Base path) = Some mime
    ∧ Method rl = "POST" ∧ URL rl = baseURL +:+ "/api/media/asset.json"
    ∧ Body rl = FormBody [("filepath", Base path); ("mimetype", mime)]
    ∧ answered E rl rawl ∧ jsonLease E rawl = Ok ar
    ∧ urlParse E ("https:" +:+ Action ar) = Ok u
    ∧ (Open E path w).1 = Ret content
    ∧ Method ru = "POST" ∧ URL ru = String_ u
    ∧ Body ru = MultipartBody (form_fields (Fields ar)) (Base path) content
    ∧ answered E ru rawu ∧ xmlLocation E rawu = Ok (Location a)
    ∧ Location a ≠ ""
    ∧ ID a = AssedID ar ∧ WebSocket a = WebsocketURL ar
    ∧ log w' = EvHTTP AtUpload ru :: EvHTTP AtLease rl :: log w
    ∧ self w' = self w ∧ staged w' = staged w ∧ created w' = created w.
Proof.
  intros Hlocal. rewrite Reddit_UploadAsset_unfold, Hlocal.
  apply Reddit_transfer_inv_Ret.
Qed.

Lemma UploadAsset_local_anatomy_witness :
  ∃ rl ru,
    log (Reddit.UploadAsset Scenario.env "testdata/testimg.jpeg"
           (Scenario.w0 "username")).2
    = [EvHTTP AtUpload ru; EvHTTP AtLease rl]
    ∧ (∃ fields, Body ru = MultipartBody fields "testimg.jpeg" "jpeg bytes")
    ∧ Body rl = FormBody [("filepath", "testimg.jpeg");
                          ("mimetype", "image/jpeg")].
Proof.
  destruct (UploadAsset_local_anatomy Scenario.env "testdata/testimg.jpeg"
              (Scenario.w0 "username")
              {| ID := "123"; Location := "https://store/obj";
                 WebSocket := "wss://ws" |}
              (Reddit.UploadAsset Scenario.env "testdata/testimg.jpeg"
                 (Scenario.w0 "username")).2
              ltac:(vm_compute; reflexivity) ltac:(vm_compute; reflexivity))
    as (mime & rl & rawl & ar & u & content & ru & rawu & Hmime & _ & _ & Hbl
        & _ & _ & _ & Hopen & _ & _ & Hbody & _ & _ & _ & _ & _ & Hlog & _).
  exists rl, ru. split; [exact Hlog|]. split.
  - assert (content = "jpeg bytes") as <-
      by (vm_compute in Hopen; congruence).
    by eexists.
  - assert (mime = "image/jpeg") as <-
      by (vm_compute in Hmime; congruence).
    exact Hbl.
Defined.

(** X7. From the link to the storage endpoint. When [UploadAsset] of the
    newer [reddit.go] returns an asset for a link, the link was fetched
    with a GET answered 200, its body was staged in a fresh temporary
    file named after the extension of the link, the file part of the
    transfer is that very body under the base name of the link, and the
    temporary file is removed at the end: download, creation, lease,
    transfer and removal happen in this order and nothing else does. *)
Theorem UploadAsset_remote_round_trip E path w a w' :
  isValidURL E path = true →
  Reddit.UploadAsset E path w = (Ret a, w') →
  let rd := {| Method := "GET"; URL := path; Header := ∅; Body := NoBody |} in
  let file := temp_name E (created w) (Ext path) in
  ∃ resp content rl ru ar,
    httpDo E rd = Ok resp ∧ StatusCode resp = 200 ∧ RespBody resp = Ok content
    ∧ Body ru = MultipartBody (form_fields (Fields ar)) (Base path) content
    ∧ ID a = AssedID ar
    ∧ log w' = EvRemove file :: EvHTTP AtUpload ru :: EvHTTP AtLease rl
               :: EvCreateTemp file :: EvHTTP AtDownload rd :: log w
    ∧ staged w' !! file = None
    ∧ created w' = S (created w)
    ∧ self w' = self w.
Proof.
  intros Hremote. rewrite Reddit_UploadAsset_unfold, Hremote. intros H.
  apply bind_inv_Ret in H as ([assetPath didDownload] & w1 & Hstage & H).
  apply bind_inv_Ret in Hstage as (file & w1' & Hdl & Hret).
  injection Hret as <- <- <-.
  apply wrap_inv_Ret in Hdl.
  apply downloadLink_inv_Ret in Hdl
    as (resp & content & Hdo & Hstatus & Hbody & -> & Hself & Hstaged
        & Hcreated & Hlog).
  apply defer_inv in H as (w2 & H & ->).
  apply Reddit_transfer_inv_Ret in H
    as (mime & rl & rawl & ar & u & content' & ru & rawu & _ & _ & _ & _ & _
        & _ & _ & Hopen & _ & _ & Hbu & _ & _ & _ & Hid & _ & Hlog2 & Hself2
        & Hstaged2 & Hcreated2).
  assert (content' = content) as ->.
  { unfold Open in Hopen. rewrite Hstaged, lookup_insert_eq in Hopen.
    by injection Hopen. }
  exists resp, content, rl, ru, ar. cbv zeta. simpl.
  repeat split; try done.
  - by rewrite Hlog2, Hlog.
  - apply lookup_delete_eq.
  - congruence.
  - congruence.
Qed.

Lemma UploadAsset_remote_round_trip_witness :
  ∃ ru rl,
    log (Reddit.UploadAsset Scenario.env "https://link/image.jpeg"
           (Scenario.w0 "username")).2
    = [EvRemove "/tmp/redmed0.jpeg"; EvHTTP AtUpload ru; EvHTTP AtLease rl;
       EvCreateTemp "/tmp/redmed0.jpeg";
       EvHTTP AtDownload {| Method := "GET"; URL := "https://link/image.jpeg";
                            Header := ∅; Body := NoBody |}]
    ∧ ∃ fields, Body ru = MultipartBody fields "image.jpeg" "jpeg bytes".
Proof.
  destruct (UploadAsset_remote_round_trip Scenario.env
              "https://link/image.jpeg" (Scenario.w0 "username")
              {| ID := "123"; Location := "https://store/obj";
                 WebSocket := "wss://ws" |}
              (Reddit.UploadAsset Scenario.env "https://link/image.jpeg"
                 (Scenario.w0 "username")).2
              ltac:(vm_compute; reflexivity) ltac:(vm_compute; reflexivity))
    as (resp & content & rl & ru & ar & Hdo & _ & Hbody & Hbu & _ & Hlog & _).
  exists ru, rl. split; [exact Hlog|].
  assert (content = "jpeg bytes") as <-.
  { vm_compute in Hdo. injection Hdo as <-. simpl in Hbody. congruence. }
  by eexists.
Defined.

(** ** Temporary files *)

Lemma keeps_ret {A} (a : A) : keeps_files (ret a).
Proof. by intros w r w' [= <- <-]. Qed.

Lemma keeps_fail {A} e : keeps_files (fail (A := A) e).
Proof. by intros w r w' [= <- <-]. Qed.

Lemma keeps_lift {A} (x : result A) : keeps_files (lift x).
Proof. destruct x; [apply keeps_ret|apply keeps_fail]. Qed.

Lemma keeps_bind {A B} (m : M A) (k : A → M B) :
  keeps_files m → (∀ a, keeps_files (k a)) → keeps_files (bind m k).
Proof.
  intros Hm Hk w r w' H. unfold bind in H.
  destruct (m w) as [[a|e| |] w1] eqn:Hmw;
    destruct (Hm _ _ _ Hmw) as [Hs Hc].
  - destruct (Hk _ _ _ _ H) as [Hs' Hc']. split; congruence.
  - by injection H as <- <-.
  - by injection H as <- <-.
  - by injection H as <- <-.
Qed.

Lemma keeps_wrap {A} what (m : M A) : keeps_files m → keeps_files (wrap what m).
Proof.
  intros Hm w r w' H. unfold wrap in H.
  destruct (m w) as [[a|e| |] w1] eqn:Hmw;
    destruct (Hm _ _ _ Hmw) as [Hs Hc]; by injection H as <- <-.
Qed.

Lemma keeps_get_self : keeps_files get_self.
Proof. by intros w r w' [= <- <-]. Qed.

Lemma keeps_NewRequestWithContext E method addr b :
  keeps_files (NewRequestWithContext E method addr b).
Proof.
  unfold NewRequestWithContext.
  destruct (urlParse E addr); [apply keeps_ret|apply keeps_fail].
Qed.

Lemma keeps_authorize r : keeps_files (authorize r).
Proof.
  unfold authorize. apply keeps_bind; [apply keeps_get_self|].
  intros c. apply keeps_ret.
Qed.

Lemma keeps_Do E site r : keeps_files (Do E site r).
Proof.
  intros w r' w' H. unfold Do in H.
  by destruct (httpDo E r); injection H as <- <-.
Qed.

Lemma keeps_doRequest E {T} site r contentType
    (v : option (string → result T)) :
  keeps_files (doRequest E site r contentType v).
Proof.
  unfold doRequest.
  apply keeps_bind; [apply keeps_get_self|]. intros c.
  apply keeps_bind; [apply keeps_Do|]. intros resp.
  apply keeps_bind; [apply keeps_lift|]. intros respBytes.
  case_bool_decide; [apply keeps_fail|].
  destruct v as [unmarshal|]; [|apply keeps_ret].
  destruct (unmarshal respBytes); [apply keeps_ret|apply keeps_fail].
Qed.

Lemma keeps_Open E path : keeps_files (Open E path).
Proof.
  intros w r w' H. unfold Open in H.
  destruct (staged w !! path).
  - by injection H as <- <-.
  - by apply (keeps_lift (osOpen E path)) in H.
Qed.

Lemma keeps_request_lease E fileName mimeType :
  keeps_files (request_lease E fileName mimeType).
Proof.
  unfold request_lease.
  apply keeps_bind; [apply keeps_NewRequestWithContext|]. intros r.
  apply keeps_bind; [apply keeps_authorize|]. intros r'.
  apply keeps_bind; [apply keeps_doRequest|]. intros lease. apply keeps_ret.
Qed.

Lemma keeps_Reddit_transfer E path assetPath :
  keeps_files (Reddit_transfer E path assetPath).
Proof.
  unfold Reddit_transfer. simpl.
  destruct (mimeTypes !! Ext (Base path)) as [mime|]; [|apply keeps_fail].
  apply keeps_bind; [apply keeps_request_lease|]. intros ar.
  apply keeps_bind; [apply keeps_lift|]. intros uploadURL.
  apply keeps_bind; [apply keeps_Open|]. intros content.
  apply keeps_bind; [apply keeps_NewRequestWithContext|]. intros r.
  apply keeps_bind; [apply keeps_doRequest|]. intros resp.
  case_decide; [apply keeps_fail|apply keeps_ret].
Qed.

Lemma tame_Reddit_transfer P E path assetPath :
  (∀ r, P (EvHTTP AtLease r)) → (∀ r, P (EvHTTP AtUpload r)) →
  tame P (Reddit_transfer E path assetPath).
Proof.
  intros HL HU. unfold Reddit_transfer. simpl.
  destruct (mimeTypes !! Ext (Base path)) as [mime|]; [|apply tame_fail].
  apply tame_bind; [apply tame_request_lease; intros; apply HL|].
  intros ar. apply tame_bind; [apply tame_lift|]. intros uploadURL.
  apply tame_bind; [apply tame_Open|]. intros content.
  apply tame_bind_NewRequestWithContext. intros r _ _ _.
  apply tame_bind; [apply tame_doRequest; intros; apply HU|].
  intros resp. case_decide; [apply tame_fail|apply tame_ret].
Qed.

Lemma requests_no_temps l :
  Forall is_request l → temps_created l = [] ∧ temps_removed l = [].
Proof.
  induction 1 as [|ev l Hev _ [IH1 IH2]]; [done|].
  destruct ev; done.
Qed.

(** How [downloadLink] fails: before a file is created, and then the
    staged files are what they were, or at the copy of the body into the
    file it created. *)
Lemma downloadLink_inv_Fail E link w e w1 :
  downloadLink E link w = (Fail e, w1) →
  let rd := {| Method := "GET"; URL := link; Header := ∅; Body := NoBody |} in
  let name := temp_name E (created w) (Ext link) in
  staged w1 = staged w ∧ created w1 = created w
  ∧ (∃ l, log w1 = l ++ log w ∧ Forall is_request l)
  ∨ ∃ resp, httpDo E rd = Ok resp ∧ StatusCode resp = 200
            ∧ RespBody resp = Err e
            ∧ staged w1 = <[name := ""]> (staged w)
            ∧ created w1 = S (created w)
            ∧ log w1 = EvCreateTemp name :: EvHTTP AtDownload rd :: log w.
Proof.
  unfold downloadLink, bind, NewRequestWithContext, Do, CreateTemp, Copy_to,
    ret, fail.
  destruct (urlParse E link) as [u|e0]; simpl.
  2:{ intros [= <- <-]. left. repeat split. by exists []. }
  destruct (httpDo E _) as [resp|e0] eqn:Hdo; simpl.
  2:{ intros [= <- <-]. left. repeat split. eexists [_]. split; [done|].
      by constructor. }
  case_bool_decide as Hstatus; simpl.
  { intros [= <- <-]. left. repeat split. eexists [_]. split; [done|].
    by constructor. }
  destruct (osCreateTemp E _) as [e0|]; simpl.
  { intros [= <- <-]. left. repeat split. eexists [_]. split; [done|].
    by constructor. }
  destruct (RespBody resp) as [content|e0] eqn:Hbody; simpl; [done|].
  intros [= <- <-]. right. exists resp. simpl.
  repeat split; try done.
Qed.

Lemma temps_created_app l1 l2 :
  temps_created (l1 ++ l2) = temps_created l1 ++ temps_created l2.
Proof. apply omap_app. Qed.

Lemma temps_removed_app l1 l2 :
  temps_removed (l1 ++ l2) = temps_removed l1 ++ temps_removed l2.
Proof. apply omap_app. Qed.

(** The fate of the temporary file, for any transfer that makes requests
    and nothing else. *)
Lemma staged_upload_fate E path {A} (k : string * bool → M A)
    (T : string → M A) w :
  (∀ p, k (p, false) = T p) →
  (∀ p, k (p, true) = defer (Remove p) (T p)) →
  (∀ p, keeps_files (T p)) → (∀ p, tame is_request (T p)) →
  temp_file_fate E path w
    (bind (if isValidURL E path
           then do assetPath <- wrap ("downloading " +:+ path)
                                  (downloadLink E path);
                ret (assetPath, true)
           else ret (path, false)) k w).
Proof.
  intros Hlocal Hremote HK HT.
  match goal with |- temp_file_fate _ _ _ ?t => remember t as res eqn:Hres end.
  unfold temp_file_fate.
  destruct (isValidURL E path).
  - destruct (downloadLink E path w) as [[file|e| |] w1] eqn:Hdl.
    + unfold bind, wrap in Hres. rewrite Hdl in Hres. simpl in Hres.
      rewrite Hremote in Hres. unfold defer in Hres.
      destruct (T file w1) as [r w2] eqn:HTf. subst res. simpl.
      destruct (HK _ _ _ _ HTf) as [Hs Hc].
      destruct (HT _ _ _ _ HTf) as (_ & _ & l & Hl & Hreq).
      destruct (requests_no_temps _ Hreq) as [Hnc Hnr].
      apply downloadLink_inv_Ret in Hdl
        as (resp & content & _ & _ & _ & -> & _ & Hs1 & Hc1 & Hl1).
      eexists (EvRemove _ :: l ++ [EvCreateTemp _; EvHTTP AtDownload _]).
      split; [simpl; rewrite Hl, Hl1; f_equal; by rewrite <- app_assoc|].
      right; left. simpl.
      rewrite temps_created_app, temps_removed_app, Hnc, Hnr, Hs, Hs1, Hc, Hc1.
      repeat split; try done.
      by rewrite delete_insert_eq, delete_insert_eq.
    + unfold bind, wrap in Hres. rewrite Hdl in Hres. simpl in Hres.
      subst res. simpl.
      apply downloadLink_inv_Fail in Hdl
        as [(Hs & Hc & l & Hl & Hreq)
           |(resp & Hdo & Hstatus & Hbody & Hs & Hc & Hl)].
      * destruct (requests_no_temps _ Hreq) as [Hnc Hnr].
        exists l. split; [done|]. by left.
      * eexists [_; _]. split; [exact Hl|]. right; right. simpl.
        repeat split; try done. by exists resp, e.
    + by destruct (tame_downloadLink (λ _, True) E path
                     ltac:(done) ltac:(done) _ _ _ Hdl).
    + by destruct (tame_downloadLink (λ _, True) E path
                     ltac:(done) ltac:(done) _ _ _ Hdl).
  - change (res = k (path, false) w) in Hres. rewrite Hlocal in Hres.
    destruct (T path w) as [r w2] eqn:HTf. subst res. simpl.
    destruct (HK _ _ _ _ HTf) as [Hs Hc].
    destruct (HT _ _ _ _ HTf) as (_ & _ & l & Hl & Hreq).
    destruct (requests_no_temps _ Hreq) as [Hnc Hnr].
    exists l. split; [done|]. by left.
Qed.

Lemma keeps_RedditOld_transfer E path assetPath :
  keeps_files (RedditOld_transfer E path assetPath).
Proof.
  unfold RedditOld_transfer. simpl.
  destruct (mimeTypes !! Ext (Base path)) as [mime|]; [|apply keeps_fail].
  apply keeps_bind; [apply keeps_request_lease|]. intros ar.
  apply keeps_bind; [apply keeps_lift|]. intros uploadURL.
  apply keeps_bind; [apply keeps_Open|]. intros content.
  apply keeps_bind; [apply keeps_NewRequestWithContext|]. intros r.
  apply keeps_bind; [apply keeps_doRequest|]. intros resp.
  apply keeps_bind; [apply keeps_lift|]. intros location. apply keeps_ret.
Qed.

Lemma tame_RedditOld_transfer P E path assetPath :
  (∀ r, P (EvHTTP AtLease r)) → (∀ r, P (EvHTTP AtUpload r)) →
  tame P (RedditOld_transfer E path assetPath).
Proof.
  intros HL HU. unfold RedditOld_transfer. simpl.
  destruct (mimeTypes !! Ext (Base path)) as [mime|]; [|apply tame_fail].
  apply tame_bind; [apply tame_request_lease; intros; apply HL|].
  intros ar. apply tame_bind; [apply tame_lift|]. intros uploadURL.
  apply tame_bind; [apply tame_Open|]. intros content.
  apply tame_bind_NewRequestWithContext. intros r _ _ _.
  apply tame_bind; [apply tame_doRequest; intros; apply HU|].
  intros resp. apply tame_bind; [apply tame_lift|]. intros location.
  apply tame_ret.
Qed.


(** ** The name of a post *)

Lemma Split_pieces s : Forall slashless (Split s).
Proof.
  induction s as [|c s IH]; simpl; [by repeat constructor|].
  destruct (Ascii.eqb_spec c slash) as [->|Hc].
  - constructor; [by constructor|done].
  - destruct (Split s) as [|h t].
    + constructor; [|done]. unfold slashless, bytes. simpl.
      by repeat constructor.
    + apply Forall_cons in IH as [Hh Ht]. constructor; [|done].
      unfold slashless, bytes in *. simpl. by constructor.
Qed.

Lemma third_from_last_inv l id :
  third_from_last l = Some id → ∃ pre x y, l = pre ++ [id; x; y].
Proof.
  unfold third_from_last. case_bool_decide as Hlen; [|done]. intros Hid.
  set (n := Z.to_nat (Z.of_nat (length l) - 3)) in *.
  assert (length l = n + 3)%nat as Hn by lia.
  exists (take n l).
  pose proof (drop_S _ _ _ Hid) as Hdrop.
  assert (length (drop (S n) l) = 2%nat) as Hrest
    by (rewrite length_drop; lia).
  destruct (drop (S n) l) as [|x [|y [|z rest]]]; try done.
  exists x, y. by rewrite <- Hdrop, take_drop.
Qed.

Lemma name_of_redirect_inv prefix redirect w name w' :
  name_of_redirect prefix redirect w = (Ret name, w') →
  ∃ pre id x y, Split redirect = pre ++ [id; x; y]
                ∧ slashless id ∧ name = prefix +:+ id ∧ w' = w.
Proof.
  unfold name_of_redirect.
  destruct (third_from_last (Split redirect)) as [id|] eqn:Hid; [|done].
  intros [= <- <-].
  destruct (third_from_last_inv _ _ Hid) as (pre & x & y & Hsplit).
  exists pre, id, x, y. repeat split; [done|].
  pose proof (Split_pieces redirect) as Hall. rewrite Hsplit in Hall.
  apply Forall_app in Hall as [_ Hall]. by apply Forall_cons in Hall as [? _].
Qed.

Lemma waiter_inv_Ret E failure ctx addr w redirect w' :
  waitForPostSuccessWith E failure ctx addr w = (Ret redirect, w') →
  addr = "" ∧ redirect = "" ∧ w' = w
  ∨ addr ≠ ""
    ∧ ∃ frames,
        wsDial E addr = Ok frames
        ∧ returned (run E failure (schedule ctx) (start ctx frames))
          = Some (Ret redirect)
        ∧ w' = emit (EvClose addr) (emit (EvDial addr) w).
Proof.
  unfold waitForPostSuccessWith. case_decide as Haddr.
  - intros [= <- <-]. by left.
  - destruct (wsDial E addr) as [frames|e]; [|done].
    destruct (returned _) as [r|] eqn:Hret; [|done].
    intros [= -> <-]. right. split; [done|]. by exists frames.
Qed.

Lemma post_submit_inv_Ret E b w w' :
  post_submit E b w = (Ret (), w') →
  ∃ rs raw,
    Method rs = "POST" ∧ URL rs = baseURL +:+ "/api/submit" ∧ Body rs = b
    ∧ Header rs !! "Authorization" = Some ("bearer " +:+ accessToken (self w))
    ∧ answered E rs raw
    ∧ w' = emit (EvHTTP AtSubmit rs) w.
Proof.
  unfold post_submit. intros H.
  apply bind_inv_Ret in H as (r & w1 & Hnew & H).
  apply wrap_inv_Ret in Hnew. unfold NewRequestWithContext in Hnew.
  destruct (urlParse E _); [|done]. injection Hnew as <- <-.
  apply bind_inv_Ret in H as (r' & w2 & Hauth & H).
  injection Hauth as <- <-.
  apply bind_inv_Ret in H as (x & w3 & Hreq & H).
  apply wrap_inv_Ret in Hreq.
  apply doRequest_inv_Ret in Hreq as (Hans & _ & ->).
  injection H as <-.
  eexists _, _. repeat split; [..|exact Hans]; headers.
Qed.

(** ** Where a redirect comes from *)

Lemma on_frame_passed E failure frames f m last :
  f ∈ frames → on_frame E failure f = AtSend m last → err m = None →
  passed E failure frames (value m).
Proof.
  intros Hf. destruct f as [e|message]; simpl.
  { intros [= <- <-]. done. }
  destruct (jsonWs E message) as [wr|e] eqn:Hwr.
  2:{ intros [= <- <-]. done. }
  destruct (failure wr) eqn:Hfail.
  { intros [= <- <-]. done. }
  intros [= <- <-] _. by exists message, wr.
Qed.

Lemma provenance_step E failure frames a s :
  provenance E failure frames s →
  provenance E failure frames (step E failure a s).
Proof.
  intros (Hinc & Hsend & Hret).
  destruct s as [c inc op g ret]. simpl in *.
  destruct a as [d| | |]; simpl.
  - by destruct c.
  - destruct g as [| |m last|]; simpl.
    + by destruct c.
    + destruct op; simpl.
      * destruct inc as [|f rest]; [done|]. split; [|split]; simpl.
        -- intros f' Hf'. apply Hinc. by right.
        -- intros m last Hm. eapply on_frame_passed; [|done].
           apply Hinc. by left.
        -- done.
      * split; [done|]. split; [|done]. simpl. by intros m last [= <- <-].
    + done.
    + done.
  - destruct ret as [r|]; [done|]. destruct c as [d|]; [|done].
    split; [done|]. split; [done|]. simpl. by intros v [=].
  - destruct ret as [r|]; [done|].
    destruct g as [| |m last|]; try done.
    + split; [done|]. split; simpl.
      * by destruct last.
      * intros v. unfold of_msg. destruct (err m) eqn:Herr; [done|].
        intros [= <-]. right. by eapply Hsend.
    + split; [done|]. split; [done|]. simpl. intros v [= <-]. by left.
Qed.

Lemma provenance_run E failure frames sched s :
  provenance E failure frames s →
  provenance E failure frames (run E failure sched s).
Proof.
  revert s. induction sched as [|a sched IH]; intros s Hs; [done|].
  simpl. by apply IH, provenance_step.
Qed.

Lemma provenance_start E failure ctx frames :
  provenance E failure frames (start ctx frames).
Proof. by repeat split. Qed.

Lemma waiter_passed E failure ctx addr w v w' :
  waitForPostSuccessWith E failure ctx addr w = (Ret v, w') → v ≠ "" →
  addr ≠ ""
  ∧ w' = emit (EvClose addr) (emit (EvDial addr) w)
  ∧ ∃ frames, wsDial E addr = Ok frames ∧ passed E failure frames v.
Proof.
  intros H Hv.
  apply waiter_inv_Ret in H
    as [(_ & -> & _)|(Haddr & frames & Hdial & Hret & ->)]; [done|].
  split; [done|]. split; [done|]. exists frames. split; [done|].
  destruct (provenance_run E failure frames (schedule ctx) _
              (provenance_start E failure ctx frames)) as (_ & _ & Hprov).
  by destruct (Hprov _ Hret).
Qed.

Lemma submission_inv_Ret E failure prefix ctx addr b w name w' :
  submission E failure prefix ctx addr b w = (Ret name, w') →
  ∃ rs raw frames redirect pre id x y,
    Method rs = "POST" ∧ URL rs = baseURL +:+ "/api/submit" ∧ Body rs = b
    ∧ Header rs !! "Authorization" = Some ("bearer " +:+ accessToken (self w))
    ∧ answered E rs raw
    ∧ addr ≠ "" ∧ wsDial E addr = Ok frames
    ∧ passed E failure frames redirect
    ∧ Split redirect = pre ++ [id; x; y] ∧ slashless id
    ∧ name = prefix +:+ id
    ∧ w' = emit (EvClose addr) (emit (EvDial addr) (emit (EvHTTP AtSubmit rs) w)).
Proof.
  unfold submission. intros H.
  apply bind_inv_Ret in H as ([] & w1 & Hpost & H).
  apply bind_inv_Ret in H as (redirect & w2 & Hwait & H).
  apply wrap_inv_Ret in Hwait.
  apply name_of_redirect_inv in H as (pre & id & x & y & Hsplit & Hid & -> & ->).
  apply post_submit_inv_Ret in Hpost
    as (rs & raw & Hm & Hu & Hb & Hauth & Hans & ->).
  assert (redirect ≠ "") as Hne.
  { intros ->. simpl in Hsplit. by destruct pre as [|? [|? ?]]. }
  apply waiter_passed in Hwait as (Haddr & -> & frames & Hdial & Hpassed);
    [|done].
  by exists rs, raw, frames, redirect, pre, id, x, y.
Qed.

(** X9. Where a redirect comes from. Whatever the schedule of the
    listener, the waiter and the cancellation of the context, a
    non-empty string that the completion waiter returns is the redirect
    of a message that the peer of the dialled websocket sent, that
    decodes, and that passes the listener's test: type other than
    [failed] in [redmed.go] and the older [reddit.go], type [success] in
    the newer [reddit.go], and a redirect that is not empty. *)
Theorem waiter_returns_what_was_sent E failure ctx addr w v w' :
  waitForPostSuccessWith E failure ctx addr w = (Ret v, w') → v ≠ "" →
  ∃ frames message wr,
    wsDial E addr = Ok frames ∧ Message message ∈ frames
    ∧ jsonWs E message = Ok wr ∧ Redirect wr = v ∧ failure wr = false.
Proof.
  intros H Hv.
  apply waiter_passed in H
    as (_ & _ & frames & Hdial & message & wr & Hin & Hwr & Hfail & Hred);
    [|done].
  by exists frames, message, wr.
Qed.

Lemma waiter_returns_what_was_sent_witness :
  ∃ message,
    Message message ∈ [Message "success.json"]
    ∧ jsonWs Scenario.env message
      = Ok {| Type_ := "success"; Redirect := Scenario.the_redirect |}.
Proof.
  destruct (waiter_returns_what_was_sent Scenario.env not_success_or_empty
              Scenario.delivered "wss://ws" (Scenario.w0 "username")
              Scenario.the_redirect
              (emit (EvClose "wss://ws")
                 (emit (EvDial "wss://ws") (Scenario.w0 "username")))
              ltac:(vm_compute; reflexivity) ltac:(done))
    as (frames & message & wr & Hdial & Hin & Hwr & Hred & Hfail).
  injection Hdial as <-. exists message. split; [exact Hin|].
  apply list_elem_of_singleton in Hin. injection Hin as ->.
  vm_compute. reflexivity.
Defined.



(** ** A post, end to end *)

Lemma SetToken_inv_Ret E w w1 :
  SetToken E w = (Ret (), w1) →
  ∃ rt resp raw t,
    token_policy (self w) (EvHTTP AtToken rt)
    ∧ httpDo E rt = Ok resp ∧ RespBody resp = Ok raw
    ∧ jsonToken E raw = Ok t ∧ t ≠ ""
    ∧ w1 = set_token t (emit (EvHTTP AtToken rt) w).
Proof.
  unfold SetToken, bind, get_self, NewRequestWithContext, Do, lift, ret, fail.
  destruct (urlParse E tokenURL) as [u|e]; simpl; [|done].
  destruct (httpDo E _) as [resp|e] eqn:Hdo; simpl; [|done].
  destruct (RespBody resp) as [raw|e] eqn:Hraw; simpl; [|done].
  destruct (jsonToken E raw) as [t|e] eqn:Htok; simpl; [|done].
  destruct (decide (t = "")) as [->|Ht]; simpl; [done|].
  intros [= <-]. eexists _, resp, raw, t.
  split; [|by repeat split]. headers.
Qed.

(** X11. An image post, end to end. When [PostImage] of the second
    revision of [redmed.go], over the newer [reddit.go], returns a name,
    this is what happened, in this order and nothing else: a token was
    requested and the token endpoint answered with a non-empty token,
    which the client now holds; the image was uploaded with that token
    as bearer; the post was submitted with that token, its [url] the
    location that the upload returned and the flair fields present only
    when not empty; the websocket of the lease was dialled and closed.
    The name is [t3_] followed by an id without a slash. *)
Theorem PostImage_end_to_end E ctx req w name w' :
  Client.PostImage (reddit_new E) ctx req w = (Ret name, w') →
  ∃ rt resp raw token w1 a w2 l rs post,
    Client.img_Path req ≠ ""
    ∧ token_policy (self w) (EvHTTP AtToken rt)
    ∧ httpDo E rt = Ok resp ∧ RespBody resp = Ok raw
    ∧ jsonToken E raw = Ok token ∧ token ≠ ""
    ∧ self w' = with_token (self w) token
    ∧ w1 = set_token token (emit (EvHTTP AtToken rt) w)
    ∧ Reddit.UploadAsset E (Client.img_Path req) w1 = (Ret a, w2)
    ∧ Forall (wire_policy (with_token (self w) token)) l
    ∧ Header rs !! "Authorization" = Some ("bearer " +:+ token)
    ∧ Body rs
      = FormBody
          (Client.optional "flair_id" (Client.img_FlairID req) id
           ++ Client.optional "flair_text" (Client.img_FlairText req) id
           ++ [("kind", "image");
               ("nsfw", FormatBool (Client.img_NSWF req));
               ("resubmit", FormatBool (Client.img_Resubmit req));
               ("sendreplies", FormatBool (Client.img_SendReplies req));
               ("spoiler", FormatBool (Client.img_Spoiler req));
               ("sr", Client.img_Subreddit req);
               ("title", Client.img_Title req);
               ("url", Location a)])
    ∧ log w' = EvClose (WebSocket a) :: EvDial (WebSocket a)
               :: EvHTTP AtSubmit rs :: l ++ EvHTTP AtToken rt :: log w
    ∧ name = "t3_" +:+ post ∧ slashless post.
Proof.
  unfold Client.PostImage. case_decide as Hpath; [done|]. intros H.
  apply bind_inv_Ret in H as ([] & w1 & Htok & H).
  apply wrap_inv_Ret in Htok. simpl in Htok.
  apply bind_inv_Ret in H as (a & w2 & Hup & H).
  apply wrap_inv_Ret in Hup. apply wrap_inv_Ret in H. simpl in Hup, H.
  rewrite Reddit_SubmitPost_submission in H.
  apply submission_inv_Ret in H
    as (rs & raws & frames & redirect & pre & post & x & y & _ & _ & Hb & Hauth
        & _ & _ & _ & _ & _ & Hid & -> & ->).
  apply SetToken_inv_Ret in Htok
    as (rt & resp & raw & token & Hpol & Hdo & Hraw & Htoken & Hne & Hw1).
  destruct (wire_UploadAsset (self w1) E (Client.img_Path req)) as [Hwire _].
  destruct (Hwire w1 _ _ eq_refl Hup) as (_ & Hself2 & l & Hl & HP).
  assert (self w1 = with_token (self w) token) as Hself1 by (by subst w1).
  exists rt, resp, raw, token, w1, a, w2, l, rs, post.
  split; [done|]. split; [exact Hpol|]. repeat split; try done.
  - simpl. congruence.
  - by rewrite <- Hself1.
  - rewrite Hauth, Hself2, Hself1. done.
  - simpl. rewrite Hl. by subst w1.
Qed.

Lemma PostImage_end_to_end_witness :
  ∃ rs a,
    Header rs !! "Authorization" = Some "bearer token"
    ∧ http_sites (log (Client.PostImage (reddit_new Scenario.env)
                         Scenario.delivered
                         (Scenario.image' "testdata/testimg.jpeg")
                         (Scenario.w0 "username")).2)
      = [AtSubmit; AtUpload; AtLease; AtToken]
    ∧ Location a ≠ "".
Proof.
  destruct (PostImage_end_to_end Scenario.env Scenario.delivered
              (Scenario.image' "testdata/testimg.jpeg")
              (Scenario.w0 "username") "t3_x1qxro"
              (Client.PostImage (reddit_new Scenario.env) Scenario.delivered
                 (Scenario.image' "testdata/testimg.jpeg")
                 (Scenario.w0 "username")).2
              ltac:(vm_compute; reflexivity))
    as (rt & resp & raw & token & w1 & a & w2 & l & rs & post & _ & _ & _ & _
        & _ & _ & Hself & _ & Hup & _ & Hauth & _).
  exists rs, a. split; [|split].
  - vm_compute in Hself. injection Hself as <-. exact Hauth.
  - vm_compute. reflexivity.
  - by eapply Reddit_UploadAsset_location.
Defined.

(** ** The order of the protocol *)

Lemma logs_of_tame P {A} (m : M A) : tame P m → logs P m.
Proof.
  intros Hm w. destruct (m w) as [r w'] eqn:Hmw.
  by destruct (Hm _ _ _ Hmw) as (_ & _ & Hl).
Qed.

Lemma logs_of_tame_at (P : client → event → Prop) Q {A} (m : M A) :
  (∀ c, tame_at c (P c) m) → (∀ c ev, P c ev → Q ev) → logs Q m.
Proof.
  intros Hm HPQ w.
  destruct (tame_at_log (self w) (P (self w)) m w (Hm _) eq_refl)
    as (l & Hl & HP).
  exists l. split; [done|]. eapply Forall_impl; [done|]. apply HPQ.
Qed.

Lemma logs_ret P {A} (a : A) : logs P (ret a).
Proof. intros w. by exists []. Qed.

Lemma logs_fail P {A} e : logs P (fail (A := A) e).
Proof. intros w. by exists []. Qed.

Lemma logs_bind P {A B} (m : M A) (k : A → M B) :
  logs P m → (∀ a, logs P (k a)) → logs P (bind m k).
Proof.
  intros Hm Hk w. unfold bind. destruct (Hm w) as (l1 & Hl1 & HP1).
  destruct (m w) as [[a|e| |] w1]; simpl in *; [|by exists l1..].
  destruct (Hk a w1) as (l2 & Hl2 & HP2).
  exists (l2 ++ l1). rewrite Hl2, Hl1, app_assoc. split; [done|].
  by apply Forall_app.
Qed.

Lemma logs_wrap P {A} what (m : M A) : logs P m → logs P (wrap what m).
Proof.
  intros Hm w. unfold wrap. destruct (Hm w) as (l1 & Hl1 & HP1).
  destruct (m w) as [[a|e| |] w1]; simpl in *; by exists l1.
Qed.

Lemma logs_waiter P E failure ctx addr :
  (∀ a, P (EvDial a)) → (∀ a, P (EvClose a)) →
  logs P (waitForPostSuccessWith E failure ctx addr).
Proof.
  intros HD HC w. unfold waitForPostSuccessWith.
  case_decide; [by exists []|].
  destruct (wsDial E addr) as [frames|e].
  - destruct (returned _) as [r|]; simpl.
    + exists [EvClose addr; EvDial addr]. split; [done|].
      by repeat constructor.
    + exists [EvDial addr]. split; [done|]. by repeat constructor.
  - exists [EvDial addr]. split; [done|]. by repeat constructor.
Qed.

Lemma logs_name_of_redirect P prefix redirect :
  logs P (name_of_redirect prefix redirect).
Proof.
  intros w. unfold name_of_redirect.
  destruct (third_from_last _); by exists [].
Qed.

Lemma wire_not_token c ev : wire_policy c ev → not_token ev.
Proof. by destruct ev as [[] ?| | | |]. Qed.

Lemma logs_submission E failure prefix ctx addr b :
  logs not_token (submission E failure prefix ctx addr b).
Proof.
  unfold submission. apply logs_bind.
  { apply (logs_of_tame_at wire_policy); [|apply wire_not_token].
    intros c. apply wire_post_submit. }
  intros _. apply logs_bind; [|intros; apply logs_name_of_redirect].
  by apply logs_wrap, logs_waiter.
Qed.

Lemma logs_UploadAsset E path : logs not_token (Reddit.UploadAsset E path).
Proof.
  apply (logs_of_tame_at wire_policy); [|apply wire_not_token].
  intros c. apply wire_UploadAsset.
Qed.

Lemma logs_post_gallery E b : logs not_token (post_gallery E b).
Proof.
  apply (logs_of_tame_at wire_policy); [|apply wire_not_token].
  intros c. apply wire_post_gallery.
Qed.

(** How [SetToken] ends: it fails before it sends anything, or it sends
    the request for a token, and nothing else. *)
Lemma SetToken_trace E w :
  (∃ e, SetToken E w = (Fail e, w))
  ∨ ∃ rt w1,
      token_policy (self w) (EvHTTP AtToken rt)
      ∧ log w1 = EvHTTP AtToken rt :: log w
      ∧ ((∃ e, SetToken E w = (Fail e, w1)) ∨ SetToken E w = (Ret (), w1)).
Proof.
  unfold SetToken, bind, get_self, NewRequestWithContext, Do, lift, ret, fail.
  destruct (urlParse E tokenURL) as [u|e]; simpl; [|by eauto].
  right. eexists _.
  destruct (httpDo E _) as [resp|e] eqn:Hdo; simpl.
  2:{ eexists. split; [|split]; [| |left; eexists; reflexivity];
      [|reflexivity]; headers. }
  destruct (RespBody resp) as [raw|e] eqn:Hraw; simpl.
  2:{ eexists. split; [|split]; [| |left; eexists; reflexivity];
      [|reflexivity]; headers. }
  destruct (jsonToken E raw) as [t|e] eqn:Htok; simpl.
  2:{ eexists. split; [|split]; [| |left; eexists; reflexivity];
      [|reflexivity]; headers. }
  destruct (decide (t = "")) as [->|Ht]; simpl.
  { eexists. split; [|split]; [| |left; eexists; reflexivity];
      [|reflexivity]; headers. }
  eexists. split; [|split]; [| |right; reflexivity]; [|reflexivity]; headers.
Qed.

Lemma token_then E {A} what (k : M A) w :
  logs not_token k →
  token_first w (bind (wrap what (SetToken E)) (λ _, k) w).
Proof.
  intros Hk. unfold token_first, bind, wrap.
  destruct (SetToken_trace E w) as [[e ->]|(rt & w1 & Hpol & Hl & [[e ->]| ->])];
    simpl.
  - exists []. split; [done|]. by left.
  - exists [EvHTTP AtToken rt]. split; [done|]. right.
    by exists [], rt.
  - destruct (Hk w1) as (l & Hlk & HP).
    exists (l ++ [EvHTTP AtToken rt]). rewrite Hlk, Hl, <- app_assoc.
    split; [done|]. right. by exists l, rt.
Qed.

Lemma logs_defer_Remove P {A} name (m : M A) :
  P (EvRemove name) → logs P m → logs P (defer (Remove name) m).
Proof.
  intros HP Hm w. unfold defer. destruct (Hm w) as (l & Hl & Hall).
  destruct (m w) as [r w1]. simpl in *. exists (EvRemove name :: l).
  simpl. rewrite Hl. split; [done|]. by constructor.
Qed.

Lemma logs_Wait P {S} (go : nat → S → M S) order shared first :
  (∀ i s, tame P (go i s)) → logs P (Wait go order shared first).
Proof.
  intros Hgo. revert shared first.
  induction order as [|i order IH]; intros shared first w; simpl.
  { by exists []. }
  destruct (go i shared w) as [[s'|e| |] w1] eqn:Hi;
    destruct (Hgo _ _ _ _ _ Hi) as (Hr & _ & l1 & Hl1 & HP1); try done.
  - destruct (IH s' first w1) as (l2 & Hl2 & HP2).
    exists (l2 ++ l1). rewrite Hl2, Hl1, app_assoc. split; [done|].
    by apply Forall_app.
  - destruct (IH shared (match first with Some e0 => Some e0 | None => Some e end)
                w1) as (l2 & Hl2 & HP2).
    exists (l2 ++ l1). rewrite Hl2, Hl1, app_assoc. split; [done|].
    by apply Forall_app.
Qed.

Lemma upload_event_not_token fileName mimeType ev :
  upload_event fileName mimeType ev → not_token ev.
Proof. by destruct ev as [[] r| | | |]. Qed.

Lemma logs_stage E path blame : logs not_token (Monolith.stage E path blame).
Proof.
  apply logs_of_tame. unfold Monolith.stage.
  destruct (isValidURL E path); [|apply tame_ret].
  apply tame_bind; [|intros; apply tame_ret].
  by apply tame_wrap, tame_downloadLink.
Qed.

Lemma logs_defer_remove {A} didDownload mediaPath (rest : M A) :
  logs not_token rest →
  logs not_token (Monolith.defer_remove didDownload mediaPath rest).
Proof.
  intros Hrest. unfold Monolith.defer_remove.
  destruct didDownload; [|done]. by apply logs_defer_Remove.
Qed.

Lemma logs_uploadMedia E what path :
  logs not_token (wrap what (Monolith.uploadMedia E path)).
Proof.
  apply logs_wrap, (logs_of_tame_at wire_policy); [|apply wire_not_token].
  intros c. apply wire_uploadMedia.
Qed.

Lemma logs_Race E paths sched st :
  logs not_token (Monolith.Race E paths sched st).
Proof.
  intros w. destruct (Monolith.Race E paths sched st w) as [r w'] eqn:H.
  destruct (joins_run E paths _ _ _ _ _ H) as (_ & _ & l & Hl & HP).
  exists l. split; [done|]. eapply Forall_impl; [done|].
  by intros [[] r'| | | |].
Qed.

Lemma token_first_untouched w {A} (r : outcome A) : token_first w (r, w).
Proof. exists []. split; [done|]. by left. Qed.

(** X12. Authentication comes first. Each of [PostImage], [PostVideo]
    and [PostGallery], in the first revision of [redmed.go] and in the
    second over the newer [reddit.go], and whatever its outcome, either
    does nothing at all, or starts by requesting a token with the
    credentials of the client: basic authentication with the client id
    and the secret, the user name and the password in the form. It
    requests no second token. *)
Theorem authentication_comes_first E ctx order sched w
    (img : Client.PostImageRequest) (vid : Client.PostVideoRequest)
    (gal : Client.PostGalleryRequest) (img0 : Monolith.PostImageRequest)
    (vid0 : Monolith.PostVideoRequest) (gal0 : Monolith.PostGalleryRequest) :
  token_first w (Client.PostImage (reddit_new E) ctx img w)
  ∧ token_first w (Client.PostVideo (reddit_new E) ctx vid w)
  ∧ token_first w (Client.PostGallery (reddit_new E) order gal w)
  ∧ token_first w (Monolith.PostImage E ctx img0 w)
  ∧ token_first w (Monolith.PostVideo E ctx vid0 w)
  ∧ token_first w (Monolith.PostGallery E sched gal0 w).
Proof.
  split; [|split; [|split; [|split; [|split]]]].
  - unfold Client.PostImage.
    case_decide; [apply token_first_untouched|].
    apply (token_then E). apply logs_bind.
    { apply logs_wrap, logs_UploadAsset. }
    intros a. apply logs_wrap, logs_submission.
  - unfold Client.PostVideo.
    case_decide; [apply token_first_untouched|].
    case_decide; [apply token_first_untouched|].
    case_bool_decide; [apply token_first_untouched|].
    apply (token_then E). apply logs_bind.
    { apply logs_wrap, logs_UploadAsset. }
    intros v. apply logs_bind.
    { apply logs_wrap, logs_UploadAsset. }
    intros t. apply logs_wrap, logs_submission.
  - unfold Client.PostGallery.
    case_decide; [apply token_first_untouched|].
    apply (token_then E). apply logs_bind.
    { apply logs_Wait. intros i s. apply (closure_tame _ ID).
      intros path. apply tame_Reddit_UploadAsset. intros ev.
      apply upload_event_not_token. }
    intros [items [e|]]; simpl; [apply logs_fail|].
    apply logs_wrap, logs_post_gallery.
  - unfold Monolith.PostImage.
    case_decide; [apply token_first_untouched|].
    apply (token_then E). apply logs_bind; [apply logs_stage|].
    intros [mediaPath didDownload]. apply logs_defer_remove.
    apply logs_bind; [apply logs_uploadMedia|].
    intros [[assetID mediaURL] websocketURL]. apply logs_submission.
  - unfold Monolith.PostVideo.
    case_bool_decide; [apply token_first_untouched|].
    case_decide; [apply token_first_untouched|].
    apply (token_then E). apply logs_bind; [apply logs_stage|].
    intros [mediaPath didDownload].
    apply logs_bind; [apply logs_stage|].
    intros [thumbnailPath didThumbnailDownload].
    do 2 apply logs_defer_remove.
    apply logs_bind; [apply logs_uploadMedia|].
    intros [[assetID mediaURL] websocketURL].
    apply logs_bind; [apply logs_uploadMedia|].
    intros [[thumbID thumbnailURL] thumbWs]. apply logs_submission.
  - unfold Monolith.PostGallery.
    case_decide; [apply token_first_untouched|].
    apply (token_then E). apply logs_bind.
    { apply logs_Race. }
    intros joined. destruct (Monolith.first joined); [apply logs_fail|].
    apply logs_post_gallery.
Qed.

(** ** No post without its media *)

Lemma tame_post_submit P E b :
  (∀ r, Body r = b → P (EvHTTP AtSubmit r)) → tame P (post_submit E b).
Proof.
  intros HP. unfold post_submit, NewRequestWithContext.
  destruct (urlParse E _) as [u|e].
  - apply (tame_bind_ret P {| Method := "POST";
                              URL := baseURL +:+ "/api/submit";
                              Header := ∅; Body := b |}).
    apply tame_bind_authorize. intros r' _ _ Hbody.
    apply tame_bind; [|intros; apply tame_ret].
    apply tame_wrap, tame_doRequest. intros r'' _ _ Hbody'.
    apply HP. by rewrite Hbody', Hbody.
  - apply (tame_bind_fail P (ErrWrap "creating http request" e)).
Qed.

Lemma logs_submits E failure prefix ctx addr b :
  logs (submits b) (submission E failure prefix ctx addr b).
Proof.
  unfold submission. apply logs_bind.
  { by apply logs_of_tame, tame_post_submit. }
  intros _. apply logs_bind; [|intros; apply logs_name_of_redirect].
  by apply logs_wrap, logs_waiter.
Qed.

Lemma not_submission_submits b l :
  Forall not_submission l → Forall (submits b) l.
Proof. intros H. eapply Forall_impl; [done|]. by intros [[] r| | | |]. Qed.

Lemma token_submits b c rt :
  token_policy c (EvHTTP AtToken rt) → Forall (submits b) [EvHTTP AtToken rt].
Proof. intros _. by repeat constructor. Qed.

Lemma no_submission_in l site rs :
  Forall not_submission l → EvHTTP site rs ∈ l →
  site ≠ AtSubmit ∧ site ≠ AtSubmitGallery.
Proof.
  intros Hall Hin. rewrite Forall_forall in Hall. specialize (Hall _ Hin).
  by destruct site.
Qed.

(** X13. No post without its media. Whatever the outcome of [PostVideo]
    of the second revision of [redmed.go], over the newer [reddit.go],
    a request to [/api/submit] is among the events it added only when
    the kind is [video] or [videogif] and both uploads, of the video and
    then of the thumbnail, returned an asset; the form it carries then
    has the location of the video as [url] and the location of the
    thumbnail as [video_poster_url], neither of them empty. *)
Theorem PostVideo_submits_after_uploads E ctx req w :
  ∃ l, log (Client.PostVideo (reddit_new E) ctx req w).2 = l ++ log w
    ∧ ∀ rs, EvHTTP AtSubmit rs ∈ l →
        (Client.vid_Kind req = "video" ∨ Client.vid_Kind req = "videogif")
        ∧ ∃ w1 v w2 t w3,
            Reddit.UploadAsset E (Client.vid_VideoPath req) w1 = (Ret v, w2)
            ∧ Reddit.UploadAsset E (Client.vid_ThumbnailPath req) w2
              = (Ret t, w3)
            ∧ Location v ≠ "" ∧ Location t ≠ ""
            ∧ Body rs
              = FormBody
                  (Client.optional "flair_id" (Client.vid_FlairID req) id
                   ++ Client.optional "flair_text" (Client.vid_FlairText req) id
                   ++ [("kind", Client.vid_Kind req);
                       ("nsfw", FormatBool (Client.vid_NSWF req));
                       ("resubmit", FormatBool (Client.vid_Resubmit req));
                       ("sendreplies", FormatBool (Client.vid_SendReplies req));
                       ("spoiler", FormatBool (Client.vid_Spoiler req));
                       ("sr", Client.vid_Subreddit req);
                       ("title", Client.vid_Title req);
                       ("url", Location v);
                       ("video_poster_url", Location t)]).
Proof.
  assert (∀ l rs, Forall not_submission l → EvHTTP AtSubmit rs ∈ l → False)
    as Hno.
  { intros l rs Hall Hin. by destruct (no_submission_in _ _ _ Hall Hin). }
  unfold Client.PostVideo.
  case_decide; [exists []; split; [done|]; by intros rs ?%elem_of_nil|].
  case_decide; [exists []; split; [done|]; by intros rs ?%elem_of_nil|].
  case_bool_decide as Hkind;
    [exists []; split; [done|]; by intros rs ?%elem_of_nil|].
  assert (Client.vid_Kind req = "video" ∨ Client.vid_Kind req = "videogif")
    as Hkind'.
  { destruct (decide (Client.vid_Kind req = "video")); [by left|].
    destruct (decide (Client.vid_Kind req = "videogif")); [by right|].
    by destruct Hkind. }
  cbn [reddit_SetToken reddit_UploadAsset reddit_SubmitPost reddit_new].
  destruct (SetToken_trace E w)
    as [[e Htok]|(rt & w1 & Hpol & Hl1 & [[e Htok]|Htok])].
  { rewrite (bind_Fail _ _ _ _ _ (wrap_Fail _ _ _ _ _ Htok)).
    exists []. split; [done|]. by intros rs ?%elem_of_nil. }
  { rewrite (bind_Fail _ _ _ _ _ (wrap_Fail _ _ _ _ _ Htok)).
    exists [EvHTTP AtToken rt]. split; [done|]. intros rs Hin.
    destruct (Hno [EvHTTP AtToken rt] rs); [by repeat constructor|done]. }
  rewrite (bind_Ret _ _ _ _ _ (wrap_Ret _ _ _ _ _ Htok)).
  destruct (tame_UploadAsset E (Client.vid_VideoPath req)) as [Hvideo _].
  destruct (tame_UploadAsset E (Client.vid_ThumbnailPath req)) as [Hthumb _].
  destruct (Reddit.UploadAsset E (Client.vid_VideoPath req) w1)
    as [[v|e| |] w2] eqn:Hv;
    destruct (Hvideo _ _ _ Hv) as (Hr2 & _ & l2 & Hl2 & HP2); try done.
  2:{ rewrite (bind_Fail _ _ _ _ _ (wrap_Fail _ _ _ _ _ Hv)).
      exists (l2 ++ [EvHTTP AtToken rt]). simpl.
      rewrite Hl2, Hl1, <- app_assoc. split; [done|]. intros rs Hin.
      destruct (Hno (l2 ++ [EvHTTP AtToken rt]) rs); [|done].
      apply Forall_app. split; [done|]. by repeat constructor. }
  rewrite (bind_Ret _ _ _ _ _ (wrap_Ret _ _ _ _ _ Hv)).
  destruct (Reddit.UploadAsset E (Client.vid_ThumbnailPath req) w2)
    as [[t|e| |] w3] eqn:Ht;
    destruct (Hthumb _ _ _ Ht) as (Hr3 & _ & l3 & Hl3 & HP3); try done.
  2:{ rewrite (bind_Fail _ _ _ _ _ (wrap_Fail _ _ _ _ _ Ht)).
      exists (l3 ++ l2 ++ [EvHTTP AtToken rt]). simpl.
      rewrite Hl3, Hl2, Hl1, <- !app_assoc. split; [done|]. intros rs Hin.
      destruct (Hno (l3 ++ l2 ++ [EvHTTP AtToken rt]) rs); [|done].
      repeat (apply Forall_app; split; [done|]). by repeat constructor. }
  rewrite (bind_Ret _ _ _ _ _ (wrap_Ret _ _ _ _ _ Ht)).
  rewrite Reddit_SubmitPost_submission.
  match goal with
  | |- context [wrap ?what (submission ?E ?f ?p ?c ?a ?b) w3] =>
      destruct (logs_wrap _ what _ (logs_submits E f p c a b) w3)
        as (l4 & Hl4 & HP4)
  end.
  exists (l4 ++ l3 ++ l2 ++ [EvHTTP AtToken rt]).
  rewrite Hl4, Hl3, Hl2, Hl1, <- !app_assoc. split; [done|]. intros rs Hin.
  split; [done|]. exists w1, v, w2, t, w3.
  split; [done|]. split; [done|].
  split; [by eapply Reddit_UploadAsset_location|].
  split; [by eapply Reddit_UploadAsset_location|].
  apply elem_of_app in Hin as [Hin|Hin].
  - rewrite Forall_forall in HP4. by apply (HP4 _ Hin).
  - destruct (Hno (l3 ++ l2 ++ [EvHTTP AtToken rt]) rs); [|done].
    repeat (apply Forall_app; split; [done|]). by repeat constructor.
Qed.

Example Client_PostVideo_test :
  let res := Client.PostVideo (reddit_new Scenario.env) Scenario.delivered
               (a_video "testdata/video.mp4" "https://link/image.jpeg")
               (Scenario.w0 "username") in
  res.1 = Ret "t3_x1qxro"
  ∧ http_sites (log res.2)
    = [AtSubmit; AtUpload; AtLease; AtDownload; AtUpload; AtLease; AtToken].
Proof. split; vm_compute; reflexivity. Qed.

(** ** A gallery, end to end *)

Lemma post_gallery_inv_Ret E b w name w' :
  post_gallery E b w = (Ret name, w') →
  ∃ rg raw,
    Method rg = "POST" ∧ URL rg = baseURL +:+ "/api/submit_gallery_post.json"
    ∧ Body rg = b
    ∧ Header rg !! "Authorization" = Some ("bearer " +:+ accessToken (self w))
    ∧ Header rg !! "Content-Type" = Some "application/json"
    ∧ answered E rg raw ∧ jsonGallery E raw = Ok name ∧ name ≠ ""
    ∧ w' = emit (EvHTTP AtSubmitGallery rg) w.
Proof.
  unfold post_gallery. intros H.
  apply bind_inv_Ret in H as (r & w1 & Hnew & H).
  apply wrap_inv_Ret in Hnew. unfold NewRequestWithContext in Hnew.
  destruct (urlParse E _); [|done]. injection Hnew as <- <-.
  apply bind_inv_Ret in H as (r' & w2 & Hauth & H).
  injection Hauth as <- <-.
  apply bind_inv_Ret in H as (x & w3 & Hreq & H).
  apply wrap_inv_Ret in Hreq.
  apply doRequest_inv_Ret in Hreq as (Hans & (t & Ht & Hx) & ->).
  rewrite Hx in H. simpl in H. case_decide as Hid; [done|].
  injection H as <- <-.
  eexists _, _.
  split_and!; [| | | | |exact Hans|..]; [headers..|exact Ht|exact Hid|done].
Qed.

Lemma staging_or_transfer_UploadAsset E path :
  tame staging_or_transfer (Reddit.UploadAsset E path).
Proof.
  apply tame_Reddit_UploadAsset. by intros [[] r| | | |].
Qed.

(** X14. A gallery, end to end. When [PostGallery] of the second
    revision of [redmed.go], over the newer [reddit.go], returns a name,
    this is what happened, in this order and nothing else: a token was
    requested and is now held; the uploads ran, and did nothing but
    download, lease, transfer and handle temporary files; one request
    went to [/api/submit_gallery_post.json], as JSON, with that token as
    bearer and a payload of as many items as there are paths. No
    websocket is dialled: the name is the id that the answer to that
    request decodes to, as it stands, and it is not empty. *)
Theorem PostGallery_end_to_end E order req w name w' :
  Client.PostGallery (reddit_new E) order req w = (Ret name, w') →
  ∃ rt token items l rg raw,
    Client.gal_Paths req ≠ []
    ∧ token_policy (self w) (EvHTTP AtToken rt)
    ∧ token ≠ "" ∧ self w' = with_token (self w) token
    ∧ length items = length (Client.gal_Paths req)
    ∧ Forall staging_or_transfer l
    ∧ Body rg = JSONBody (Client.gallery_payload req items)
    ∧ Header rg !! "Authorization" = Some ("bearer " +:+ token)
    ∧ Header rg !! "Content-Type" = Some "application/json"
    ∧ answered E rg raw ∧ jsonGallery E raw = Ok name ∧ name ≠ ""
    ∧ log w' = EvHTTP AtSubmitGallery rg :: l ++ EvHTTP AtToken rt :: log w.
Proof.
  unfold Client.PostGallery. case_decide as Hlen; [done|]. intros H.
  apply bind_inv_Ret in H as ([] & w1 & Htok & H).
  apply wrap_inv_Ret in Htok. simpl in Htok.
  apply bind_inv_Ret in H as ([items first] & w2 & HW & H).
  simpl in H. destruct first as [e|]; [done|].
  apply wrap_inv_Ret in H. simpl in H.
  apply post_gallery_inv_Ret in H
    as (rg & raw & _ & _ & Hb & Hauth & Hct & Hans & Hid & Hname & ->).
  apply SetToken_inv_Ret in Htok
    as (rt & resp & rawt & token & Hpol & _ & _ & _ & Hne & Hw1).
  change (Client.gallery_upload (reddit_new E) (Client.gal_Paths req))
    with (closure (Reddit.UploadAsset E) ID (Client.gal_Paths req)) in HW.
  destruct (Wait_completes (Reddit.UploadAsset E) ID (Client.gal_Paths req)
              staging_or_transfer (staging_or_transfer_UploadAsset E) order
              (replicate (length (Client.gal_Paths req)) None) None w1)
    as (items' & first' & w2' & HW' & Hself & l & Hl & HP).
  rewrite HW in HW'. injection HW' as <- <- <-.
  apply Wait_untouched in HW as [Hlen' _]. rewrite length_replicate in Hlen'.
  exists rt, token, items, l, rg, raw.
  split; [by destruct (Client.gal_Paths req)|]. split; [exact Hpol|].
  split_and!; try done.
  - simpl. rewrite Hself. by subst w1.
  - rewrite Hauth, Hself. by subst w1.
  - simpl. rewrite Hl. by subst w1.
Qed.

Lemma PostGallery_end_to_end_witness :
  ∃ rg items,
    Header rg !! "Authorization" = Some "bearer token"
    ∧ Body rg
      = JSONBody (Client.gallery_payload
                    (Scenario.gallery' ["https://link/image.jpeg";
                                        "testdata/testimg.jpeg"]) items)
    ∧ length items = 2%nat.
Proof.
  destruct (PostGallery_end_to_end Scenario.env [1; 0]%nat
              (Scenario.gallery' ["https://link/image.jpeg";
                                  "testdata/testimg.jpeg"])
              (Scenario.w0 "username") "t3_x1qxro"
              (Client.PostGallery (reddit_new Scenario.env) [1; 0]%nat
                 (Scenario.gallery' ["https://link/image.jpeg";
                                     "testdata/testimg.jpeg"])
                 (Scenario.w0 "username")).2
              ltac:(vm_compute; reflexivity))
    as (rt & token & items & l & rg & raw & _ & _ & _ & Hself & Hlen & _
        & Hb & Hauth & _).
  exists rg, items. split; [|by split].
  vm_compute in Hself. injection Hself as <-. exact Hauth.
Defined.

(** ** The two revisions of [UploadAsset] *)

Lemma RedditOld_UploadAsset_unfold E path :
  RedditOld.UploadAsset E path
  = bind (if isValidURL E path
          then do assetPath <- wrap ("downloading " +:+ path)
                                 (downloadLink E path);
               ret (assetPath, true)
          else ret (path, false))
      (λ staged,
         let '(assetPath, didDownload) := staged in
         (if didDownload then defer (Remove assetPath) else id)
           (RedditOld_transfer E path assetPath)).
Proof. reflexivity. Qed.

Lemma stricter_bind {A} (m : M A) (k1 k2 : A → M asset) w :
  (∀ a w1, only_stricter (k1 a w1) (k2 a w1)) →
  only_stricter (bind m k1 w) (bind m k2 w).
Proof.
  intros H. unfold bind.
  destruct (m w) as [[a|e| |] w1]; [apply H|..]; (split; [done|]; simpl; eauto).
Qed.

Lemma transfer_only_stricter E path assetPath w :
  only_stricter (Reddit_transfer E path assetPath w)
    (RedditOld_transfer E path assetPath w).
Proof.
  unfold Reddit_transfer, RedditOld_transfer. simpl.
  destruct (mimeTypes !! Ext (Base path)) as [mime|];
    [|split; [done|]; simpl; by eauto].
  apply stricter_bind. intros ar w1.
  apply stricter_bind. intros u w2.
  apply stricter_bind. intros content w3.
  apply stricter_bind. intros r w4.
  unfold only_stricter, bind, doRequest, bind, get_self, Do, lift, ret, fail.
  simpl.
  destruct (httpDo E _) as [resp|e]; simpl; [|by eauto].
  destruct (RespBody resp) as [raw|e]; simpl; [|by eauto].
  case_bool_decide; simpl; [by eauto|].
  destruct (xmlLocation E raw) as [location|e]; simpl; [|by eauto].
  destruct (decide (location = "")); simpl; by eauto.
Qed.

Lemma UploadAsset_only_stricter E path w :
  only_stricter (Reddit.UploadAsset E path w) (RedditOld.UploadAsset E path w).
Proof.
  rewrite Reddit_UploadAsset_unfold, RedditOld_UploadAsset_unfold.
  apply stricter_bind. intros [assetPath didDownload] w1.
  destruct didDownload; [|apply transfer_only_stricter].
  unfold defer.
  pose proof (transfer_only_stricter E path assetPath w1) as [H2 H1].
  destruct (Reddit_transfer E path assetPath w1) as [rn wn].
  destruct (RedditOld_transfer E path assetPath w1) as [ro wo].
  simpl in *. subst wn. by split.
Qed.

(** X15. The two revisions of [UploadAsset]. On every path and in every
    world the newer [UploadAsset] sends the same requests and leaves the
    same files and the same log as the older one. It returns an asset
    exactly when the older one returns that asset and its location is
    not empty, and it fails exactly when the older one fails or returns
    an asset without a location; the texts of the errors can differ. *)
Theorem UploadAsset_revisions E path w :
  let new := Reddit.UploadAsset E path w in
  let old := RedditOld.UploadAsset E path w in
  new.2 = old.2
  ∧ (∀ a, new.1 = Ret a ↔ old.1 = Ret a ∧ Location a ≠ "")
  ∧ ((∃ e, new.1 = Fail e)
     ↔ (∃ e, old.1 = Fail e) ∨ ∃ a, old.1 = Ret a ∧ Location a = "").
Proof.
  cbv zeta. destruct (UploadAsset_only_stricter E path w) as [H2 H1].
  split; [done|].
  destruct (RedditOld.UploadAsset E path w).1 as [a0|e0| |] eqn:Hold.
  - destruct (decide (Location a0 = "")) as [Hloc|Hloc].
    + destruct H1 as [e He]. rewrite He. split.
      * intros a. split; [done|]. intros [[= <-] ?]. done.
      * split; [|by eauto]. intros _. right. by exists a0.
    + rewrite H1. split.
      * intros a. split; [by intros [= <-]|by intros [? _]].
      * split; [by intros [e ?]|]. intros [[e ?]|(a & [= <-] & ?)]; done.
  - destruct H1 as [e He]. rewrite He. split.
    + intros a. split; [done|by intros [? _]].
    + split; [by eauto|by eauto].
  - rewrite H1. split.
    + intros a. split; [done|by intros [? _]].
    + split; [by intros [e ?]|]. intros [[e ?]|(a & ? & _)]; done.
  - rewrite H1. split.
    + intros a. split; [done|by intros [? _]].
    + split; [by intros [e ?]|]. intros [[e ?]|(a & ? & _)]; done.
Qed.
